(** * A typed event emitter: model of [src/index.ts] and its properties

    The emitter keeps a [Map] from event names to [Set]s of listener
    functions.  Listeners are JavaScript function objects: they have an
    identity, they may call back into the emitter while an emission is in
    progress, and the arrow functions the library creates close over
    bindings that are initialised after the arrow is created.  The model
    keeps all of this explicit:

    - function objects are a first-order datatype [Fn], one constructor per
      arrow function of the source plus [FUser] for the caller's functions,
      whose bodies are given by a table [code] of calls to the emitter;
    - [Set] objects live in a store and are referred to by address, and their
      contents are the entry list of the ECMAScript specification, where a
      deleted entry leaves a hole so that a running [forEach] keeps its index
      and reaches the entries that were appended in the meantime;
    - promises are settled at most once, and timers are a table of pending
      callbacks that the host fires one at a time ([fireTimer]);
    - calls are interpreted by [call], which takes the remaining call depth
      as fuel and returns [None] when it is exhausted.

    Statements about what an emission does are made for sets whose other
    members are [passive], that is, caller's functions that do not call
    the emitter for the payload at hand; statements about what an emission
    cannot undo ([call_settled], [call_wf]) hold for all bodies.
    Statements about the promise of [take], [takeTimeout] or [takeEither]
    are made for every state that the program reaches from the call by
    the steps of [between], which leave the adapters of the call
    registered; statements about a handle of [once] after [off] for every
    state it reaches by the steps of [later], which are all there are. *)

From Stdlib Require Import ZArith Lia.
From stdpp Require Import base option list gmap strings.

Open Scope Z_scope.
Open Scope nat_scope.

(** ** Values and function objects *)

(** Event names are the keys of the [Events] type. *)
Abbreviation Key := string.

(** Payloads.  None of them is a thenable, so resolving a promise with a
    payload fulfils it. *)
Inductive Value :=
| VUndefined
| VNum (n : Z)
| VStr (s : string).

(** Function objects.  [a] is the address the object was allocated at; a
    binding is the address of the cell that holds a [const] of the enclosing
    call. *)
Inductive Fn :=
| FUser (n : nat)
    (* a function of the caller, e.g. a [jest.fn()] *)
| FUnsubscribe (a : nat) (event : Key) (listener : Fn)
    (* on:    () => { const exists = this.listeners.get(event); ... } *)
| FOnce (a : nat) (listener : Fn) (unsubscribe : nat)
    (* once:  (value) => { listener(value); unsubscribe() } *)
| FResolve (a : nat) (promise : nat)
| FReject (a : nat) (promise : nat)
    (* the two resolving functions a [new Promise] hands to its executor *)
| FTimeoutExpired (a : nat) (unsubscribe : nat) (reject : Fn)
    (* takeTimeout: () => { unsubscribe(); reject(undefined) } *)
| FTimeoutReceived (a : nat) (id : nat) (resolve : Fn)
    (* takeTimeout: (value) => { clearTimeout(id); resolve(value) } *)
| FEitherSuccess (a : nat) (unsubscribeFailure : nat) (resolve : Fn)
    (* takeEither: (result) => { unsubscribeFailure(); resolve(result) } *)
| FEitherFailure (a : nat) (unsubscribeSuccess : nat) (reject : Fn)
    (* takeEither: (error) => { unsubscribeSuccess(); reject(error) } *)
| FEmitCallback (a : nat) (event : Key).
    (* emitCallback: (value) => this.emit(event, value) *)

(** The identity of a function object, which is what a [Set] compares. *)
Inductive Ident :=
| IUser (n : nat)
| IAddr (a : nat).

Definition ident (fn : Fn) : Ident :=
  match fn with
  | FUser n => IUser n
  | FUnsubscribe a _ _ | FOnce a _ _ | FResolve a _ | FReject a _
  | FTimeoutExpired a _ _ | FTimeoutReceived a _ _
  | FEitherSuccess a _ _ | FEitherFailure a _ _ | FEmitCallback a _ => IAddr a
  end.

#[global] Instance Value_eq_dec : EqDecision Value.
Proof. solve_decision. Defined.

#[global] Instance Ident_eq_dec : EqDecision Ident.
Proof. solve_decision. Defined.

#[global] Instance Fn_eq_dec : EqDecision Fn.
Proof. solve_decision. Defined.

(** What the body of a caller's function does with the emitter.  The body
    of function [n] is a list of such calls, chosen from the payload. *)
Inductive Action :=
| AOn (event : Key) (listener : nat)          (* ee.on(event, fn_listener) *)
| AOnce (event : Key) (listener : nat)        (* ee.once(event, fn_listener) *)
| AEmit (event : Key) (value : Value)         (* ee.emit(event, value) *)
| AOff (event : Key)                          (* ee.off(event) *)
| AUnsubscribe (event : Key) (listener : nat).
    (* calls a handle that ee.on(event, fn_listener) has returned *)

Inductive Settlement :=
| Pending
| Fulfilled (value : Value)
| Rejected (reason : Value).

(** ** [Set] objects *)

Module JsSet.

(** [[SetData]]: the entries in insertion order, [None] where an entry
    was deleted. *)
Abbreviation data := (list (option Fn)).

Definition same (x y : Fn) : bool := bool_decide (ident x = ident y).

Fixpoint has (x : Fn) (es : data) : bool :=
  match es with
  | [] => false
  | Some y :: es' => same x y || has x es'
  | None :: es' => has x es'
  end.

(** [Set.prototype.add]: appends unless an entry with the same identity
    is present. *)
Definition add (x : Fn) (es : data) : data :=
  if has x es then es else es ++ [Some x].

(** [Set.prototype.delete]: the matching entry becomes a hole. *)
Fixpoint delete (x : Fn) (es : data) : data :=
  match es with
  | [] => []
  | Some y :: es' => if same x y then None :: es' else Some y :: delete x es'
  | None :: es' => None :: delete x es'
  end.

(** The members, in the order [forEach] visits them. *)
Fixpoint live (es : data) : list Fn :=
  match es with
  | [] => []
  | Some y :: es' => y :: live es'
  | None :: es' => live es'
  end.

Fixpoint first_live (es : data) (index : nat) : option (nat * Fn) :=
  match es with
  | [] => None
  | Some y :: _ => Some (index, y)
  | None :: es' => first_live es' (S index)
  end.

(** The first entry at or after [index] that is not a hole, with its
    index: where the loop of [forEach] stops next. *)
Definition next_entry (es : data) (index : nat) : option (nat * Fn) :=
  first_live (drop index es) index.

End JsSet.

(** ** The state: the emitter and the objects it refers to *)

Record State := mkState {
  listeners : gmap Key nat;           (* this.listeners, each value the address of a Set *)
  sets : gmap nat JsSet.data;         (* the Set objects *)
  bindings : gmap nat Fn;             (* initialised [const] bindings that arrows close over *)
  promises : gmap nat Settlement;     (* the promises *)
  timers : gmap nat Fn;               (* pending setTimeout callbacks *)
  calls : list (nat * Value);         (* every call of a caller's function, oldest first *)
  next : nat                          (* the next free address *)
}.

(** [new EventEmitter()] in an empty world. *)
Definition new : State := mkState ∅ ∅ ∅ ∅ ∅ [] 0.

Definition with_listeners (m : gmap Key nat) (st : State) : State :=
  mkState m (sets st) (bindings st) (promises st) (timers st) (calls st) (next st).

Definition with_sets (m : gmap nat JsSet.data) (st : State) : State :=
  mkState (listeners st) m (bindings st) (promises st) (timers st) (calls st) (next st).

Definition with_bindings (m : gmap nat Fn) (st : State) : State :=
  mkState (listeners st) (sets st) m (promises st) (timers st) (calls st) (next st).

Definition with_promises (m : gmap nat Settlement) (st : State) : State :=
  mkState (listeners st) (sets st) (bindings st) m (timers st) (calls st) (next st).

Definition with_timers (m : gmap nat Fn) (st : State) : State :=
  mkState (listeners st) (sets st) (bindings st) (promises st) m (calls st) (next st).

Definition with_calls (l : list (nat * Value)) (st : State) : State :=
  mkState (listeners st) (sets st) (bindings st) (promises st) (timers st) l (next st).

Definition alloc (st : State) : nat * State :=
  (next st,
   mkState (listeners st) (sets st) (bindings st) (promises st) (timers st)
           (calls st) (S (next st))).

Definition set_data (r : nat) (st : State) : JsSet.data :=
  default [] (sets st !! r).

(** [new Set()] *)
Definition new_Set (st : State) : nat * State :=
  let '(r, st) := alloc st in
  (r, with_sets (<[r := []]> (sets st)) st).

Definition Set_add (r : nat) (x : Fn) (st : State) : State :=
  with_sets (alter (JsSet.add x) r (sets st)) st.

Definition Set_delete (r : nat) (x : Fn) (st : State) : State :=
  with_sets (alter (JsSet.delete x) r (sets st)) st.

(** Initialises the [const] at address [b]. *)
Definition bind (b : nat) (fn : Fn) (st : State) : State :=
  with_bindings (<[b := fn]> (bindings st)) st.

(** The entries of the set that [event] maps to now, and its members. *)
Definition entries (event : Key) (st : State) : JsSet.data :=
  match listeners st !! event with
  | Some r => set_data r st
  | None => []
  end.

Definition members (event : Key) (st : State) : list Fn :=
  JsSet.live (entries event st).

(** ** The methods that call no listener *)

(** [on], lines 45-64. *)
Definition on (event : Key) (listener : Fn) (st : State) : Fn * State :=
  let st :=
    match listeners st !! event with
    | Some _ => st
    | None =>
        let '(r, st) := new_Set st in
        with_listeners (<[event := r]> (listeners st)) st
    end in
  let st :=
    match listeners st !! event with
    | Some found => Set_add found listener st
    | None => st
    end in
  let '(a, st) := alloc st in
  (FUnsubscribe a event listener, st).

(** The body of the arrow that [on] returns, lines 58-63. *)
Definition unsubscribe (event : Key) (listener : Fn) (st : State) : State :=
  match listeners st !! event with
  | Some exists_ => Set_delete exists_ listener st
  | None => st
  end.

(** [once], lines 75-84.  The arrow closes over the binding [unsubscribe],
    which is initialised when [on] has returned. *)
Definition once (event : Key) (listener : Fn) (st : State) : Fn * State :=
  let '(b, st) := alloc st in
  let '(a, st) := alloc st in
  let '(unsubscribe, st) := on event (FOnce a listener b) st in
  (unsubscribe, bind b unsubscribe st).

(** [off], lines 188-190. *)
Definition off (event : Key) (st : State) : State :=
  with_listeners (delete event (listeners st)) st.

Record Deferred := mkDeferred {
  d_resolve : Fn;
  d_reject : Fn;
  d_promise : nat
}.

(** [new Promise(executor)]: the pending promise and its two resolving
    functions. *)
Definition new_Promise (st : State) : Deferred * State :=
  let '(p, st) := alloc st in
  let '(a, st) := alloc st in
  let '(a', st) := alloc st in
  (mkDeferred (FResolve a p) (FReject a' p) p,
   with_promises (<[p := Pending]> (promises st)) st).

(** [createDeferred], lines 199-207: the executor stores the two resolving
    functions. *)
Definition createDeferred (st : State) : Deferred * State := new_Promise st.

(** A resolving function settles its promise if it is still pending and
    does nothing otherwise. *)
Definition settle (p : nat) (s : Settlement) (st : State) : State :=
  match promises st !! p with
  | Some Pending => with_promises (<[p := s]> (promises st)) st
  | _ => st
  end.

(** [setTimeout]: when the callback runs is up to the host, see
    [fireTimer]; the delay is not kept. *)
Definition setTimeout (callback : Fn) (timeout : nat) (st : State) : nat * State :=
  let '(id, st) := alloc st in
  (id, with_timers (<[id := callback]> (timers st)) st).

Definition clearTimeout (id : nat) (st : State) : State :=
  with_timers (delete id (timers st)) st.

(** [take], lines 94-98. *)
Definition take (event : Key) (st : State) : nat * State :=
  let '(d, st) := createDeferred st in
  let '(_, st) := once event (d_resolve d) st in
  (d_promise d, st).

(** [takeTimeout], lines 114-131.  The arrow given to [setTimeout] closes
    over the binding [unsubscribe], which [once] initialises two
    statements later; a timer never fires before the call has returned. *)
Definition takeTimeout (event : Key) (timeout : nat) (st : State) : nat * State :=
  let '(d, st) := createDeferred st in
  let '(unsubscribe, st) := alloc st in
  let '(a, st) := alloc st in
  let '(id, st) := setTimeout (FTimeoutExpired a unsubscribe (d_reject d)) timeout st in
  let '(a', st) := alloc st in
  let '(u, st) := once event (FTimeoutReceived a' id (d_resolve d)) st in
  (d_promise d, bind unsubscribe u st).

(** [takeEither], lines 145-159: the executor of the promise.  Each of the
    two arrows closes over the binding that holds the handle of the other
    registration. *)
Definition takeEither (success failure : Key) (st : State) : nat * State :=
  let '(d, st) := new_Promise st in
  let '(unsubscribeSuccess, st) := alloc st in
  let '(unsubscribeFailure, st) := alloc st in
  let '(a, st) := alloc st in
  let '(u, st) := once success (FEitherSuccess a unsubscribeFailure (d_resolve d)) st in
  let st := bind unsubscribeSuccess u st in
  let '(a', st) := alloc st in
  let '(u', st) := once failure (FEitherFailure a' unsubscribeSuccess (d_reject d)) st in
  let st := bind unsubscribeFailure u' st in
  (d_promise d, st).

(** [emitCallback], lines 173-177. *)
Definition emitCallback (event : Key) (st : State) : Fn * State :=
  let '(a, st) := alloc st in
  (FEmitCallback a event, st).

(** A call of a caller's function is recorded, as [jest.fn()] does. *)
Definition record (n : nat) (value : Value) (st : State) : State :=
  with_calls (calls st ++ [(n, value)]) st.

(** The payloads that function [n] was called with in [log], in order. *)
Definition invocations (n : nat) (log : list (nat * Value)) : list Value :=
  snd <$> filter (λ c, c.1 = n) log.

(** ** Calling functions *)

Section Program.

(** The bodies of the caller's functions. *)
Variable code : nat → Value → list Action.

Section Calls.

(** How a function is called from inside [forEach] or a body: [call]
    at the call depth that is left. *)
Variable callf : Fn → Value → State → option State.

(** [Set.prototype.forEach]: the loop reads the entries again after
    every callback, so it visits entries that a callback has appended
    and skips entries that a callback has deleted.  [steps] bounds the
    number of callbacks. *)
Fixpoint forEach (steps : nat) (r : nat) (index : nat) (value : Value)
    (st : State) : option State :=
  match JsSet.next_entry (set_data r st) index with
  | None => Some st
  | Some (i, fn) =>
      match steps with
      | 0 => None
      | S steps' =>
          st' ← callf fn value st;
          forEach steps' r (S i) value st'
      end
  end.

(** [emit], lines 165-171. *)
Definition emit_with (steps : nat) (event : Key) (value : Value)
    (st : State) : option State :=
  match listeners st !! event with
  | Some listeners_ => forEach steps listeners_ 0 value st
  | None => Some st
  end.

Definition perform (steps : nat) (act : Action) (st : State) : option State :=
  match act with
  | AOn event n => Some (on event (FUser n) st).2
  | AOnce event n => Some (once event (FUser n) st).2
  | AEmit event value => emit_with steps event value st
  | AOff event => Some (off event st)
  | AUnsubscribe event n => Some (unsubscribe event (FUser n) st)
  end.

Fixpoint run (steps : nat) (body : list Action) (st : State) : option State :=
  match body with
  | [] => Some st
  | act :: body' => st' ← perform steps act st; run steps body' st'
  end.

End Calls.

(** [call fuel fn value st] calls [fn(value)].  A function that takes no
    argument ignores [value].  The result is [None] when the call needs
    more than [fuel] nested calls, or more than [fuel] callbacks in one
    [forEach], or reads a binding that is not initialised. *)
Fixpoint call (fuel : nat) (fn : Fn) (value : Value) (st : State) : option State :=
  match fuel with
  | 0 => None
  | S fuel' =>
      match fn with
      | FUser n => run (call fuel') fuel' (code n value) (record n value st)
      | FUnsubscribe _ event listener => Some (unsubscribe event listener st)
      | FOnce _ listener unsubscribe =>
          st ← call fuel' listener value st;
          u ← bindings st !! unsubscribe;
          call fuel' u VUndefined st
      | FResolve _ p => Some (settle p (Fulfilled value) st)
      | FReject _ p => Some (settle p (Rejected value) st)
      | FTimeoutExpired _ unsubscribe reject =>
          u ← bindings st !! unsubscribe;
          st ← call fuel' u VUndefined st;
          call fuel' reject VUndefined st
      | FTimeoutReceived _ id resolve =>
          call fuel' resolve value (clearTimeout id st)
      | FEitherSuccess _ unsubscribeFailure resolve =>
          u ← bindings st !! unsubscribeFailure;
          st ← call fuel' u VUndefined st;
          call fuel' resolve value st
      | FEitherFailure _ unsubscribeSuccess reject =>
          u ← bindings st !! unsubscribeSuccess;
          st ← call fuel' u VUndefined st;
          call fuel' reject value st
      | FEmitCallback _ event => emit_with (call fuel') fuel' event value st
      end
  end.

(** [ee.emit(event, value)] called from the top level. *)
Definition emit (fuel : nat) (event : Key) (value : Value) (st : State) : option State :=
  emit_with (call fuel) fuel event value st.

(** The host runs the callback of timer [id], if it is still pending. *)
Definition fireTimer (fuel : nat) (id : nat) (st : State) : option State :=
  match timers st !! id with
  | Some callback => call fuel callback VUndefined (clearTimeout id st)
  | None => Some st
  end.

(** Emissions one after the other. *)
Fixpoint emits (fuel : nat) (es : list (Key * Value)) (st : State) : option State :=
  match es with
  | [] => Some st
  | (event, value) :: es' => st' ← emit fuel event value st; emits fuel es' st'
  end.

End Program.


(** ** Vocabulary of the statements *)

(** The caller's functions among [fns]. *)
Fixpoint users (fns : list Fn) : list nat :=
  match fns with
  | [] => []
  | FUser n :: fns' => n :: users fns'
  | _ :: fns' => users fns'
  end.

(** The calls recorded when each of [fns] is called once with [value]. *)
Definition log (fns : list Fn) (value : Value) : list (nat * Value) :=
  (λ n, (n, value)) <$> users fns.

(** A caller's function whose body does nothing with the emitter when it
    is called with [value]. *)
Definition passive (code : nat → Value → list Action) (value : Value) (fn : Fn) : Prop :=
  ∃ n, fn = FUser n ∧ code n value = [].

(** [ee.on(event, listener)] called [k] times in a row. *)
Fixpoint on_times (k : nat) (event : Key) (listener : Fn) (st : State) : State :=
  match k with
  | 0 => st
  | S k' => on_times k' event listener (on event listener st).2
  end.

(** The references of a state are in order: every event maps to a [Set]
    object of its own, a [Set] holds no function twice, and no object
    lives at or above the next free address. *)
Record wf (st : State) : Prop := mkWf {
  wf_set : ∀ e r, listeners st !! e = Some r → is_Some (sets st !! r);
  wf_inj : ∀ e1 e2 r,
    listeners st !! e1 = Some r → listeners st !! e2 = Some r → e1 = e2;
  wf_nodup : ∀ r es, sets st !! r = Some es → NoDup (ident <$> JsSet.live es);
  wf_next : ∀ r, is_Some (sets st !! r) → r < next st
}.

(** The address of the set that [event] maps to once [on] has run, and
    the address of the handle that [on] returns. *)
Definition on_ref (event : Key) (st : State) : nat :=
  default (next st) (listeners st !! event).

Definition on_addr (event : Key) (st : State) : nat :=
  match listeners st !! event with
  | Some _ => next st
  | None => S (next st)
  end.

(** The promise [p] has settled as [s]. *)
Definition settled (p : nat) (s : Settlement) (st : State) : Prop :=
  promises st !! p = Some s ∧ s ≠ Pending.

(** Every call through [callf] that returns keeps [P]. *)
Definition preserves (P : State → Prop)
    (callf : Fn → Value → State → option State) : Prop :=
  ∀ fn v st st', callf fn v st = Some st' → P st → P st'.

(** The calls recorded after [st] up to [st']. *)
Definition since (st st' : State) : list (nat * Value) :=
  drop (length (calls st)) (calls st').

(** [callf'] returns whatever [callf] returns. *)
Definition extends (callf callf' : Fn → Value → State → option State) : Prop :=
  ∀ fn v st st', callf fn v st = Some st' → callf' fn v st = Some st'.

(** The states that a program reaches from a fresh emitter by calling its
    methods, the functions they return, and by letting timers fire. *)
Inductive reachable (code : nat → Value → list Action) : State → Prop :=
| reach_new : reachable code new
| reach_on event listener st :
    reachable code st → reachable code (on event listener st).2
| reach_once event listener st :
    reachable code st → reachable code (once event listener st).2
| reach_off event st :
    reachable code st → reachable code (off event st)
| reach_take event st :
    reachable code st → reachable code (take event st).2
| reach_takeTimeout event timeout st :
    reachable code st → reachable code (takeTimeout event timeout st).2
| reach_takeEither success failure st :
    reachable code st → reachable code (takeEither success failure st).2
| reach_emitCallback event st :
    reachable code st → reachable code (emitCallback event st).2
| reach_emit fuel event value st st' :
    reachable code st → emit code fuel event value st = Some st' →
    reachable code st'
| reach_call fuel fn value st st' :
    reachable code st → call code fuel fn value st = Some st' →
    reachable code st'
| reach_fireTimer fuel id st st' :
    reachable code st → fireTimer code fuel id st = Some st' →
    reachable code st'.

(** The emissions of [event] with the payloads [values], in order. *)
Definition emissions (event : Key) (values : list Value) : list (Key * Value) :=
  (λ v, (event, v)) <$> values.

(** No function object in a [Set] lives at or above the next free address,
    so the arrows that [once] allocates are new to every set. *)
Definition allocated (st : State) : Prop :=
  ∀ r es fn a,
    sets st !! r = Some es → fn ∈ JsSet.live es → ident fn = IAddr a →
    a < next st.

(** The functions among [fns] whose identity is one of [hidden]. *)
Definition among (hidden : list Ident) (fns : list Fn) : list Fn :=
  filter (λ fn, ident fn ∈ hidden) fns.

(** The functions of [fns] other than the one with the identity of [x]:
    what [Set.prototype.delete] leaves of a set without duplicates. *)
Definition without (x : Fn) (fns : list Fn) : list Fn :=
  filter (λ fn, ident fn ≠ ident x) fns.

(** What a program does between a call of [take], [takeTimeout] or
    [takeEither] and the emission the promise waits for, when it leaves
    the registration of the call alone: it registers listeners, calls
    the handles it holds, removes the listeners of other events and emits
    other events to listeners that do not call back.  [events] are the
    events the call registered an adapter for and [hidden] the identities
    of the adapters, which no caller holds. *)
Inductive between (code : nat → Value → list Action)
    (events : list Key) (hidden : list Ident) (st : State) : State → Prop :=
| between_refl : between code events hidden st st
| between_on event listener st' :
    between code events hidden st st' → ident listener ∉ hidden →
    between code events hidden st (on event listener st').2
| between_once event listener st' :
    between code events hidden st st' →
    between code events hidden st (once event listener st').2
| between_take event st' :
    between code events hidden st st' →
    between code events hidden st (take event st').2
| between_takeTimeout event timeout st' :
    between code events hidden st st' →
    between code events hidden st (takeTimeout event timeout st').2
| between_takeEither success failure st' :
    between code events hidden st st' →
    between code events hidden st (takeEither success failure st').2
| between_emitCallback event st' :
    between code events hidden st st' →
    between code events hidden st (emitCallback event st').2
| between_off event st' :
    between code events hidden st st' → event ∉ events →
    between code events hidden st (off event st')
| between_handle fuel a event listener value st' st'' :
    between code events hidden st st' → ident listener ∉ hidden →
    call code fuel (FUnsubscribe a event listener) value st' = Some st'' →
    between code events hidden st st''
| between_emit fuel event value st' st'' :
    between code events hidden st st' → event ∉ events →
    Forall (passive code value) (members event st') →
    emit code fuel event value st' = Some st'' →
    between code events hidden st st''.

(** What such a stretch keeps of the state [st0] it starts in: the cells,
    promises and timers that were allocated, and the hidden members of the
    events, in their order. *)
Record kept (events : list Key) (hidden : list Ident) (st0 st : State) : Prop :=
  mkKept {
  kept_next : next st0 ≤ next st;
  kept_bindings : ∀ b, b < next st0 → bindings st !! b = bindings st0 !! b;
  kept_promises : ∀ p, p < next st0 → promises st !! p = promises st0 !! p;
  kept_timers : ∀ id, id < next st0 → timers st !! id = timers st0 !! id;
  kept_members : ∀ e, e ∈ events →
    among hidden (members e st) = among hidden (members e st0)
}.

(** Whatever a program does with the functions it holds, when the function
    with identity [x] is not among them: [x] is an arrow that the library
    keeps to itself. *)
Inductive later (code : nat → Value → list Action) (x : Ident) (st : State) :
    State → Prop :=
| later_refl : later code x st st
| later_on event listener st' :
    later code x st st' → ident listener ≠ x →
    later code x st (on event listener st').2
| later_once event listener st' :
    later code x st st' → later code x st (once event listener st').2
| later_off event st' :
    later code x st st' → later code x st (off event st')
| later_take event st' :
    later code x st st' → later code x st (take event st').2
| later_takeTimeout event timeout st' :
    later code x st st' → later code x st (takeTimeout event timeout st').2
| later_takeEither success failure st' :
    later code x st st' →
    later code x st (takeEither success failure st').2
| later_emitCallback event st' :
    later code x st st' → later code x st (emitCallback event st').2
| later_emit fuel event value st' st'' :
    later code x st st' → emit code fuel event value st' = Some st'' →
    later code x st st''
| later_call fuel fn value st' st'' :
    later code x st st' → call code fuel fn value st' = Some st'' →
    later code x st st''
| later_fireTimer fuel id st' st'' :
    later code x st st' → fireTimer code fuel id st' = Some st'' →
    later code x st st''.

(** The arrow allocated at [a] exists and is a member of none of [events]. *)
Definition unregistered (a : nat) (events : list Key) (st : State) : Prop :=
  wf st ∧ a < next st
  ∧ ∀ e, e ∈ events → IAddr a ∉ ident <$> members e st.

(** ** Programs used as examples *)

Module Examples.

(** Function 0 registers function 1 for ["e"]; function 1 does nothing. *)
Definition registering (n : nat) (v : Value) : list Action :=
  match n with
  | 0 => [AOn "e" 1]
  | _ => []
  end.

(** Function 0 emits ["e"] again, with payload 1, when it receives 0. *)
Definition reentrant (n : nat) (v : Value) : list Action :=
  match n, v with
  | 0, VNum 0%Z => [AEmit "e" (VNum 1)]
  | _, _ => []
  end.

(** No function does anything with the emitter. *)
Definition quiet (n : nat) (v : Value) : list Action := [].

(** Function 0 removes every listener of ["e"]. *)
Definition clearing (n : nat) (v : Value) : list Action :=
  match n with
  | 0 => [AOff "e"]
  | _ => []
  end.

(** Function 0 calls the handle of function 1 for ["e"]. *)
Definition removing (n : nat) (v : Value) : list Action :=
  match n with
  | 0 => [AUnsubscribe "e" 1]
  | _ => []
  end.

(** Function 0 calls its own handle for ["e"]. *)
Definition leaving (n : nat) (v : Value) : list Action :=
  match n with
  | 0 => [AUnsubscribe "e" 0]
  | _ => []
  end.

End Examples.

(** * Properties *)

(** ** Facts about [Set] data *)

Module JsSetFacts.
Import JsSet.

Lemma same_true x y : same x y = true ↔ ident x = ident y.
Proof. unfold same. apply bool_decide_eq_true. Qed.

Lemma same_false x y : same x y = false ↔ ident x ≠ ident y.
Proof. unfold same. apply bool_decide_eq_false. Qed.

Lemma live_app es es' : live (es ++ es') = live es ++ live es'.
Proof.
  induction es as [|[y|] es IH]; simpl; [done| |done].
  by rewrite IH.
Qed.

Lemma has_true x es : has x es = true ↔ ident x ∈ ident <$> live es.
Proof.
  induction es as [|[y|] es IH]; simpl.
  - split; [done|]. by intros ?%elem_of_nil.
  - rewrite orb_true_iff, same_true, IH, elem_of_cons. done.
  - done.
Qed.

Lemma has_false x es : has x es = false ↔ ident x ∉ ident <$> live es.
Proof.
  rewrite <- has_true. destruct (has x es); split; done.
Qed.

Lemma live_add x es :
  live (add x es) = if has x es then live es else live es ++ [x].
Proof.
  unfold add. destruct (has x es); [done|]. by rewrite live_app.
Qed.

Lemma add_present x es : has x es = true → add x es = es.
Proof. unfold add. by intros ->. Qed.

Lemma has_add x es : has x (add x es) = true.
Proof.
  destruct (has x es) eqn:E; [by rewrite add_present|].
  apply has_true. rewrite live_add, E, fmap_app. set_solver.
Qed.

Lemma add_nodup x es :
  NoDup (ident <$> live es) → NoDup (ident <$> live (add x es)).
Proof.
  intros Hnd. rewrite live_add. destruct (has x es) eqn:E; [done|].
  rewrite fmap_app. simpl. apply NoDup_app. split; [done|].
  split; [|apply NoDup_singleton].
  intros i Hi ->%list_elem_of_singleton. by apply has_false in E.
Qed.

Lemma delete_absent x es : has x es = false → delete x es = es.
Proof.
  induction es as [|[y|] es IH]; simpl; [done| |].
  - intros [E H]%orb_false_iff. by rewrite E, IH.
  - intros H. by rewrite IH.
Qed.

Lemma length_delete x es : length (delete x es) = length es.
Proof.
  induction es as [|[y|] es IH]; simpl; [done| |by rewrite IH].
  destruct (same x y); simpl; [done|by rewrite IH].
Qed.

Lemma live_delete_subseteq x es : live (delete x es) ⊆ live es.
Proof.
  induction es as [|[y|] es IH]; simpl; [done| |done].
  destruct (same x y); simpl; intros z Hz.
  - by apply elem_of_cons; right.
  - apply elem_of_cons in Hz as [->|Hz]; apply elem_of_cons; auto.
Qed.

Lemma live_delete_other x y es :
  y ∈ live es → ident y ≠ ident x → y ∈ live (delete x es).
Proof.
  induction es as [|[z|] es IH]; simpl; [done| |done].
  intros [->|Hin]%elem_of_cons Hne.
  - assert (same x z = false) as -> by (apply same_false; congruence).
    simpl. set_solver.
  - destruct (same x z); simpl; set_solver.
Qed.

Lemma live_delete_nodup x es :
  NoDup (ident <$> live es) → ident x ∉ ident <$> live (delete x es).
Proof.
  induction es as [|[y|] es IH]; simpl; [set_solver| |done].
  intros [Hy Hnd]%NoDup_cons. destruct (same x y) eqn:E; simpl.
  - apply same_true in E. by rewrite E.
  - apply same_false in E. rewrite not_elem_of_cons. split; [done|by apply IH].
Qed.

Lemma delete_nodup x es :
  NoDup (ident <$> live es) → NoDup (ident <$> live (delete x es)).
Proof.
  induction es as [|[y|] es IH]; simpl; [done| |done].
  intros [Hy Hnd]%NoDup_cons. destruct (same x y) eqn:E; simpl; [done|].
  apply NoDup_cons. split; [|by apply IH].
  intros Hin. apply Hy. apply list_elem_of_fmap in Hin as (z & -> & Hz).
  apply list_elem_of_fmap. exists z. split; [done|].
  by apply (live_delete_subseteq x).
Qed.

(** Deleting the last entry, which is how an adapter of [once] that was
    appended by the call leaves. *)
Lemma delete_last x es :
  has x es = false → delete x (es ++ [Some x]) = es ++ [None].
Proof.
  induction es as [|[y|] es IH]; simpl.
  - intros _. assert (same x x = true) as -> by by apply same_true. done.
  - intros [E H]%orb_false_iff. by rewrite E, IH.
  - intros H. by rewrite IH.
Qed.

Lemma delete_middle x es es' :
  has x es = false → delete x (es ++ Some x :: es') = es ++ None :: es'.
Proof.
  induction es as [|[y|] es IH]; simpl.
  - intros _. assert (same x x = true) as -> by by apply same_true. done.
  - intros [E H]%orb_false_iff. by rewrite E, IH.
  - intros H. by rewrite IH.
Qed.

Lemma first_live_None es i : live es = [] → first_live es i = None.
Proof.
  revert i. induction es as [|[y|] es IH]; simpl; intros i; [done|done|].
  apply IH.
Qed.

Lemma next_entry_end es i : live (drop i es) = [] → next_entry es i = None.
Proof. apply first_live_None. Qed.

Lemma next_entry_here pre y post :
  next_entry (pre ++ Some y :: post) (length pre) = Some (length pre, y).
Proof. unfold next_entry. by rewrite drop_app_length. Qed.

Lemma next_entry_hole pre post :
  next_entry (pre ++ None :: post) (length pre)
  = next_entry (pre ++ None :: post) (S (length pre)).
Proof.
  unfold next_entry. rewrite drop_app_length. simpl.
  replace (pre ++ None :: post) with ((pre ++ [None]) ++ post)
    by by rewrite <- app_assoc.
  replace (S (length pre)) with (length (pre ++ [None]))
    by (rewrite length_app; simpl; lia).
  by rewrite drop_app_length.
Qed.

Lemma next_entry_all es : next_entry es (length es) = None.
Proof. unfold next_entry. by rewrite drop_all. Qed.

End JsSetFacts.

(** ** Facts about the loop of [forEach] *)

Section Loop.
Import JsSet JsSetFacts.

Variable code : nat → Value → list Action.

Lemma users_app fns fns' : users (fns ++ fns') = users fns ++ users fns'.
Proof.
  induction fns as [|fn fns IH]; [done|].
  destruct fn; simpl; by rewrite ?IH.
Qed.

Lemma log_app fns fns' v : log (fns ++ fns') v = log fns v ++ log fns' v.
Proof. unfold log. by rewrite users_app, fmap_app. Qed.

Lemma passive_call fuel v fn st :
  passive code v fn →
  call code (S fuel) fn v st = Some (with_calls (calls st ++ log [fn] v) st).
Proof. intros (n & -> & Hn). simpl. by rewrite Hn. Qed.

Lemma forEach_done callf steps r i v st :
  live (drop i (set_data r st)) = [] →
  forEach callf steps r i v st = Some st.
Proof.
  intros H. destruct steps; simpl; by rewrite (next_entry_end _ _ H).
Qed.

Lemma forEach_hole callf steps r v st pre post :
  set_data r st = pre ++ None :: post →
  forEach callf steps r (length pre) v st
  = forEach callf steps r (S (length pre)) v st.
Proof.
  intros H. destruct steps; simpl; by rewrite H, next_entry_hole.
Qed.

Lemma forEach_entry callf steps r v st pre fn post :
  set_data r st = pre ++ Some fn :: post →
  forEach callf (S steps) r (length pre) v st
  = callf fn v st ≫= forEach callf steps r (S (length pre)) v.
Proof. intros H. simpl. by rewrite H, next_entry_here. Qed.

(** A stretch of entries whose functions are passive: each is called
    once, in order, and nothing but the record of calls changes. *)
Lemma forEach_passive_with callf steps r v seg :
  (∀ fn st, passive code v fn →
     callf fn v st = Some (with_calls (calls st ++ log [fn] v) st)) →
  ∀ pre post st,
  set_data r st = pre ++ seg ++ post →
  Forall (passive code v) (live seg) →
  forEach callf (length (live seg) + steps) r (length pre) v st
  = forEach callf steps r (length pre + length seg) v
      (with_calls (calls st ++ log (live seg) v) st).
Proof.
  intros Hcall.
  induction seg as [|[fn|] seg IH]; intros pre post st Hes Hp.
  - simpl. rewrite Nat.add_0_r, app_nil_r. by destruct st.
  - simpl in Hp. apply Forall_cons in Hp as [Hfn Hp].
    change (length (live (Some fn :: seg)) + steps)
      with (S (length (live seg) + steps)).
    rewrite (forEach_entry _ _ _ _ _ _ _ _ Hes).
    rewrite (Hcall _ _ Hfn). simpl.
    specialize (IH (pre ++ [Some fn]) post
                   (with_calls (calls st ++ log [fn] v) st)).
    rewrite length_app in IH. simpl in IH.
    rewrite Nat.add_1_r in IH. rewrite IH; [|by rewrite <- app_assoc|done].
    simpl. f_equal; [lia|].
    change (fn :: live seg) with ([fn] ++ live seg).
    by rewrite log_app, app_assoc.
  - simpl in Hp. simpl live.
    rewrite (forEach_hole _ _ _ _ _ _ _ Hes).
    specialize (IH (pre ++ [None]) post st).
    rewrite length_app in IH. simpl in IH.
    rewrite Nat.add_1_r in IH. rewrite IH; [|by rewrite <- app_assoc|done].
    simpl. f_equal. lia.
Qed.

Lemma forEach_passive fuel steps r v seg pre post st :
  set_data r st = pre ++ seg ++ post →
  Forall (passive code v) (live seg) →
  forEach (call code (S fuel)) (length (live seg) + steps) r (length pre) v st
  = forEach (call code (S fuel)) steps r (length pre + length seg) v
      (with_calls (calls st ++ log (live seg) v) st).
Proof.
  apply forEach_passive_with. intros fn st'. apply passive_call.
Qed.

Lemma forEach_passive_steps fuel steps r v seg pre post st :
  set_data r st = pre ++ seg ++ post →
  Forall (passive code v) (live seg) →
  length (live seg) ≤ steps →
  forEach (call code (S fuel)) steps r (length pre) v st
  = forEach (call code (S fuel)) (steps - length (live seg)) r
      (length pre + length seg) v
      (with_calls (calls st ++ log (live seg) v) st).
Proof.
  intros Hes Hp Hlen.
  replace steps with (length (live seg) + (steps - length (live seg)))
    at 1 by lia.
  by apply (forEach_passive _ _ _ _ _ _ post).
Qed.

Lemma call_user fuel n v st :
  call code (S fuel) (FUser n) v st
  = run (call code fuel) fuel (code n v) (record n v st).
Proof. done. Qed.

Lemma call_once fuel a listener b v st :
  call code (S fuel) (FOnce a listener b) v st
  = call code fuel listener v st
    ≫= λ st', bindings st' !! b ≫= λ u, call code fuel u VUndefined st'.
Proof. done. Qed.

Lemma call_expired fuel a b reject v st :
  call code (S fuel) (FTimeoutExpired a b reject) v st
  = bindings st !! b
    ≫= λ u, call code fuel u VUndefined st
    ≫= λ st', call code fuel reject VUndefined st'.
Proof. done. Qed.

Lemma call_received fuel a id resolve v st :
  call code (S fuel) (FTimeoutReceived a id resolve) v st
  = call code fuel resolve v (clearTimeout id st).
Proof. done. Qed.

Lemma call_success fuel a b resolve v st :
  call code (S fuel) (FEitherSuccess a b resolve) v st
  = bindings st !! b
    ≫= λ u, call code fuel u VUndefined st
    ≫= λ st', call code fuel resolve v st'.
Proof. done. Qed.

Lemma call_failure fuel a b reject v st :
  call code (S fuel) (FEitherFailure a b reject) v st
  = bindings st !! b
    ≫= λ u, call code fuel u VUndefined st
    ≫= λ st', call code fuel reject v st'.
Proof. done. Qed.

Lemma call_emitCallback fuel a event v st :
  call code (S fuel) (FEmitCallback a event) v st
  = emit_with (call code fuel) fuel event v st.
Proof. done. Qed.

End Loop.

(** ** Facts about the registry *)

Section Registry.
Import JsSet JsSetFacts.

Lemma alter_present {A} (f : A → A) (m : gmap nat A) r x :
  m !! r = Some x → alter f r m = <[r := f x]> m.
Proof.
  intros H. apply map_eq. intros i. destruct (decide (i = r)) as [->|Hne].
  - by rewrite lookup_alter_eq, lookup_insert_eq, H.
  - by rewrite lookup_alter_ne, lookup_insert_ne.
Qed.

Lemma wf_new : wf new.
Proof. split; simpl; intros *; rewrite ?lookup_empty; by intros ?; try by intros [??]. Qed.

Lemma entries_data event st r :
  listeners st !! event = Some r → entries event st = set_data r st.
Proof. unfold entries. by intros ->. Qed.

Lemma set_data_Some r st es : sets st !! r = Some es → set_data r st = es.
Proof. unfold set_data. by intros ->. Qed.

Lemma on_spec event listener st :
  wf st →
  on event listener st
  = (FUnsubscribe (on_addr event st) event listener,
     mkState (<[event := on_ref event st]> (listeners st))
             (<[on_ref event st := add listener (entries event st)]> (sets st))
             (bindings st) (promises st) (timers st) (calls st)
             (S (on_addr event st))).
Proof.
  intros Hwf. unfold on, on_addr, on_ref, entries.
  destruct (listeners st !! event) as [r|] eqn:E; simpl.
  - rewrite E. simpl. destruct (wf_set _ Hwf _ _ E) as [es Hes].
    unfold set_data. rewrite Hes. simpl.
    by rewrite (alter_present _ _ _ _ Hes), (insert_id (listeners st) _ _ E).
  - rewrite lookup_insert_eq. simpl.
    by rewrite alter_insert_eq.
Qed.

Lemma on_ref_fresh event st :
  wf st → listeners st !! event = None →
  ∀ e, listeners st !! e ≠ Some (on_ref event st).
Proof.
  intros Hwf E e He. unfold on_ref in He. rewrite E in He. simpl in He.
  pose proof (wf_next _ Hwf _ (wf_set _ Hwf _ _ He)). lia.
Qed.

Lemma on_ref_bound event st : wf st → on_ref event st < S (on_addr event st).
Proof.
  intros Hwf. unfold on_ref, on_addr.
  destruct (listeners st !! event) as [r|] eqn:E; simpl; [|lia].
  pose proof (wf_next _ Hwf _ (wf_set _ Hwf _ _ E)). lia.
Qed.

Lemma on_addr_bound event st : next st ≤ on_addr event st.
Proof. unfold on_addr. destruct (listeners st !! event); lia. Qed.

Lemma entries_nodup event st :
  wf st → NoDup (ident <$> live (entries event st)).
Proof.
  intros Hwf. unfold entries.
  destruct (listeners st !! event) as [r|] eqn:E; [|apply NoDup_nil_2].
  destruct (wf_set _ Hwf _ _ E) as [es Hes].
  rewrite (set_data_Some _ _ _ Hes). by apply (wf_nodup _ Hwf r).
Qed.

Lemma wf_on event listener st : wf st → wf (on event listener st).2.
Proof.
  intros Hwf. rewrite on_spec by done. simpl.
  pose proof (on_ref_bound event st Hwf) as Hb.
  pose proof (on_addr_bound event st) as Ha.
  split; simpl.
  - intros e r [[-> <-]|[Hne He]]%lookup_insert_Some.
    + rewrite lookup_insert_eq. by eexists.
    + apply lookup_insert_is_Some'. right. by apply (wf_set _ Hwf e).
  - intros e1 e2 r.
    destruct (listeners st !! event) as [r0|] eqn:E.
    + assert (on_ref event st = r0) as -> by (unfold on_ref; by rewrite E).
      rewrite insert_id by done. apply (wf_inj _ Hwf).
    + intros [[<- <-]|[Hne1 H1]]%lookup_insert_Some
             [[<- H2]|[Hne2 H2]]%lookup_insert_Some; try done.
      * by destruct (on_ref_fresh _ _ Hwf E e2).
      * rewrite <- H2 in H1. by destruct (on_ref_fresh _ _ Hwf E e1).
      * by apply (wf_inj _ Hwf e1 e2 r).
  - intros r es [[<- <-]|[Hne He]]%lookup_insert_Some.
    + apply add_nodup. by apply entries_nodup.
    + by apply (wf_nodup _ Hwf r).
  - intros r [<-|H]%lookup_insert_is_Some'; [lia|].
    pose proof (wf_next _ Hwf _ H). lia.
Qed.

(** Changes that leave the map and the sets alone and do not lower the
    next free address keep a state well-formed. *)
Lemma wf_frame st st' :
  listeners st' = listeners st → sets st' = sets st → next st ≤ next st' →
  wf st → wf st'.
Proof.
  intros Hl Hs Hn [H1 H2 H3 H4]. split; rewrite ?Hl, ?Hs; try done.
  intros r Hr. specialize (H4 r Hr). lia.
Qed.

Lemma wf_alloc st : wf st → wf (alloc st).2.
Proof. apply wf_frame; simpl; auto. Qed.

Lemma wf_bind b fn st : wf st → wf (bind b fn st).
Proof. apply wf_frame; simpl; auto. Qed.

Lemma wf_record n v st : wf st → wf (record n v st).
Proof. apply wf_frame; simpl; auto. Qed.

Lemma wf_with_calls l st : wf st → wf (with_calls l st).
Proof. apply wf_frame; simpl; auto. Qed.

Lemma wf_settle p s st : wf st → wf (settle p s st).
Proof.
  unfold settle. destruct (promises st !! p) as [[]|]; try done.
  apply wf_frame; simpl; auto.
Qed.

Lemma wf_clearTimeout id st : wf st → wf (clearTimeout id st).
Proof. apply wf_frame; simpl; auto. Qed.

Lemma wf_setTimeout cb t st : wf st → wf (setTimeout cb t st).2.
Proof. apply wf_frame; simpl; auto. Qed.

Lemma wf_new_Promise st : wf st → wf (new_Promise st).2.
Proof. apply wf_frame; simpl; auto. Qed.

Lemma wf_off event st : wf st → wf (off event st).
Proof.
  intros [H1 H2 H3 H4]. split; simpl; try done.
  - intros e r [_ H]%lookup_delete_Some. by apply (H1 e).
  - intros e1 e2 r [_ Ha]%lookup_delete_Some [_ Hb]%lookup_delete_Some.
    by apply (H2 e1 e2 r).
Qed.

Lemma unsubscribe_spec event listener st r :
  wf st → listeners st !! event = Some r →
  unsubscribe event listener st
  = with_sets (<[r := delete listener (entries event st)]> (sets st)) st.
Proof.
  intros Hwf E. unfold unsubscribe, Set_delete. rewrite E.
  destruct (wf_set _ Hwf _ _ E) as [es Hes].
  rewrite (entries_data _ _ _ E), (set_data_Some _ _ _ Hes).
  by rewrite (alter_present _ _ _ _ Hes).
Qed.

Lemma unsubscribe_unmapped event listener st :
  listeners st !! event = None → unsubscribe event listener st = st.
Proof. unfold unsubscribe. by intros ->. Qed.

Lemma wf_unsubscribe event listener st :
  wf st → wf (unsubscribe event listener st).
Proof.
  intros Hwf. destruct (listeners st !! event) as [r|] eqn:E;
    [|by rewrite unsubscribe_unmapped].
  rewrite (unsubscribe_spec _ _ _ _ Hwf E).
  pose proof Hwf as [H1 H2 H3 H4]. split; simpl; try done.
  - intros e r' He. apply lookup_insert_is_Some'. right. by apply (H1 e).
  - intros r' es [[<- <-]|[Hne He]]%lookup_insert_Some.
    + apply delete_nodup. by apply entries_nodup.
    + by apply (H3 r').
  - intros r' [<-|H]%lookup_insert_is_Some'; [|by apply H4].
    apply H4. by apply (H1 event).
Qed.

Lemma entries_frame event st st' :
  listeners st' = listeners st → sets st' = sets st →
  entries event st' = entries event st.
Proof. unfold entries, set_data. by intros -> ->. Qed.

(** [once] in one piece: the adapter is registered by [on] and the
    binding it closes over holds the handle that [on] returned. *)
Lemma once_spec event listener st :
  wf st →
  let st2 := (alloc (alloc st).2).2 in
  let adapter := FOnce (S (next st)) listener (next st) in
  let handle := FUnsubscribe (on_addr event st2) event adapter in
  once event listener st
  = (handle,
     mkState (<[event := on_ref event st2]> (listeners st))
             (<[on_ref event st2 := add adapter (entries event st)]> (sets st))
             (<[next st := handle]> (bindings st))
             (promises st) (timers st) (calls st)
             (S (on_addr event st2))).
Proof.
  intros Hwf st2 adapter handle.
  assert (wf st2) as Hwf2 by (apply (wf_frame st); simpl; auto).
  subst st2 adapter handle. revert Hwf2. unfold once.
  cbv beta iota delta [alloc snd fst]. intros Hwf2.
  rewrite (on_spec _ _ _ Hwf2). unfold bind. simpl.
  match goal with
  | |- context [entries event ?s] =>
      by rewrite (entries_frame event st s)
  end.
Qed.

Lemma wf_once event listener st : wf st → wf (once event listener st).2.
Proof.
  intros Hwf. unfold once.
  cbv beta iota delta [alloc snd fst].
  match goal with
  | |- context [on ?e ?l ?s] =>
      assert (wf (on e l s).2) as Hon
        by (apply wf_on; apply (wf_frame st); simpl; auto);
      destruct (on e l s) as [u st']
  end.
  by apply wf_bind.
Qed.

End Registry.

Create HintDb emitter discriminated.

#[global] Hint Resolve wf_new wf_on wf_once wf_off wf_unsubscribe wf_record
  wf_settle wf_clearTimeout wf_alloc wf_bind wf_with_calls wf_new_Promise
  wf_setTimeout : emitter.

(** ** What every call preserves *)

Section Preservation.

Variable code : nat → Value → list Action.

(** A property of states that every step a call is made of preserves;
    what a body registers is a function of the caller. *)
Variable P : State → Prop.
Hypothesis P_record : ∀ n v st, P st → P (record n v st).
Hypothesis P_on : ∀ e n st, P st → P (on e (FUser n) st).2.
Hypothesis P_once : ∀ e n st, P st → P (once e (FUser n) st).2.
Hypothesis P_off : ∀ e st, P st → P (off e st).
Hypothesis P_unsubscribe : ∀ e l st, P st → P (unsubscribe e l st).
Hypothesis P_settle : ∀ p s st, s ≠ Pending → P st → P (settle p s st).
Hypothesis P_clearTimeout : ∀ id st, P st → P (clearTimeout id st).

Lemma forEach_preserves callf :
  preserves P callf →
  ∀ steps r i v st st',
    forEach callf steps r i v st = Some st' → P st → P st'.
Proof.
  intros Hc. induction steps as [|steps IH]; intros r i v st st'; simpl;
    destruct (JsSet.next_entry (set_data r st) i) as [[j fn]|];
    try (intros [= <-]; done); try done.
  destruct (callf fn v st) as [st1|] eqn:E; simpl; [|done].
  intros H Hst. eapply IH; [done|]. by eapply Hc.
Qed.

Lemma emit_with_preserves callf :
  preserves P callf →
  ∀ steps e v st st',
    emit_with callf steps e v st = Some st' → P st → P st'.
Proof.
  intros Hc steps e v st st'. unfold emit_with.
  destruct (listeners st !! e); [by apply forEach_preserves|].
  by intros [= <-].
Qed.

Lemma run_preserves callf :
  preserves P callf →
  ∀ steps body st st',
    run callf steps body st = Some st' → P st → P st'.
Proof.
  intros Hc steps. induction body as [|act body IH]; intros st st'; simpl.
  - by intros [= <-].
  - destruct (perform callf steps act st) as [st1|] eqn:E; simpl; [|done].
    intros H Hst. eapply IH; [done|].
    destruct act; unfold perform in E;
      try (simplify_eq; auto; fail).
    by eapply emit_with_preserves.
Qed.

Lemma call_preserves fuel : preserves P (call code fuel).
Proof.
  induction fuel as [|fuel IH]; intros fn v st st'; [done|].
  destruct fn as [n|a e l|a l b|a p|a p|a b rj|a id rs|a b rs|a b rj|a e];
    simpl.
  - intros H Hst. eapply run_preserves; [apply IH|done|]. by apply P_record.
  - intros [= <-]. apply P_unsubscribe.
  - destruct (call code fuel l v st) as [st1|] eqn:E1; simpl; [|done].
    destruct (bindings st1 !! b) as [u|]; simpl; [|done].
    intros H Hst. eapply IH; [done|]. by eapply IH.
  - intros [= <-]. by apply P_settle.
  - intros [= <-]. by apply P_settle.
  - destruct (bindings st !! b) as [u|]; simpl; [|done].
    destruct (call code fuel u VUndefined st) as [st1|] eqn:E1; simpl; [|done].
    intros H Hst. eapply IH; [done|]. by eapply IH.
  - intros H Hst. eapply IH; [done|]. by apply P_clearTimeout.
  - destruct (bindings st !! b) as [u|]; simpl; [|done].
    destruct (call code fuel u VUndefined st) as [st1|] eqn:E1; simpl; [|done].
    intros H Hst. eapply IH; [done|]. by eapply IH.
  - destruct (bindings st !! b) as [u|]; simpl; [|done].
    destruct (call code fuel u VUndefined st) as [st1|] eqn:E1; simpl; [|done].
    intros H Hst. eapply IH; [done|]. by eapply IH.
  - by apply emit_with_preserves.
Qed.

Lemma emit_preserves fuel e v st st' :
  emit code fuel e v st = Some st' → P st → P st'.
Proof. apply emit_with_preserves, call_preserves. Qed.

Lemma emits_preserves fuel es : ∀ st st',
  emits code fuel es st = Some st' → P st → P st'.
Proof.
  induction es as [|[e v] es IH]; intros st st'; simpl.
  - by intros [= <-].
  - destruct (emit code fuel e v st) as [st1|] eqn:E; simpl; [|done].
    intros H Hst. eapply IH; [done|]. by eapply emit_preserves.
Qed.

Lemma fireTimer_preserves fuel id st st' :
  fireTimer code fuel id st = Some st' → P st → P st'.
Proof.
  unfold fireTimer. destruct (timers st !! id) as [cb|].
  - intros H Hst. eapply call_preserves; [done|]. by apply P_clearTimeout.
  - by intros [= <-].
Qed.

End Preservation.

Section Invariants.

Variable code : nat → Value → list Action.

(** Calls keep the state well-formed. *)
Lemma call_wf fuel fn v st st' :
  call code fuel fn v st = Some st' → wf st → wf st'.
Proof.
  apply (call_preserves code wf); auto with emitter.
Qed.

Lemma emit_wf fuel e v st st' :
  emit code fuel e v st = Some st' → wf st → wf st'.
Proof. apply emit_with_preserves. intros ????. apply call_wf. Qed.

Lemma settle_settled p s q s' st :
  settled p s st → settled p s (settle q s' st).
Proof.
  intros [H Hs]. split; [|done]. unfold settle.
  destruct (promises st !! q) as [[]|] eqn:E; try done. simpl.
  destruct (decide (p = q)) as [->|Hne]; [congruence|].
  by rewrite lookup_insert_ne.
Qed.

Lemma settled_frame p s st st' :
  promises st' = promises st → settled p s st → settled p s st'.
Proof. unfold settled. by intros ->. Qed.

Ltac frame_settled :=
  intros; eapply settled_frame; [|eassumption]; reflexivity.

Lemma on_promises e l st : promises (on e l st).2 = promises st.
Proof.
  unfold on. destruct (listeners st !! e) eqn:E; simpl.
  - by rewrite E.
  - by rewrite lookup_insert_eq.
Qed.

Lemma once_promises e l st : promises (once e l st).2 = promises st.
Proof.
  unfold once. cbv beta iota delta [alloc snd fst].
  match goal with
  | |- context [on ?e ?l ?s] =>
      pose proof (on_promises e l s) as H; destruct (on e l s) as [u st']
  end.
  by simpl in *.
Qed.

Lemma unsubscribe_promises e l st : promises (unsubscribe e l st) = promises st.
Proof. unfold unsubscribe. by destruct (listeners st !! e). Qed.

(** A settled promise stays as it is, whatever is called. *)
Lemma call_settled p s fuel fn v st st' :
  call code fuel fn v st = Some st' → settled p s st → settled p s st'.
Proof.
  apply (call_preserves code (settled p s)).
  - frame_settled.
  - intros. eapply settled_frame; [apply on_promises|done].
  - intros. eapply settled_frame; [apply once_promises|done].
  - frame_settled.
  - intros. eapply settled_frame; [apply unsubscribe_promises|done].
  - intros. by apply settle_settled.
  - frame_settled.
Qed.

Lemma emits_settled p s fuel es st st' :
  emits code fuel es st = Some st' → settled p s st → settled p s st'.
Proof.
  apply (emits_preserves code (settled p s)).
  - frame_settled.
  - intros. eapply settled_frame; [apply on_promises|done].
  - intros. eapply settled_frame; [apply once_promises|done].
  - frame_settled.
  - intros. eapply settled_frame; [apply unsubscribe_promises|done].
  - intros. by apply settle_settled.
  - frame_settled.
Qed.

End Invariants.

(** ** Emission over passive listeners *)

Section Emission.
Import JsSet JsSetFacts.

Variable code : nat → Value → list Action.

Lemma since_with_calls st l st' :
  calls st' = calls st ++ l → since st st' = l.
Proof. unfold since. intros ->. by rewrite drop_app_length. Qed.

Lemma invocations_app n l l' :
  invocations n (l ++ l') = invocations n l ++ invocations n l'.
Proof. unfold invocations. by rewrite filter_app, fmap_app. Qed.

Lemma invocations_log_absent n fns v :
  FUser n ∉ fns → invocations n (log fns v) = [].
Proof.
  induction fns as [|fn fns IH]; [done|].
  intros [Hne Hin]%not_elem_of_cons. specialize (IH Hin).
  destruct fn as [m| | | | | | | | |]; try done.
  change (log (FUser m :: fns) v) with ([(m, v)] ++ log fns v).
  rewrite invocations_app, IH, app_nil_r.
  unfold invocations. rewrite filter_cons_False; [done|].
  simpl. intros ->. done.
Qed.

Lemma invocations_log_once n fns v :
  NoDup (ident <$> fns) → FUser n ∈ fns → invocations n (log fns v) = [v].
Proof.
  induction fns as [|fn fns IH]; [by intros _ ?%elem_of_nil|].
  rewrite fmap_cons. intros [Hfn Hnd]%NoDup_cons [<-|Hin]%elem_of_cons.
  - change (log (FUser n :: fns) v) with ([(n, v)] ++ log fns v).
    rewrite invocations_app, invocations_log_absent.
    + unfold invocations. by rewrite filter_cons_True.
    + intros Hin. apply Hfn. apply list_elem_of_fmap. by exists (FUser n).
  - specialize (IH Hnd Hin).
    destruct fn as [m| | | | | | | | |]; try done.
    change (log (FUser m :: fns) v) with ([(m, v)] ++ log fns v).
    rewrite invocations_app, IH.
    unfold invocations. rewrite filter_cons_False; [done|].
    simpl. intros ->. apply Hfn. apply list_elem_of_fmap. by exists (FUser n).
Qed.

(** When every member is passive, an emission calls each member once, in
    order, and changes nothing but the record of calls. *)
Lemma emit_passive fuel event value st :
  Forall (passive code value) (members event st) →
  length (members event st) < fuel →
  emit code fuel event value st
  = Some (with_calls (calls st ++ log (members event st) value) st).
Proof.
  unfold members, entries, emit, emit_with. intros Hp Hlen.
  destruct (listeners st !! event) as [r|] eqn:E.
  - destruct fuel as [|fuel]; [lia|].
    replace (S fuel)
      with (length (live (set_data r st)) + (S fuel - length (live (set_data r st))))
      at 2 by lia.
    rewrite (forEach_passive code fuel _ r value (set_data r st) [] [] st);
      [|by rewrite app_nil_r|done].
    apply forEach_done. simpl. by rewrite drop_all.
  - simpl. rewrite app_nil_r. by destruct st.
Qed.

End Emission.

(** ** Emitting and the bound emitter *)

Section Emit.
Import JsSet JsSetFacts.

Variable code : nat → Value → list Action.

Lemma members_new event : members event new = [].
Proof. done. Qed.

Lemma members_off event st : members event (off event st) = [].
Proof. unfold members, entries, off. simpl. by rewrite lookup_delete_eq. Qed.

(** C9.  Emitting an event that has no listener, because none was ever
    registered, or every one was unsubscribed, or [off] removed them,
    returns normally, calls nothing and leaves the state as it was. *)
Theorem emit_without_listeners fuel event value st :
  members event st = [] →
  emit code fuel event value st = Some st.
Proof.
  unfold members, entries, emit, emit_with. intros H.
  destruct (listeners st !! event) as [r|]; [|done].
  apply forEach_done. by rewrite drop_0.
Qed.


End Emit.

(** C9 at work: nothing was ever registered for ["e"]. *)
Lemma emit_without_listeners_witness :
  emit Examples.quiet 0 "e" (VNum 1) new = Some new.
Proof. apply emit_without_listeners. reflexivity. Defined.

(** ** Registering and unsubscribing *)

Section Handles.
Import JsSet JsSetFacts.

Variable code : nat → Value → list Action.

Lemma entries_on event listener st :
  wf st → entries event (on event listener st).2 = add listener (entries event st).
Proof.
  intros Hwf. rewrite on_spec by done. unfold entries at 1, set_data. simpl.
  by rewrite !lookup_insert_eq.
Qed.

Lemma entries_on_other event listener e st :
  wf st → e ≠ event → entries e (on event listener st).2 = entries e st.
Proof.
  intros Hwf Hne. rewrite on_spec by done. unfold entries, set_data. simpl.
  rewrite lookup_insert_ne by done.
  destruct (listeners st !! e) as [r|] eqn:E; [|done].
  rewrite lookup_insert_ne; [done|]. intros Hr.
  destruct (listeners st !! event) as [r0|] eqn:E0.
  - unfold on_ref in Hr. rewrite E0 in Hr. simpl in Hr. subst r0.
    by destruct Hne; apply (wf_inj _ Hwf e event r).
  - destruct (on_ref_fresh _ _ Hwf E0 e). by rewrite Hr.
Qed.

Lemma calls_on event listener st : calls (on event listener st).2 = calls st.
Proof.
  unfold on. destruct (listeners st !! event) eqn:E; simpl.
  - by rewrite E.
  - by rewrite lookup_insert_eq.
Qed.

Lemma entries_unsubscribe event listener st :
  wf st →
  entries event (unsubscribe event listener st) = delete listener (entries event st).
Proof.
  intros Hwf. destruct (listeners st !! event) as [r|] eqn:E.
  - rewrite (unsubscribe_spec _ _ _ _ Hwf E). unfold entries at 1, set_data.
    simpl. by rewrite E, lookup_insert_eq.
  - rewrite unsubscribe_unmapped by done. unfold entries. by rewrite E.
Qed.

Lemma entries_unsubscribe_other event listener e st :
  wf st → e ≠ event → entries e (unsubscribe event listener st) = entries e st.
Proof.
  intros Hwf Hne. destruct (listeners st !! event) as [r|] eqn:E;
    [|by rewrite unsubscribe_unmapped].
  rewrite (unsubscribe_spec _ _ _ _ Hwf E). unfold entries, set_data. simpl.
  destruct (listeners st !! e) as [r'|] eqn:E'; [|done].
  rewrite lookup_insert_ne; [done|]. intros ->.
  by destruct Hne; apply (wf_inj _ Hwf e event r').
Qed.

Lemma unsubscribe_absent event listener st :
  wf st → ident listener ∉ ident <$> members event st →
  unsubscribe event listener st = st.
Proof.
  intros Hwf Habs. destruct (listeners st !! event) as [r|] eqn:E;
    [|by rewrite unsubscribe_unmapped].
  rewrite (unsubscribe_spec _ _ _ _ Hwf E).
  apply has_false in Habs. rewrite (delete_absent _ _ Habs).
  destruct (wf_set _ Hwf _ _ E) as [es Hes].
  rewrite (entries_data _ _ _ E), (set_data_Some _ _ _ Hes).
  rewrite insert_id by done. by destruct st.
Qed.

End Handles.

(** C2 as stated fails: a handle made before [off] removes the same
    function when it was registered again after [off]. *)
Lemma handle_after_off_removes_reregistered :
  let '(handle, st1) := on "e" (FUser 0) new in
  let st2 := off "e" st1 in
  let '(_, st3) := on "e" (FUser 0) st2 in
  members "e" st3 = [FUser 0]
  ∧ members "e" <$> call Examples.quiet 1 handle VUndefined st3 = Some [].
Proof. vm_compute. split; reflexivity. Qed.

(** ** The same function registered more than once *)

Section Duplicates.
Import JsSet JsSetFacts.

Variable code : nat → Value → list Action.

Lemma on_handle event listener st :
  ∃ a, (on event listener st).1 = FUnsubscribe a event listener.
Proof. unfold on. destruct (listeners st !! event); simpl; by eexists. Qed.

Lemma add_add x es : add x (add x es) = add x es.
Proof. apply add_present, has_add. Qed.

Lemma wf_on_times k event listener : ∀ st,
  wf st → wf (on_times k event listener st).
Proof.
  induction k as [|k IH]; intros st Hwf; cbn [on_times]; [done|].
  by apply IH, wf_on.
Qed.

Lemma entries_on_times k event listener : ∀ st,
  wf st → 0 < k →
  entries event (on_times k event listener st) = add listener (entries event st).
Proof.
  induction k as [|k IH]; intros st Hwf Hk; [lia|]. cbn [on_times].
  destruct k as [|k].
  - cbn [on_times]. by apply entries_on.
  - rewrite IH; [|by apply wf_on|lia]. by rewrite entries_on, add_add.
Qed.

Lemma calls_on_times k event listener : ∀ st,
  calls (on_times k event listener st) = calls st.
Proof.
  induction k as [|k IH]; intros st; cbn [on_times]; [done|].
  by rewrite IH, calls_on.
Qed.

Lemma passive_add v x es :
  passive code v x → Forall (passive code v) (live es) →
  Forall (passive code v) (live (add x es)).
Proof.
  intros Hx Hes. rewrite live_add. destruct (has x es); [done|].
  apply Forall_app. split; [done|]. by apply Forall_singleton.
Qed.

Lemma length_live_add x es : length (live (add x es)) ≤ length (live es) + 1.
Proof.
  rewrite live_add. destruct (has x es); [lia|].
  rewrite length_app. simpl. lia.
Qed.

Lemma user_in_add n es : FUser n ∈ live (add (FUser n) es).
Proof.
  pose proof (has_add (FUser n) es) as H. apply has_true in H.
  apply list_elem_of_fmap in H as (fn & Hid & Hin).
  destruct fn; simpl in Hid; try done. by injection Hid as ->.
Qed.

(** C6.  However often the same function is registered for an event, one
    emission of the event calls it exactly once, with the payload. *)
Theorem duplicate_registration_one_call k event n value st :
  wf st →
  Forall (passive code value) (members event st) →
  code n value = [] →
  0 < k →
  let st1 := on_times k event (FUser n) st in
  ∃ st2,
    (∀ fuel, length (members event st) + 1 < fuel →
       emit code fuel event value st1 = Some st2)
    ∧ invocations n (since st1 st2) = [value].
Proof.
  intros Hwf Hp Hn Hk st1.
  assert (wf st1) as Hwf1 by by apply wf_on_times.
  assert (entries event st1 = add (FUser n) (entries event st)) as He
    by by apply entries_on_times.
  assert (Forall (passive code value) (members event st1)) as Hp1.
  { unfold members. rewrite He. apply passive_add; [|done]. by exists n. }
  eexists. split.
  - intros fuel Hfuel. apply emit_passive; [done|].
    unfold members in *. rewrite He.
    pose proof (length_live_add (FUser n) (entries event st)). lia.
  - rewrite (since_with_calls _ (log (members event st1) value)) by done.
    apply invocations_log_once.
    + by apply entries_nodup.
    + unfold members. rewrite He. apply user_in_add.
Qed.

(** C10.  Registrations are not counted: after two registrations of the
    same function, one call of either handle removes it from the set of the
    event, and an emission of the event then does not call it. *)
Theorem duplicate_registration_one_unsubscribe fuel event listener value st :
  wf st →
  let '(handle1, st1) := on event listener st in
  let '(handle2, st2) := on event listener st1 in
  ∀ handle, handle = handle1 ∨ handle = handle2 →
  ∃ st3,
    call code (S fuel) handle VUndefined st2 = Some st3
    ∧ (ident listener ∉ ident <$> members event st3)
    ∧ (Forall (passive code value) (members event st3) →
       ∃ st4,
         (∀ fuel', length (members event st3) < fuel' →
            emit code fuel' event value st3 = Some st4)
         ∧ (∀ n, listener = FUser n → invocations n (since st3 st4) = [])).
Proof.
  intros Hwf.
  pose proof (on_handle event listener st) as [a1 Ha1].
  pose proof (wf_on event listener st Hwf) as Hwf1.
  destruct (on event listener st) as [handle1 st1]. simpl in Ha1, Hwf1.
  pose proof (on_handle event listener st1) as [a2 Ha2].
  pose proof (wf_on event listener st1 Hwf1) as Hwf2.
  destruct (on event listener st1) as [handle2 st2]. simpl in Ha2, Hwf2.
  intros handle Hh.
  assert (∃ a, handle = FUnsubscribe a event listener) as [a ->]
    by (destruct Hh as [->| ->]; eauto).
  exists (unsubscribe event listener st2). split; [done|].
  assert (ident listener ∉ ident <$> members event (unsubscribe event listener st2))
    as Habs.
  { unfold members. rewrite entries_unsubscribe by done.
    apply live_delete_nodup. by apply entries_nodup. }
  split; [done|]. intros Hp. eexists. split.
  - intros fuel' Hfuel. by apply emit_passive.
  - intros n ->. rewrite (since_with_calls _ (log _ value)) by done.
    apply invocations_log_absent. intros Hin. apply Habs.
    apply list_elem_of_fmap. by exists (FUser n).
Qed.

End Duplicates.

(** C6 at work: function 3 is registered three times next to function 5. *)
Lemma duplicate_registration_one_call_witness :
  let st := (on "e" (FUser 5) new).2 in
  let st1 := on_times 3 "e" (FUser 3) st in
  ∃ st2,
    (∀ fuel, length (members "e" st) + 1 < fuel →
       emit Examples.quiet fuel "e" (VNum 9) st1 = Some st2)
    ∧ invocations 3 (since st1 st2) = [VNum 9].
Proof.
  apply (duplicate_registration_one_call Examples.quiet 3 "e" 3 (VNum 9)).
  - apply wf_on, wf_new.
  - vm_compute. repeat constructor. by exists 5.
  - reflexivity.
  - lia.
Defined.

(** C10 at work on the fresh emitter. *)
Lemma duplicate_registration_one_unsubscribe_witness :
  let '(handle1, st1) := on "e" (FUser 3) new in
  let '(handle2, st2) := on "e" (FUser 3) st1 in
  ∀ handle, handle = handle1 ∨ handle = handle2 →
  ∃ st3,
    call Examples.quiet 1 handle VUndefined st2 = Some st3
    ∧ (ident (FUser 3) ∉ ident <$> members "e" st3)
    ∧ (Forall (passive Examples.quiet (VNum 9)) (members "e" st3) →
       ∃ st4,
         (∀ fuel', length (members "e" st3) < fuel' →
            emit Examples.quiet fuel' "e" (VNum 9) st3 = Some st4)
         ∧ (∀ n, FUser 3 = FUser n → invocations n (since st3 st4) = [])).
Proof.
  apply (duplicate_registration_one_unsubscribe Examples.quiet 0 "e" (FUser 3)
           (VNum 9) new).
  apply wf_new.
Defined.

(** ** Registering during an emission *)

Section Snapshot.
Import JsSet JsSetFacts.

Variable code : nat → Value → list Action.

Lemma on_listeners_mapped event listener st r :
  listeners st !! event = Some r →
  listeners (on event listener st).2 = listeners st.
Proof. unfold on. intros E. rewrite E. simpl. by rewrite E. Qed.

Lemma log_user n v : log [FUser n] v = [(n, v)].
Proof. done. Qed.

(** C1, as the code has it.  [forEach] walks the live entries of the set,
    so a function that a listener registers for the same event while the
    event is being emitted, and that was not a member before, is appended
    and is called in that same emission, after the members that were there
    when the emission began. *)
Theorem emit_calls_listener_added_during_emission event value n m pre post st :
  wf st →
  entries event st = pre ++ Some (FUser n) :: post →
  Forall (passive code value) (live pre) →
  Forall (passive code value) (live post) →
  code n value = [AOn event m] →
  code m value = [] →
  FUser m ∉ members event st →
  ∃ st',
    (∀ fuel, length (live pre) + length (live post) + 2 ≤ fuel →
       emit code fuel event value st = Some st')
    ∧ since st st'
      = log (live pre) value ++ [(n, value)] ++ log (live post) value
        ++ [(m, value)].
Proof.
  intros Hwf Hes Hpre Hpost Hn Hm Hnew.
  destruct (listeners st !! event) as [r|] eqn:E;
    [|unfold entries in Hes; rewrite E in Hes; by destruct pre].
  rewrite (entries_data _ _ _ E) in Hes.
  set (st_a := with_calls (calls st ++ log (live pre) value) st).
  set (st_b := (on event (FUser m) (record n value st_a)).2).
  set (st_c := with_calls
                 (calls st_b ++ log (live (post ++ [Some (FUser m)])) value) st_b).
  assert (wf (record n value st_a)) as Hwf_a
    by by apply wf_record, wf_with_calls.
  assert (listeners st_b !! event = Some r) as E_b
    by (unfold st_b; by rewrite (on_listeners_mapped _ _ _ r)).
  assert (set_data r st_b = (pre ++ [Some (FUser n)]) ++ (post ++ [Some (FUser m)]) ++ [])
    as Hes_b.
  { rewrite <- (entries_data _ _ _ E_b). unfold st_b.
    rewrite entries_on by done.
    rewrite (entries_frame event st (record n value st_a)) by done.
    rewrite (entries_data _ _ _ E), Hes.
    unfold add. assert (has (FUser m) (pre ++ Some (FUser n) :: post) = false) as ->.
    { apply has_false. intros Hin. apply Hnew. unfold members.
      rewrite (entries_data _ _ _ E), Hes.
      apply list_elem_of_fmap in Hin as (fn & Hid & Hin).
      destruct fn; simpl in Hid; try done. by injection Hid as ->. }
    by rewrite app_nil_r, <- !app_assoc. }
  exists st_c. split.
  - intros fuel Hfuel. destruct fuel as [|fuel]; [lia|].
    unfold emit, emit_with. rewrite E.
    rewrite (forEach_passive_steps code fuel _ r value pre [] (Some (FUser n) :: post) st);
      [|done|done|lia].
    fold st_a. simpl length at 2.
    destruct (S fuel - length (live pre)) as [|k] eqn:Ek; [lia|].
    rewrite (forEach_entry _ _ _ _ st_a pre (FUser n) post) by done.
    destruct fuel as [|fuel]; [lia|].
    rewrite call_user, Hn. cbn [run perform mbind option_bind].
    fold st_b.
    replace (S (length pre)) with (length (pre ++ [Some (FUser n)]))
      by (rewrite length_app; simpl; lia).
    rewrite (forEach_passive_steps code (S fuel) _ r value
               (post ++ [Some (FUser m)]) (pre ++ [Some (FUser n)]) [] st_b);
      [|done| |rewrite live_app, length_app; simpl; lia].
    + fold st_c. apply forEach_done.
      assert (set_data r st_c = set_data r st_b) as -> by done.
      rewrite Hes_b, app_nil_r, <- length_app. by rewrite drop_all.
    + rewrite live_app. apply Forall_app. split; [done|].
      apply Forall_singleton. by exists m.
  - apply since_with_calls. unfold st_c, st_b. cbn [calls with_calls].
    rewrite calls_on. unfold st_a, record. cbn [calls with_calls].
    rewrite live_app, log_app. cbn [live]. rewrite log_user.
    by rewrite <- !app_assoc.
Qed.

End Snapshot.

(** C1 as stated fails: function 1 is not a member when the emission
    begins, function 0 registers it while it is called, and function 1 is
    called in that same emission. *)
Lemma listener_added_during_emission_is_called :
  let st := (on "e" (FUser 0) new).2 in
  members "e" st = [FUser 0]
  ∧ since st <$> emit Examples.registering 3 "e" (VNum 7) st
    = Some [(0, VNum 7); (1, VNum 7)].
Proof. vm_compute. split; reflexivity. Qed.

(** C1 at work on the state of the counterexample. *)
Lemma emit_calls_listener_added_during_emission_witness :
  let st := (on "e" (FUser 0) new).2 in
  ∃ st',
    (∀ fuel, length (JsSet.live []) + length (JsSet.live []) + 2 ≤ fuel →
       emit Examples.registering fuel "e" (VNum 7) st = Some st')
    ∧ since st st'
      = log (JsSet.live []) (VNum 7) ++ [(0, VNum 7)]
        ++ log (JsSet.live []) (VNum 7) ++ [(1, VNum 7)].
Proof.
  apply (emit_calls_listener_added_during_emission Examples.registering
           "e" (VNum 7) 0 1 [] []).
  - apply wf_on, wf_new.
  - reflexivity.
  - constructor.
  - constructor.
  - reflexivity.
  - reflexivity.
  - vm_compute. by intros [=]%list_elem_of_singleton.
Defined.

(** ** [once] and the adapter it registers *)

Section Once.
Import JsSet JsSetFacts.

Variable code : nat → Value → list Action.

Lemma once_unfold event listener st :
  once event listener st
  = let r := on event (FOnce (S (next st)) listener (next st))
               (alloc (alloc st).2).2 in
    (r.1, bind (next st) r.1 r.2).
Proof.
  unfold once. cbv beta iota zeta delta [alloc snd fst].
  by destruct (on _ _ _).
Qed.

Lemma on_next event listener st : next st < next (on event listener st).2.
Proof.
  unfold on. destruct (listeners st !! event) eqn:E; simpl.
  - rewrite E. simpl. lia.
  - rewrite lookup_insert_eq. simpl. lia.
Qed.

Lemma on_bindings event listener st : bindings (on event listener st).2 = bindings st.
Proof.
  unfold on. destruct (listeners st !! event) eqn:E; simpl.
  - by rewrite E.
  - by rewrite lookup_insert_eq.
Qed.

Lemma on_timers event listener st : timers (on event listener st).2 = timers st.
Proof.
  unfold on. destruct (listeners st !! event) eqn:E; simpl.
  - by rewrite E.
  - by rewrite lookup_insert_eq.
Qed.

(** A set whose members are all functions of the caller holds no arrow of
    the library. *)
Lemma has_arrow_users fn es :
  (∀ n, fn ≠ FUser n) → Forall (λ x, ∃ n, x = FUser n) (live es) →
  has fn es = false.
Proof.
  intros Hfn Hes. apply has_false. intros Hin.
  apply list_elem_of_fmap in Hin as (x & Hid & Hx).
  rewrite Forall_forall in Hes. destruct (Hes x Hx) as [n ->].
  destruct fn; simpl in Hid; try done. by destruct (Hfn n0).
Qed.

Lemma passive_users v fns :
  Forall (passive code v) fns → Forall (λ x, ∃ n, x = FUser n) fns.
Proof.
  intros H. eapply Forall_impl; [exact H|]. intros x (n & -> & _). by exists n.
Qed.

(** What [once] leaves behind when its adapter is new to the set. *)
Lemma once_facts event listener st :
  wf st →
  let adapter := FOnce (S (next st)) listener (next st) in
  has adapter (entries event st) = false →
  ∃ a,
    let handle := FUnsubscribe a event adapter in
    let st1 := (once event listener st).2 in
    (once event listener st).1 = handle
    ∧ wf st1
    ∧ entries event st1 = entries event st ++ [Some adapter]
    ∧ (∀ e, e ≠ event → entries e st1 = entries e st)
    ∧ bindings st1 = <[next st := handle]> (bindings st)
    ∧ promises st1 = promises st
    ∧ timers st1 = timers st
    ∧ calls st1 = calls st
    ∧ next st + 2 < next st1.
Proof.
  intros Hwf adapter Hnew. rewrite once_unfold. cbv zeta.
  set (st2 := (alloc (alloc st).2).2).
  assert (wf st2) as Hwf2 by (apply (wf_frame st); simpl; auto).
  destruct (on_handle event adapter st2) as [a Ha]. exists a.
  fold adapter. cbn [fst snd]. rewrite Ha.
  assert (∀ e, entries e st2 = entries e st) as Hent
    by (intros e; by apply entries_frame).
  split; [done|]. split; [by apply wf_bind, wf_on|].
  split.
  { rewrite (entries_frame event (on event adapter st2).2) by done.
    rewrite entries_on, Hent by done. unfold add. by rewrite Hnew. }
  split.
  { intros e Hne. rewrite (entries_frame e (on event adapter st2).2) by done.
    by rewrite entries_on_other, Hent. }
  unfold bind. cbn [bindings promises timers calls with_bindings].
  split; [by rewrite on_bindings|].
  split; [by rewrite on_promises|].
  split; [by rewrite on_timers|].
  split; [by rewrite calls_on|].
  pose proof (on_next event adapter st2). simpl in *. lia.
Qed.

(** An emission over passive members followed by one more entry, after
    which nothing is left to visit. *)
Lemma emit_last_entry fuel event value st es fn st' :
  entries event st = es ++ [Some fn] →
  Forall (passive code value) (live es) →
  length (live es) < S fuel →
  call code (S fuel) fn value
       (with_calls (calls st ++ log (live es) value) st) = Some st' →
  listeners st' = listeners st →
  live (drop (S (length es)) (entries event st')) = [] →
  emit code (S fuel) event value st = Some st'.
Proof.
  intros Hes Hp Hlen Hcall Hl Hend.
  destruct (listeners st !! event) as [r|] eqn:E;
    [|unfold entries in Hes; rewrite E in Hes; by destruct es].
  rewrite (entries_data _ _ _ E) in Hes.
  rewrite (entries_data event st' r) in Hend by by rewrite Hl.
  unfold emit, emit_with. rewrite E.
  rewrite (forEach_passive_steps code fuel _ r value es [] [Some fn] st);
    [|done|done|lia].
  destruct (S fuel - length (live es)) as [|k] eqn:Ek; [lia|].
  simpl length at 1. cbn [Nat.add].
  rewrite (forEach_entry _ _ _ _ _ es fn []) by done.
  rewrite Hcall. cbn [mbind option_bind]. by apply forEach_done.
Qed.

End Once.

(** ** [take] *)

Section Take.
Import JsSet JsSetFacts.

Variable code : nat → Value → list Action.

Lemma unsubscribe_listeners event listener st :
  listeners (unsubscribe event listener st) = listeners st.
Proof. unfold unsubscribe. by destruct (listeners st !! event). Qed.

Lemma unsubscribe_bindings event listener st :
  bindings (unsubscribe event listener st) = bindings st.
Proof. unfold unsubscribe. by destruct (listeners st !! event). Qed.

Lemma unsubscribe_timers event listener st :
  timers (unsubscribe event listener st) = timers st.
Proof. unfold unsubscribe. by destruct (listeners st !! event). Qed.

Lemma unsubscribe_calls event listener st :
  calls (unsubscribe event listener st) = calls st.
Proof. unfold unsubscribe. by destruct (listeners st !! event). Qed.

Lemma settle_pending p s st :
  promises st !! p = Some Pending →
  settle p s st = with_promises (<[p := s]> (promises st)) st.
Proof. unfold settle. by intros ->. Qed.

(** The emission that reaches an adapter of [once] standing last in the
    set, behind passive members: the wrapped listener runs, then the
    adapter takes itself out of the set. *)
Lemma emit_once fuel event value st es a listener b a' st_l :
  let adapter := FOnce a listener b in
  entries event st = es ++ [Some adapter] →
  Forall (passive code value) (live es) →
  length (live es) < S fuel →
  call code fuel listener value
       (with_calls (calls st ++ log (live es) value) st) = Some st_l →
  wf st_l →
  listeners st_l = listeners st →
  entries event st_l = entries event st →
  bindings st_l !! b = Some (FUnsubscribe a' event adapter) →
  emit code (S fuel) event value st = Some (unsubscribe event adapter st_l)
  ∧ entries event (unsubscribe event adapter st_l) = es ++ [None].
Proof.
  intros adapter Hes Hp Hlen Hcall Hwf Hl Hent Hb.
  assert (entries event (unsubscribe event adapter st_l) = es ++ [None]) as Hgone.
  { rewrite entries_unsubscribe, Hent, Hes by done. apply delete_last.
    apply has_arrow_users; [done|]. by eapply passive_users. }
  split; [|done].
  apply (emit_last_entry code fuel event value st es adapter); try done.
  - unfold adapter. rewrite call_once, Hcall. cbn [mbind option_bind].
    rewrite Hb. cbn [mbind option_bind].
    destruct fuel as [|fuel]; [done|]. done.
  - by rewrite unsubscribe_listeners.
  - rewrite Hgone.
    replace (S (length es)) with (length (es ++ [None]))
      by (rewrite length_app; simpl; lia).
    by rewrite drop_all.
Qed.

Lemma take_unfold event st :
  take event st
  = (next st, (once event (FResolve (S (next st)) (next st)) (new_Promise st).2).2).
Proof.
  unfold take, createDeferred, new_Promise.
  cbv beta iota zeta delta [alloc snd fst d_resolve d_promise].
  by destruct (once _ _ _).
Qed.

Lemma live_app_hole es : live (es ++ [None]) = live es.
Proof. by rewrite live_app, app_nil_r. Qed.

End Take.

(** ** [takeTimeout] *)

Section TakeTimeout.
Import JsSetFacts.

Variable code : nat → Value → list Action.

Lemma takeTimeout_unfold event timeout st :
  let n := next st in
  let st_o :=
    mkState (listeners st) (sets st) (bindings st)
            (<[n := Pending]> (promises st))
            (<[5 + n := FTimeoutExpired (4 + n) (3 + n) (FReject (2 + n) n)]>
               (timers st))
            (calls st) (7 + n) in
  let r := once event (FTimeoutReceived (6 + n) (5 + n) (FResolve (1 + n) n)) st_o in
  takeTimeout event timeout st = (n, bind (3 + n) r.1 r.2).
Proof.
  unfold takeTimeout, createDeferred, new_Promise, setTimeout.
  cbv beta iota zeta delta [alloc snd fst d_resolve d_reject d_promise
    with_promises with_timers listeners sets bindings promises timers calls
    next Nat.add].
  by destruct (once _ _ _).
Qed.

Lemma fireTimer_settled p s fuel id st st' :
  fireTimer code fuel id st = Some st' → settled p s st → settled p s st'.
Proof.
  unfold fireTimer. destruct (timers st !! id) as [cb|]; [|by intros [= <-]].
  intros H Hs. by apply (call_settled code p s fuel cb VUndefined _ st' H).
Qed.

End TakeTimeout.

(** ** [takeEither] *)

Section TakeEither.
Import JsSetFacts.

Variable code : nat → Value → list Action.

Lemma takeEither_unfold success failure st :
  let n := next st in
  let st_o :=
    mkState (listeners st) (sets st) (bindings st)
            (<[n := Pending]> (promises st)) (timers st) (calls st) (6 + n) in
  let r := once success (FEitherSuccess (5 + n) (4 + n) (FResolve (1 + n) n)) st_o in
  let st0 := bind (3 + n) r.1 r.2 in
  let r' := once failure (FEitherFailure (next st0) (3 + n) (FReject (2 + n) n))
              (alloc st0).2 in
  takeEither success failure st = (n, bind (4 + n) r'.1 r'.2).
Proof.
  unfold takeEither, new_Promise.
  cbv beta iota zeta delta [alloc snd fst d_resolve d_reject d_promise
    with_promises listeners sets bindings promises timers calls next Nat.add].
  destruct (once success _ _) as [u st0].
  by destruct (once failure _ _).
Qed.

Lemma call_either fuel a b settle_fn v st u st' :
  bindings st !! b = Some u →
  call code fuel u VUndefined st = Some st' →
  call code (S fuel) (FEitherSuccess a b settle_fn) v st
  = call code fuel settle_fn v st'
  ∧ call code (S fuel) (FEitherFailure a b settle_fn) v st
    = call code fuel settle_fn v st'.
Proof. intros Hb Hu. simpl. rewrite Hb. simpl. by rewrite Hu. Qed.

End TakeEither.

(** ** [once] and emissions from inside a listener *)

(** C3 fails on the code: the adapter of [once] calls the listener before
    it unsubscribes itself, so when the listener emits the event again the
    adapter is still a member and calls the listener a second time.
    Function 0 is registered with [once] for ["e"] and emits ["e"] with 1
    when it is called with 0: one emission of ["e"] with 0 calls it twice. *)
Theorem once_listener_called_twice :
  let st := (once "e" (FUser 0) new).2 in
  invocations 0 <$> (since st <$> emit Examples.reentrant 6 "e" (VNum 0) st)
  = Some [VNum 0; VNum 1].
Proof. vm_compute. reflexivity. Qed.

(** ** Every method keeps the state well-formed *)

Section WellFormed.

Variable code : nat → Value → list Action.

Lemma wf_take event st : wf st → wf (take event st).2.
Proof.
  intros Hwf. rewrite take_unfold. cbn [snd].
  by apply wf_once, wf_new_Promise.
Qed.

Lemma wf_takeTimeout event timeout st :
  wf st → wf (takeTimeout event timeout st).2.
Proof.
  intros Hwf. rewrite takeTimeout_unfold. cbv zeta. cbn [snd].
  apply wf_bind, wf_once. apply (wf_frame st); simpl; auto; lia.
Qed.

Lemma wf_takeEither success failure st :
  wf st → wf (takeEither success failure st).2.
Proof.
  intros Hwf. rewrite takeEither_unfold. cbv zeta. cbn [snd].
  apply wf_bind, wf_once, wf_alloc, wf_bind, wf_once.
  apply (wf_frame st); simpl; auto; lia.
Qed.

Lemma wf_emitCallback event st : wf st → wf (emitCallback event st).2.
Proof. apply wf_frame; simpl; auto. Qed.

Lemma fireTimer_wf fuel id st st' :
  fireTimer code fuel id st = Some st' → wf st → wf st'.
Proof.
  apply (fireTimer_preserves code wf); auto with emitter.
Qed.

Lemma emits_wf fuel es st st' :
  emits code fuel es st = Some st' → wf st → wf st'.
Proof.
  apply (emits_preserves code wf); auto with emitter.
Qed.

(** Every reachable state is well-formed. *)
Lemma reachable_wf st : reachable code st → wf st.
Proof.
  induction 1; eauto using wf_new, wf_on, wf_once, wf_off, wf_take,
    wf_takeTimeout, wf_takeEither, wf_emitCallback, emit_wf, call_wf,
    fireTimer_wf.
Qed.

End WellFormed.

(** ** [once] without emissions from inside the listener *)

Section OncePassive.
Import JsSetFacts.

Variable code : nat → Value → list Action.

(** When neither the listener nor the other members emit, the adapter does
    what its name says: the first emission calls the listener, the
    adapter leaves the set, and the next emission does not call it. *)
Lemma once_listener_called_once event n v w st :
  wf st →
  Forall (passive code v) (members event st) →
  Forall (passive code w) (members event st) →
  code n v = [] →
  FUser n ∉ members event st →
  let st1 := (once event (FUser n) st).2 in
  ∃ st2,
    (∀ fuel, length (members event st) + 2 < fuel →
       emit code fuel event v st1 = Some st2)
    ∧ invocations n (since st1 st2) = [v]
    ∧ members event st2 = members event st
    ∧ ∃ st3,
        (∀ fuel, length (members event st) < fuel →
           emit code fuel event w st2 = Some st3)
        ∧ invocations n (since st2 st3) = [].
Proof.
  intros Hwf Hv Hw Hn Hnew.
  destruct (once_facts event (FUser n) st Hwf)
    as (a' & Hh & Hwf1 & Hent & _ & Hbind & _ & _ & Hcalls & _).
  { apply has_arrow_users; [done|]. by eapply passive_users. }
  set (adapter := FOnce (S (next st)) (FUser n) (next st)) in *.
  set (st1 := (once event (FUser n) st).2) in *. cbv zeta.
  set (st_a := with_calls (calls st1 ++ log (members event st) v) st1).
  set (st_l := with_calls (calls st_a ++ log [FUser n] v) st_a).
  set (st2 := unsubscribe event adapter st_l).
  assert (∀ fuel, length (members event st) + 2 < fuel →
            emit code fuel event v st1 = Some st2
            ∧ entries event st2 = entries event st ++ [None]) as Hemit.
  { intros fuel Hfuel. destruct fuel as [|[|fuel]]; [lia|lia|].
    apply (emit_once code (S fuel) event v st1 (entries event st)
             (S (next st)) (FUser n) (next st) a' st_l); try done.
    - unfold members in Hfuel. lia.
    - apply passive_call. by exists n.
    - by do 2 apply wf_with_calls.
    - change (bindings st_l) with (bindings st1). rewrite Hbind.
      apply lookup_insert_eq. }
  assert (members event st2 = members event st) as Hmem.
  { destruct (Hemit (length (members event st) + 3)) as [_ Hgone]; [lia|].
    unfold members. by rewrite Hgone, live_app_hole. }
  exists st2. split; [intros fuel Hfuel; by apply Hemit|]. split; [|split; [done|]].
  - rewrite (since_with_calls _ (log (members event st) v ++ log [FUser n] v)).
    + rewrite invocations_app, invocations_log_absent by done.
      rewrite log_user. unfold invocations. by rewrite filter_cons_True.
    + unfold st2. rewrite unsubscribe_calls. simpl. by rewrite <- app_assoc.
  - eexists. split.
    + intros fuel Hfuel. apply emit_passive; by rewrite Hmem.
    + rewrite (since_with_calls _ (log (members event st2) w)) by done.
      rewrite Hmem. by apply invocations_log_absent.
Qed.

End OncePassive.

(** ** More fuel never changes a result *)

Section Fuel.

Variable code : nat → Value → list Action.

Lemma forEach_mono callf callf' :
  extends callf callf' →
  ∀ steps r i v st st',
    forEach callf steps r i v st = Some st' →
    forEach callf' (S steps) r i v st = Some st'.
Proof.
  intros Hext. induction steps as [|steps IH]; intros r i v st st'.
  - simpl. destruct (JsSet.next_entry (set_data r st) i) as [[j fn]|]; done.
  - cbn [forEach].
    destruct (JsSet.next_entry (set_data r st) i) as [[j fn]|]; [|done].
    destruct (callf fn v st) as [st1|] eqn:E; [|done].
    rewrite (Hext _ _ _ _ E). cbn [mbind option_bind]. apply IH.
Qed.

Lemma emit_with_mono callf callf' :
  extends callf callf' →
  ∀ steps e v st st',
    emit_with callf steps e v st = Some st' →
    emit_with callf' (S steps) e v st = Some st'.
Proof.
  intros Hext steps e v st st'. unfold emit_with.
  destruct (listeners st !! e); [by apply forEach_mono|done].
Qed.

Lemma run_mono callf callf' :
  extends callf callf' →
  ∀ steps body st st',
    run callf steps body st = Some st' →
    run callf' (S steps) body st = Some st'.
Proof.
  intros Hext steps. induction body as [|act body IH]; intros st st'; [done|].
  cbn [run].
  destruct (perform callf steps act st) as [st1|] eqn:E; [|done].
  assert (perform callf' (S steps) act st = Some st1) as ->.
  { destruct act; try done. by apply (emit_with_mono callf). }
  cbn [mbind option_bind]. apply IH.
Qed.

Lemma call_mono fuel : extends (call code fuel) (call code (S fuel)).
Proof.
  induction fuel as [|fuel IH]; intros fn v st st'; [done|].
  destruct fn as [n|a e l|a l b|a p|a p|a b rj|a id rs|a b rs|a b rj|a e];
    try done.
  - rewrite !call_user. by apply run_mono.
  - rewrite !call_once.
    destruct (call code fuel l v st) as [st1|] eqn:E1; [|done].
    rewrite (IH _ _ _ _ E1). cbn [mbind option_bind].
    destruct (bindings st1 !! b) as [u|]; [|done]. cbn [mbind option_bind].
    apply IH.
  - rewrite !call_expired.
    destruct (bindings st !! b) as [u|]; [|done]. cbn [mbind option_bind].
    destruct (call code fuel u VUndefined st) as [st1|] eqn:E1; [|done].
    rewrite (IH _ _ _ _ E1). cbn [mbind option_bind]. apply IH.
  - rewrite !call_received. apply IH.
  - rewrite !call_success.
    destruct (bindings st !! b) as [u|]; [|done]. cbn [mbind option_bind].
    destruct (call code fuel u VUndefined st) as [st1|] eqn:E1; [|done].
    rewrite (IH _ _ _ _ E1). cbn [mbind option_bind]. apply IH.
  - rewrite !call_failure.
    destruct (bindings st !! b) as [u|]; [|done]. cbn [mbind option_bind].
    destruct (call code fuel u VUndefined st) as [st1|] eqn:E1; [|done].
    rewrite (IH _ _ _ _ E1). cbn [mbind option_bind]. apply IH.
  - rewrite !call_emitCallback. by apply emit_with_mono.
Qed.

Lemma call_fuel fuel fuel' fn v st st' :
  fuel ≤ fuel' →
  call code fuel fn v st = Some st' → call code fuel' fn v st = Some st'.
Proof.
  induction 1 as [|fuel' _ IH]; [done|]. intros H. by apply call_mono, IH.
Qed.

Lemma emit_fuel fuel fuel' e v st st' :
  fuel ≤ fuel' →
  emit code fuel e v st = Some st' → emit code fuel' e v st = Some st'.
Proof.
  induction 1 as [|fuel' _ IH]; [done|]. intros H.
  apply (emit_with_mono (call code fuel')); [apply call_mono|by apply IH].
Qed.

End Fuel.

(** ** An event whose listeners were all unsubscribed *)

Section Emptied.
Import JsSetFacts.

Variable code : nat → Value → list Action.

Lemma members_unsubscribe_last event listener st :
  wf st → members event st = [listener] →
  members event (unsubscribe event listener st) = [].
Proof.
  intros Hwf Hm. unfold members in *. rewrite entries_unsubscribe by done.
  pose proof (live_delete_subseteq listener (entries event st)) as Hsub.
  pose proof (live_delete_nodup listener (entries event st)
                (entries_nodup event st Hwf)) as Habs.
  destruct (JsSet.live (JsSet.delete listener (entries event st)))
    as [|x l]; [done|].
  assert (x = listener) as ->.
  { rewrite Hm in Hsub. apply list_elem_of_singleton, Hsub. by left. }
  destruct Habs. simpl. by left.
Qed.

(** The three ways an event comes to have no listener. *)
Lemma emptied_event_has_no_members event listener st :
  wf st →
  members event new = []
  ∧ members event (off event st) = []
  ∧ (members event st = [listener] →
     members event (unsubscribe event listener st) = []).
Proof.
  intros Hwf. split; [done|]. split; [apply members_off|].
  by apply members_unsubscribe_last.
Qed.

End Emptied.

(** * Further properties of the code *)

(** ** The order and the number of calls *)

Section Order.
Import JsSetFacts.

Variable code : nat → Value → list Action.

(** X1.  [emit] calls the members of the event once each, in the order in
    which they were registered, with the payload; it calls no function
    that is not a member of the event, and it leaves the map and the sets
    as they were. *)
Theorem emit_calls_members_in_order event value st :
  wf st →
  Forall (passive code value) (members event st) →
  ∃ st',
    (∀ fuel, length (members event st) < fuel →
       emit code fuel event value st = Some st')
    ∧ since st st' = log (members event st) value
    ∧ listeners st' = listeners st
    ∧ sets st' = sets st
    ∧ (∀ n, FUser n ∈ members event st → invocations n (since st st') = [value])
    ∧ (∀ n, FUser n ∉ members event st → invocations n (since st st') = []).
Proof.
  intros Hwf Hp.
  exists (with_calls (calls st ++ log (members event st) value) st).
  assert (since st (with_calls (calls st ++ log (members event st) value) st)
          = log (members event st) value) as Hsince
    by by apply since_with_calls.
  split; [intros fuel Hfuel; by apply emit_passive|].
  rewrite Hsince. repeat split; try done.
  - intros n Hin. apply invocations_log_once; [|done]. by apply entries_nodup.
  - intros n Hin. by apply invocations_log_absent.
Qed.

Lemma emits_passive fuel event values : ∀ st,
  Forall (λ v, Forall (passive code v) (members event st)) values →
  length (members event st) < fuel →
  emits code fuel (emissions event values) st
  = Some (with_calls
            (calls st ++ concat ((λ v, log (members event st) v) <$> values)) st).
Proof.
  induction values as [|v values IH]; intros st Hp Hfuel.
  - simpl. rewrite app_nil_r. by destruct st.
  - apply Forall_cons in Hp as [Hv Hp]. cbn [emissions fmap list_fmap emits].
    rewrite emit_passive by done. cbn [mbind option_bind].
    fold (emissions event values).
    rewrite IH; [|done|done]. cbn [fmap list_fmap concat].
    unfold members, entries. cbn [listeners sets calls with_calls set_data].
    by rewrite app_assoc.
Qed.

Lemma invocations_concat_log n fns values :
  NoDup (ident <$> fns) → FUser n ∈ fns →
  invocations n (concat ((λ v, log fns v) <$> values)) = values.
Proof.
  intros Hnd Hin. induction values as [|v values IH]; [done|].
  cbn [fmap list_fmap concat].
  by rewrite invocations_app, invocations_log_once, IH.
Qed.

(** X2.  After one registration, [k] emissions of the event call the
    listener [k] times, with the payloads in the order of the emissions. *)
Theorem emissions_call_listener_in_order event n values st :
  wf st →
  Forall (λ v, Forall (passive code v) (members event st)) values →
  FUser n ∈ members event st →
  ∃ st',
    (∀ fuel, length (members event st) < fuel →
       emits code fuel (emissions event values) st = Some st')
    ∧ invocations n (since st st') = values.
Proof.
  intros Hwf Hp Hin. eexists. split.
  - intros fuel Hfuel. by apply emits_passive.
  - rewrite (since_with_calls _ (concat ((λ v, log (members event st) v) <$> values)))
      by done.
    apply invocations_concat_log; [|done]. by apply entries_nodup.
Qed.

End Order.

(** X1 at work: functions 5 and 3 listen to ["e"], function 4 to ["f"]. *)
Lemma emit_calls_members_in_order_witness :
  let st := (on "f" (FUser 4) (on "e" (FUser 3) (on "e" (FUser 5) new).2).2).2 in
  ∃ st',
    (∀ fuel, length (members "e" st) < fuel →
       emit Examples.quiet fuel "e" (VNum 100) st = Some st')
    ∧ since st st' = log (members "e" st) (VNum 100)
    ∧ listeners st' = listeners st
    ∧ sets st' = sets st
    ∧ (∀ n, FUser n ∈ members "e" st →
         invocations n (since st st') = [VNum 100])
    ∧ (∀ n, FUser n ∉ members "e" st → invocations n (since st st') = []).
Proof.
  apply (emit_calls_members_in_order Examples.quiet "e" (VNum 100)).
  - do 3 apply wf_on. apply wf_new.
  - vm_compute. repeat constructor; by eexists.
Defined.

(** X2 at work: three emissions reach function 5. *)
Lemma emissions_call_listener_in_order_witness :
  let st := (on "e" (FUser 5) new).2 in
  ∃ st',
    (∀ fuel, length (members "e" st) < fuel →
       emits Examples.quiet fuel
         (emissions "e" [VNum 100; VNum 200; VNum 300]) st = Some st')
    ∧ invocations 5 (since st st') = [VNum 100; VNum 200; VNum 300].
Proof.
  apply (emissions_call_listener_in_order Examples.quiet "e" 5).
  - apply wf_on, wf_new.
  - vm_compute. repeat constructor; by eexists.
  - vm_compute. by left.
Defined.

(** ** Registering, unsubscribing and [off] *)

Section RoundTrips.
Import JsSetFacts.

Variable code : nat → Value → list Action.

Lemma members_frame event st st' :
  listeners st' = listeners st → sets st' = sets st →
  members event st' = members event st.
Proof. intros Hl Hs. unfold members. by rewrite (entries_frame event st st'). Qed.

Lemma members_on_new event listener st :
  wf st → ident listener ∉ ident <$> members event st →
  members event (on event listener st).2 = members event st ++ [listener].
Proof.
  intros Hwf Hnew. unfold members. rewrite entries_on, live_add by done.
  apply has_false in Hnew. by rewrite Hnew.
Qed.

Lemma members_on_other event listener e st :
  wf st → e ≠ event → members e (on event listener st).2 = members e st.
Proof. intros Hwf Hne. unfold members. by rewrite entries_on_other. Qed.

Lemma members_unsubscribe_other event listener e st :
  wf st → e ≠ event → members e (unsubscribe event listener st) = members e st.
Proof. intros Hwf Hne. unfold members. by rewrite entries_unsubscribe_other. Qed.

(** X3.  Registering a function that is not yet a listener of the event
    appends it to the members of the event, and calling the handle that
    [on] returned takes it out again: the members of the event are as
    before, and no other event was touched on the way. *)
Theorem on_then_handle_restores_members fuel event listener value st :
  wf st →
  ident listener ∉ ident <$> members event st →
  let '(handle, st1) := on event listener st in
  members event st1 = members event st ++ [listener]
  ∧ ∃ st2,
      call code (S fuel) handle value st1 = Some st2
      ∧ members event st2 = members event st
      ∧ (∀ e, e ≠ event →
           members e st1 = members e st ∧ members e st2 = members e st).
Proof.
  intros Hwf Hnew.
  pose proof (on_handle event listener st) as [a Ha].
  pose proof (wf_on event listener st Hwf) as Hwf1.
  pose proof (members_on_new event listener st Hwf Hnew) as Hm1.
  pose proof (entries_on event listener st Hwf) as He1.
  pose proof (λ e, members_on_other event listener e st Hwf) as Ho1.
  destruct (on event listener st) as [handle st1]. simpl in *. subst handle.
  split; [done|]. exists (unsubscribe event listener st1).
  split; [done|]. split.
  - unfold members. rewrite entries_unsubscribe, He1 by done.
    apply has_false in Hnew. unfold JsSet.add. rewrite Hnew.
    by rewrite delete_last, live_app_hole.
  - intros e Hne. split; [by apply Ho1|].
    rewrite members_unsubscribe_other by done. by apply Ho1.
Qed.

(** X4.  A handle can be called any number of times: the second call
    changes nothing. *)
Theorem handle_twice_is_once fuel a event listener value st :
  wf st →
  ∃ st1,
    call code (S fuel) (FUnsubscribe a event listener) value st = Some st1
    ∧ call code (S fuel) (FUnsubscribe a event listener) value st1 = Some st1.
Proof.
  intros Hwf. exists (unsubscribe event listener st). split; [done|].
  cbn [call]. f_equal. apply unsubscribe_absent; [by apply wf_unsubscribe|].
  unfold members. rewrite entries_unsubscribe by done.
  apply live_delete_nodup. by apply entries_nodup.
Qed.

Lemma members_off_other event e st :
  e ≠ event → members e (off event st) = members e st.
Proof.
  intros Hne. unfold members, entries, off. simpl.
  by rewrite lookup_delete_ne.
Qed.

(** X5.  [off] removes every listener of its event and no listener of
    another event.  A registration that follows finds the event as a fresh
    emitter has it, and so does a registration for an event whose
    listeners were all unsubscribed one by one: in both cases the new
    listener is the only member. *)
Theorem off_then_on_starts_afresh event listener st :
  wf st →
  members event (off event st) = []
  ∧ (∀ e, e ≠ event → members e (off event st) = members e st)
  ∧ members event (on event listener (off event st)).2 = [listener]
  ∧ (members event st = [] →
     members event (on event listener st).2 = [listener]).
Proof.
  intros Hwf. split; [apply members_off|]. split; [intros e; apply members_off_other|].
  split.
  - rewrite members_on_new; [by rewrite members_off|by apply wf_off|].
    rewrite members_off. by intros ?%elem_of_nil.
  - intros Hm. rewrite members_on_new; [by rewrite Hm|done|].
    rewrite Hm. by intros ?%elem_of_nil.
Qed.

(** X6.  The handle that [once] returns, called before the event is
    emitted, takes the adapter out of the set: the members of the event
    are as before [once], and an emission does not call the listener. *)
Theorem once_handle_before_emission fuel event n value st :
  wf st →
  Forall (passive code value) (members event st) →
  FUser n ∉ members event st →
  let '(handle, st1) := once event (FUser n) st in
  length (members event st1) = S (length (members event st))
  ∧ ∃ st2,
      call code (S fuel) handle VUndefined st1 = Some st2
      ∧ members event st2 = members event st
      ∧ ∃ st3,
          (∀ fuel', length (members event st) < fuel' →
             emit code fuel' event value st2 = Some st3)
          ∧ invocations n (since st2 st3) = [].
Proof.
  intros Hwf Hp Hnew.
  destruct (once_facts event (FUser n) st Hwf)
    as (a' & Hh & Hwf1 & Hent & _).
  { apply has_arrow_users; [done|]. by eapply passive_users. }
  destruct (once event (FUser n) st) as [handle st1]. simpl in *. subst handle.
  set (adapter := FOnce (S (next st)) (FUser n) (next st)) in *.
  assert (members event (unsubscribe event adapter st1) = members event st) as Hm.
  { unfold members. rewrite entries_unsubscribe, Hent by done.
    rewrite delete_last; [by rewrite live_app_hole|].
    apply has_arrow_users; [done|]. by eapply passive_users. }
  split.
  { unfold members. rewrite Hent, live_app, length_app. simpl. lia. }
  exists (unsubscribe event adapter st1). split; [done|]. split; [done|].
  eexists. split.
  - intros fuel' Hfuel. apply emit_passive; by rewrite Hm.
  - rewrite (since_with_calls _ (log (members event (unsubscribe event adapter st1)) value))
      by done.
    rewrite Hm. by apply invocations_log_absent.
Qed.

End RoundTrips.

(** X3 at work: function 3 joins function 5 and leaves again. *)
Lemma on_then_handle_restores_members_witness :
  let st := (on "e" (FUser 5) new).2 in
  let '(handle, st1) := on "e" (FUser 3) st in
  members "e" st1 = members "e" st ++ [FUser 3]
  ∧ ∃ st2,
      call Examples.quiet 1 handle VUndefined st1 = Some st2
      ∧ members "e" st2 = members "e" st
      ∧ (∀ e, e ≠ "e" →
           members e st1 = members e st ∧ members e st2 = members e st).
Proof.
  apply (on_then_handle_restores_members Examples.quiet 0 "e" (FUser 3)
           VUndefined).
  - apply wf_on, wf_new.
  - vm_compute. by intros [=]%list_elem_of_singleton.
Defined.

(** X4 at work on the handle of function 5. *)
Lemma handle_twice_is_once_witness :
  let st := (on "e" (FUser 5) new).2 in
  ∃ st1,
    call Examples.quiet 1 (FUnsubscribe 1 "e" (FUser 5)) VUndefined st = Some st1
    ∧ call Examples.quiet 1 (FUnsubscribe 1 "e" (FUser 5)) VUndefined st1
      = Some st1.
Proof.
  apply (handle_twice_is_once Examples.quiet 0 1 "e" (FUser 5) VUndefined).
  apply wf_on, wf_new.
Defined.

(** X5 at work: function 5 is removed by [off], function 3 starts afresh. *)
Lemma off_then_on_starts_afresh_witness :
  let st := (on "e" (FUser 5) new).2 in
  members "e" (off "e" st) = []
  ∧ (∀ e, e ≠ "e" → members e (off "e" st) = members e st)
  ∧ members "e" (on "e" (FUser 3) (off "e" st)).2 = [FUser 3]
  ∧ (members "e" st = [] → members "e" (on "e" (FUser 3) st).2 = [FUser 3]).
Proof.
  apply (off_then_on_starts_afresh "e" (FUser 3)). apply wf_on, wf_new.
Defined.

(** X6 at work next to function 5. *)
Lemma once_handle_before_emission_witness :
  let st := (on "e" (FUser 5) new).2 in
  let '(handle, st1) := once "e" (FUser 3) st in
  length (members "e" st1) = S (length (members "e" st))
  ∧ ∃ st2,
      call Examples.quiet 1 handle VUndefined st1 = Some st2
      ∧ members "e" st2 = members "e" st
      ∧ ∃ st3,
          (∀ fuel', length (members "e" st) < fuel' →
             emit Examples.quiet fuel' "e" (VNum 100) st2 = Some st3)
          ∧ invocations 3 (since st2 st3) = [].
Proof.
  apply (once_handle_before_emission Examples.quiet 0 "e" 3 (VNum 100)).
  - apply wf_on, wf_new.
  - vm_compute. repeat constructor; by eexists.
  - vm_compute. by intros [=]%list_elem_of_singleton.
Defined.

(** ** Listeners that change the set while the event is emitted *)

Section DuringEmission.
Import JsSetFacts.

Variable code : nat → Value → list Action.

(** An emission over passive members around one function of the caller
    whose body has run to [st_b] and has left [seg] behind its own entry. *)
Lemma emit_around fuel event value st r pre n post x seg st_b :
  listeners st !! event = Some r →
  set_data r st = pre ++ Some (FUser n) :: post →
  Forall (passive code value) (JsSet.live pre) →
  run (call code fuel) fuel (code n value)
      (record n value (with_calls (calls st ++ log (JsSet.live pre) value) st))
  = Some st_b →
  set_data r st_b = (pre ++ [x]) ++ seg ++ [] →
  Forall (passive code value) (JsSet.live seg) →
  length (JsSet.live pre) + length (JsSet.live seg) + 1 ≤ fuel →
  emit code (S fuel) event value st
  = Some (with_calls (calls st_b ++ log (JsSet.live seg) value) st_b).
Proof.
  intros E Hes Hpre Hrun Hes_b Hseg Hfuel.
  unfold emit, emit_with. rewrite E.
  rewrite (forEach_passive_steps code fuel _ r value pre [] (Some (FUser n) :: post) st);
    [|done|done|lia].
  simpl length at 2.
  destruct (S fuel - length (JsSet.live pre)) as [|k] eqn:Ek; [lia|].
  rewrite (forEach_entry _ _ _ _ _ pre (FUser n) post) by done.
  rewrite call_user, Hrun. cbn [mbind option_bind].
  replace (S (length pre)) with (length (pre ++ [x]))
    by (rewrite length_app; simpl; lia).
  rewrite (forEach_passive_steps code fuel _ r value seg (pre ++ [x]) [] st_b);
    [|done|done|lia].
  apply forEach_done.
  assert (set_data r (with_calls (calls st_b ++ log (JsSet.live seg) value) st_b)
          = set_data r st_b) as -> by done.
  rewrite Hes_b, app_nil_r, <- length_app. by rewrite drop_all.
Qed.

Lemma entries_mapped event st x es :
  entries event st = x :: es → ∃ r, listeners st !! event = Some r.
Proof.
  unfold entries. destruct (listeners st !! event) as [r|]; [by eexists|done].
Qed.

Lemma entries_mapped_app event st pre x es :
  entries event st = pre ++ x :: es → ∃ r, listeners st !! event = Some r.
Proof. destruct pre; apply entries_mapped. Qed.

(** X7.  [off] called by a listener while its event is emitted does not
    cut the emission short: [forEach] goes on over the set it started
    with, so the members behind the listener are still called.  The next
    emission finds no listener. *)
Theorem off_during_emission event value n pre post st :
  entries event st = pre ++ Some (FUser n) :: post →
  Forall (passive code value) (JsSet.live pre) →
  Forall (passive code value) (JsSet.live post) →
  code n value = [AOff event] →
  ∃ st',
    (∀ fuel, length (JsSet.live pre) + length (JsSet.live post) + 2 ≤ fuel →
       emit code fuel event value st = Some st')
    ∧ since st st'
      = log (JsSet.live pre) value ++ [(n, value)] ++ log (JsSet.live post) value
    ∧ members event st' = [].
Proof.
  intros Hes Hpre Hpost Hn.
  destruct (entries_mapped_app _ _ _ _ _ Hes) as [r E].
  rewrite (entries_data _ _ _ E) in Hes.
  set (st_a := with_calls (calls st ++ log (JsSet.live pre) value) st).
  set (st_b := off event (record n value st_a)).
  exists (with_calls (calls st_b ++ log (JsSet.live post) value) st_b).
  split; [|split].
  - intros fuel Hfuel. destruct fuel as [|fuel]; [lia|].
    apply (emit_around fuel event value st r pre n post (Some (FUser n)) post);
      try done.
    + by rewrite Hn.
    + change (set_data r st_b) with (set_data r st).
      by rewrite Hes, app_nil_r, <- app_assoc.
    + lia.
  - apply since_with_calls. unfold st_b, st_a, off, record.
    cbn [calls with_calls with_listeners]. by rewrite <- !app_assoc.
  - unfold members, entries, st_b, off.
    cbn [listeners with_calls with_listeners]. by rewrite lookup_delete_eq.
Qed.

Lemma nodup_has_false x xs ys :
  NoDup (ident <$> JsSet.live (xs ++ Some x :: ys)) → JsSet.has x xs = false.
Proof.
  rewrite live_app, fmap_app. cbn [JsSet.live]. rewrite fmap_cons.
  intros [_ [Hd _]]%NoDup_app. apply has_false. intros Hin.
  apply (Hd _ Hin). by left.
Qed.

Lemma unsubscribe_set_data event listener st r es :
  listeners st !! event = Some r → sets st !! r = Some es →
  set_data r (unsubscribe event listener st) = JsSet.delete listener es.
Proof.
  intros E Hes. unfold unsubscribe, Set_delete, set_data. rewrite E. simpl.
  by rewrite lookup_alter_eq, Hes.
Qed.

(** X8.  A listener that is unsubscribed by another listener while the
    event is emitted, before the loop has reached it, is not called in
    that emission; the members around it are. *)
Theorem unsubscribed_during_emission_is_skipped
    event value n m pre post1 post2 st :
  wf st →
  entries event st = pre ++ Some (FUser n) :: post1 ++ Some (FUser m) :: post2 →
  Forall (passive code value) (JsSet.live pre) →
  Forall (passive code value) (JsSet.live post1) →
  Forall (passive code value) (JsSet.live post2) →
  code n value = [AUnsubscribe event m] →
  ∃ st',
    (∀ fuel,
       length (JsSet.live pre) + length (JsSet.live post1)
       + length (JsSet.live post2) + 2 ≤ fuel →
       emit code fuel event value st = Some st')
    ∧ since st st'
      = log (JsSet.live pre) value ++ [(n, value)]
        ++ log (JsSet.live post1) value ++ log (JsSet.live post2) value
    ∧ members event st'
      = JsSet.live pre ++ [FUser n] ++ JsSet.live post1 ++ JsSet.live post2.
Proof.
  intros Hwf Hes Hpre Hpost1 Hpost2 Hn.
  destruct (entries_mapped_app _ _ _ _ _ Hes) as [r E].
  rewrite (entries_data _ _ _ E) in Hes.
  destruct (wf_set _ Hwf _ _ E) as [es Hsets].
  rewrite (set_data_Some _ _ _ Hsets) in Hes. subst es.
  pose proof (wf_nodup _ Hwf _ _ Hsets) as Hnd.
  set (st_a := with_calls (calls st ++ log (JsSet.live pre) value) st).
  set (st_b := unsubscribe event (FUser m) (record n value st_a)).
  set (seg := post1 ++ None :: post2).
  assert (JsSet.live seg = JsSet.live post1 ++ JsSet.live post2) as Hseg
    by (unfold seg; by rewrite live_app).
  assert (set_data r st_b = (pre ++ [Some (FUser n)]) ++ seg ++ []) as Hes_b.
  { unfold st_b.
    rewrite (unsubscribe_set_data event (FUser m) (record n value st_a) r _ E Hsets).
    replace (pre ++ Some (FUser n) :: post1 ++ Some (FUser m) :: post2)
      with ((pre ++ Some (FUser n) :: post1) ++ Some (FUser m) :: post2)
      in * by by rewrite <- app_assoc.
    rewrite delete_middle by by eapply nodup_has_false.
    unfold seg. by rewrite app_nil_r, <- !app_assoc. }
  exists (with_calls (calls st_b ++ log (JsSet.live seg) value) st_b).
  split; [|split].
  - intros fuel Hfuel. destruct fuel as [|fuel]; [lia|].
    apply (emit_around fuel event value st r pre n
             (post1 ++ Some (FUser m) :: post2) (Some (FUser n)) seg);
      try done.
    + by apply set_data_Some.
    + by rewrite Hn.
    + rewrite Hseg. by apply Forall_app.
    + rewrite Hseg, length_app. lia.
  - apply since_with_calls. unfold st_b. cbn [calls with_calls].
    rewrite unsubscribe_calls. unfold st_a, record. cbn [calls with_calls].
    by rewrite Hseg, log_app, <- !app_assoc.
  - unfold members.
    rewrite (entries_data event _ r)
      by (cbn [listeners with_calls]; unfold st_b;
          by rewrite unsubscribe_listeners).
    change (set_data r (with_calls _ st_b)) with (set_data r st_b).
    rewrite Hes_b, app_nil_r, !live_app, Hseg. simpl.
    by rewrite <- !app_assoc.
Qed.

(** X9.  A listener that calls its own handle while the event is emitted
    does not disturb the emission: the members behind it are still called,
    and afterwards it is no longer a member. *)
Theorem listener_unsubscribing_itself event value n pre post st :
  wf st →
  entries event st = pre ++ Some (FUser n) :: post →
  Forall (passive code value) (JsSet.live pre) →
  Forall (passive code value) (JsSet.live post) →
  code n value = [AUnsubscribe event n] →
  ∃ st',
    (∀ fuel, length (JsSet.live pre) + length (JsSet.live post) + 2 ≤ fuel →
       emit code fuel event value st = Some st')
    ∧ since st st'
      = log (JsSet.live pre) value ++ [(n, value)] ++ log (JsSet.live post) value
    ∧ members event st' = JsSet.live pre ++ JsSet.live post.
Proof.
  intros Hwf Hes Hpre Hpost Hn.
  destruct (entries_mapped_app _ _ _ _ _ Hes) as [r E].
  rewrite (entries_data _ _ _ E) in Hes.
  destruct (wf_set _ Hwf _ _ E) as [es Hsets].
  rewrite (set_data_Some _ _ _ Hsets) in Hes. subst es.
  pose proof (wf_nodup _ Hwf _ _ Hsets) as Hnd.
  set (st_a := with_calls (calls st ++ log (JsSet.live pre) value) st).
  set (st_b := unsubscribe event (FUser n) (record n value st_a)).
  assert (set_data r st_b = (pre ++ [None]) ++ post ++ []) as Hes_b.
  { unfold st_b.
    rewrite (unsubscribe_set_data event (FUser n) (record n value st_a) r _ E Hsets).
    rewrite delete_middle by by eapply nodup_has_false.
    by rewrite app_nil_r, <- !app_assoc. }
  exists (with_calls (calls st_b ++ log (JsSet.live post) value) st_b).
  split; [|split].
  - intros fuel Hfuel. destruct fuel as [|fuel]; [lia|].
    apply (emit_around fuel event value st r pre n post None post); try done.
    + by apply set_data_Some.
    + by rewrite Hn.
    + lia.
  - apply since_with_calls. unfold st_b. cbn [calls with_calls].
    rewrite unsubscribe_calls. unfold st_a, record. cbn [calls with_calls].
    by rewrite <- !app_assoc.
  - unfold members.
    rewrite (entries_data event _ r)
      by (cbn [listeners with_calls]; unfold st_b;
          by rewrite unsubscribe_listeners).
    change (set_data r (with_calls _ st_b)) with (set_data r st_b).
    by rewrite Hes_b, app_nil_r, !live_app, app_nil_r.
Qed.

End DuringEmission.

(** X7 at work: function 0 calls [off] in front of function 1. *)
Lemma off_during_emission_witness :
  let st := (on "e" (FUser 1) (on "e" (FUser 0) new).2).2 in
  ∃ st',
    (∀ fuel,
       length (JsSet.live []) + length (JsSet.live [Some (FUser 1)]) + 2 ≤ fuel →
       emit Examples.clearing fuel "e" (VNum 7) st = Some st')
    ∧ since st st'
      = log (JsSet.live []) (VNum 7) ++ [(0, VNum 7)]
        ++ log (JsSet.live [Some (FUser 1)]) (VNum 7)
    ∧ members "e" st' = [].
Proof.
  apply (off_during_emission Examples.clearing "e" (VNum 7) 0 []
           [Some (FUser 1)]).
  - reflexivity.
  - constructor.
  - repeat constructor. by exists 1.
  - reflexivity.
Defined.

(** X8 at work: function 0 unsubscribes function 1, which stands behind
    function 2. *)
Lemma unsubscribed_during_emission_is_skipped_witness :
  let st :=
    (on "e" (FUser 1) (on "e" (FUser 2) (on "e" (FUser 0) new).2).2).2 in
  ∃ st',
    (∀ fuel,
       length (JsSet.live []) + length (JsSet.live [Some (FUser 2)])
       + length (JsSet.live []) + 2 ≤ fuel →
       emit Examples.removing fuel "e" (VNum 7) st = Some st')
    ∧ since st st'
      = log (JsSet.live []) (VNum 7) ++ [(0, VNum 7)]
        ++ log (JsSet.live [Some (FUser 2)]) (VNum 7)
        ++ log (JsSet.live []) (VNum 7)
    ∧ members "e" st'
      = JsSet.live [] ++ [FUser 0] ++ JsSet.live [Some (FUser 2)]
        ++ JsSet.live [].
Proof.
  apply (unsubscribed_during_emission_is_skipped Examples.removing "e" (VNum 7)
           0 1 [] [Some (FUser 2)] []).
  - do 3 apply wf_on. apply wf_new.
  - reflexivity.
  - constructor.
  - repeat constructor. by exists 2.
  - constructor.
  - reflexivity.
Defined.

(** X9 at work: function 0 stands between functions 5 and 1. *)
Lemma listener_unsubscribing_itself_witness :
  let st :=
    (on "e" (FUser 1) (on "e" (FUser 0) (on "e" (FUser 5) new).2).2).2 in
  ∃ st',
    (∀ fuel,
       length (JsSet.live [Some (FUser 5)])
       + length (JsSet.live [Some (FUser 1)]) + 2 ≤ fuel →
       emit Examples.leaving fuel "e" (VNum 7) st = Some st')
    ∧ since st st'
      = log (JsSet.live [Some (FUser 5)]) (VNum 7) ++ [(0, VNum 7)]
        ++ log (JsSet.live [Some (FUser 1)]) (VNum 7)
    ∧ members "e" st'
      = JsSet.live [Some (FUser 5)] ++ JsSet.live [Some (FUser 1)].
Proof.
  apply (listener_unsubscribing_itself Examples.leaving "e" (VNum 7) 0
           [Some (FUser 5)] [Some (FUser 1)]).
  - do 3 apply wf_on. apply wf_new.
  - reflexivity.
  - repeat constructor. by exists 5.
  - repeat constructor. by exists 1.
  - reflexivity.
Defined.

(** ** How the methods compose *)

Section Compose.
Import JsSetFacts.

Variable code : nat → Value → list Action.

Lemma emits_after_off fuel event values st :
  emits code fuel (emissions event values) (off event st) = Some (off event st).
Proof.
  induction values as [|v values IH]; [done|].
  cbn [emissions fmap list_fmap emits]. fold (emissions event values).
  assert (emit code fuel event v (off event st) = Some (off event st)) as ->.
  { unfold emit, emit_with, off. simpl. by rewrite lookup_delete_eq. }
  cbn [mbind option_bind]. apply IH.
Qed.

(** X10.  A promise from [take] whose event is cleared by [off] stays
    pending: the adapter that would fulfil it is gone, and emissions of
    the event change nothing. *)
Theorem take_then_off_stays_pending fuel event values st :
  let '(p, st1) := take event st in
  let st2 := off event st1 in
  promises st1 !! p = Some Pending
  ∧ emits code fuel (emissions event values) st2 = Some st2
  ∧ promises st2 !! p = Some Pending.
Proof.
  assert (promises (take event st).2 !! (take event st).1 = Some Pending) as Hp.
  { rewrite take_unfold. cbn [fst snd]. rewrite once_promises.
    unfold new_Promise. simpl. apply lookup_insert_eq. }
  destruct (take event st) as [p st1]. cbn [fst snd] in Hp.
  split; [exact Hp|]. split; [apply emits_after_off|exact Hp].
Qed.

(** X11.  The function from [emitCallback b], registered as a listener of
    another event [a], forwards: an emission of [a] calls the listeners of
    [a] and then, with the same payload, the listeners of [b]. *)
Theorem emitCallback_forwards a b value st :
  wf st →
  a ≠ b →
  Forall (passive code value) (members a st) →
  Forall (passive code value) (members b st) →
  let '(callback, st1) := emitCallback b st in
  let '(_, st2) := on a callback st1 in
  ∃ st3,
    (∀ fuel, length (members a st) + length (members b st) + 2 ≤ fuel →
       emit code fuel a value st2 = Some st3)
    ∧ since st2 st3 = log (members a st) value ++ log (members b st) value.
Proof.
  intros Hwf Hne Ha Hb. unfold emitCallback. cbn [alloc].
  set (callback := FEmitCallback (next st) b).
  set (st1 := mkState _ _ _ _ _ _ _).
  assert (wf st1) as Hwf1 by (apply (wf_frame st); simpl; auto).
  assert (∀ e, entries e st1 = entries e st) as Hent1
    by (intros e; by apply entries_frame).
  pose proof (entries_on a callback st1 Hwf1) as Hent2.
  pose proof (entries_on_other a callback b st1 Hwf1 (not_eq_sym Hne)) as Hentb.
  pose proof (calls_on a callback st1) as Hcalls.
  destruct (on a callback st1) as [h st2]. cbn [snd] in *.
  rewrite Hent1 in Hent2, Hentb.
  assert (JsSet.has callback (entries a st) = false) as Hnew
    by (apply has_arrow_users; [done|]; by eapply passive_users).
  unfold JsSet.add in Hent2. rewrite Hnew in Hent2.
  set (st_a := with_calls (calls st2 ++ log (members a st) value) st2).
  assert (members b st_a = members b st) as Hmb
    by (unfold members; by rewrite (entries_frame b st2 st_a), Hentb).
  set (st3 := with_calls (calls st_a ++ log (members b st_a) value) st_a).
  exists st3. split.
  - intros fuel Hfuel. destruct fuel as [|[|fuel]]; [lia|lia|].
    apply (emit_last_entry code (S fuel) a value st2 (entries a st) callback);
      try done.
    + unfold members in Hfuel. lia.
    + unfold callback. rewrite call_emitCallback.
      apply (emit_passive code (S fuel) b value st_a); rewrite Hmb; [done|lia].
    + assert (entries a st3 = entries a st2) as -> by by apply entries_frame.
      rewrite Hent2.
      replace (S (length (entries a st)))
        with (length (entries a st ++ [Some callback]))
        by (rewrite length_app; simpl; lia).
      by rewrite drop_all.
  - apply since_with_calls. unfold st3, st_a. cbn [calls with_calls].
    fold st_a. rewrite Hmb. by rewrite <- app_assoc.
Qed.

(** X12.  [once] does not look for the listener in the set: its adapter
    is a function of its own.  A function that is already a listener of
    the event is therefore called twice by the next emission, once as
    itself and once through the adapter; after that the adapter is gone. *)
Theorem once_beside_on_calls_twice event n value st :
  wf st →
  Forall (passive code value) (members event st) →
  FUser n ∈ members event st →
  let st1 := (once event (FUser n) st).2 in
  ∃ st2,
    (∀ fuel, length (members event st) + 2 < fuel →
       emit code fuel event value st1 = Some st2)
    ∧ invocations n (since st1 st2) = [value; value]
    ∧ members event st2 = members event st.
Proof.
  intros Hwf Hp Hin.
  assert (code n value = []) as Hn.
  { rewrite Forall_forall in Hp. destruct (Hp _ Hin) as (m & [= <-] & Hm). done. }
  destruct (once_facts event (FUser n) st Hwf)
    as (a' & Hh & Hwf1 & Hent & _ & Hbind & _ & _ & Hcalls & _).
  { apply has_arrow_users; [done|]. by eapply passive_users. }
  set (adapter := FOnce (S (next st)) (FUser n) (next st)) in *.
  set (st1 := (once event (FUser n) st).2) in *. cbv zeta.
  set (st_a := with_calls (calls st1 ++ log (members event st) value) st1).
  set (st_l := with_calls (calls st_a ++ log [FUser n] value) st_a).
  set (st2 := unsubscribe event adapter st_l).
  assert (∀ fuel, length (members event st) + 2 < fuel →
            emit code fuel event value st1 = Some st2
            ∧ entries event st2 = entries event st ++ [None]) as Hemit.
  { intros fuel Hfuel. destruct fuel as [|[|fuel]]; [lia|lia|].
    apply (emit_once code (S fuel) event value st1 (entries event st)
             (S (next st)) (FUser n) (next st) a' st_l); try done.
    - unfold members in Hfuel. lia.
    - apply passive_call. by exists n.
    - by do 2 apply wf_with_calls.
    - change (bindings st_l) with (bindings st1). rewrite Hbind.
      apply lookup_insert_eq. }
  exists st2. split; [intros fuel Hfuel; by apply Hemit|]. split.
  - rewrite (since_with_calls _ (log (members event st) value ++ log [FUser n] value)).
    + rewrite invocations_app, invocations_log_once;
        [|by apply entries_nodup|done].
      rewrite log_user. unfold invocations. by rewrite filter_cons_True.
    + unfold st2. rewrite unsubscribe_calls. simpl. by rewrite <- app_assoc.
  - destruct (Hemit (length (members event st) + 3)) as [_ Hgone]; [lia|].
    unfold members. by rewrite Hgone, live_app_hole.
Qed.

(** X13.  However the emitter is used, a function is a member of an event
    at most once and no two events share a set. *)
Theorem reachable_sets_are_sets st :
  reachable code st →
  (∀ event, NoDup (ident <$> members event st))
  ∧ (∀ e1 e2 r,
       listeners st !! e1 = Some r → listeners st !! e2 = Some r → e1 = e2).
Proof.
  intros Hr. pose proof (reachable_wf code st Hr) as Hwf. split.
  - intros event. by apply entries_nodup.
  - apply (wf_inj _ Hwf).
Qed.

End Compose.

(** X11 at work: function 5 listens to ["a"], function 3 to ["b"]. *)
Lemma emitCallback_forwards_witness :
  let st := (on "b" (FUser 3) (on "a" (FUser 5) new).2).2 in
  let '(callback, st1) := emitCallback "b" st in
  let '(_, st2) := on "a" callback st1 in
  ∃ st3,
    (∀ fuel, length (members "a" st) + length (members "b" st) + 2 ≤ fuel →
       emit Examples.quiet fuel "a" (VNum 100) st2 = Some st3)
    ∧ since st2 st3
      = log (members "a" st) (VNum 100) ++ log (members "b" st) (VNum 100).
Proof.
  apply (emitCallback_forwards Examples.quiet "a" "b" (VNum 100)).
  - do 2 apply wf_on. apply wf_new.
  - done.
  - vm_compute. repeat constructor; by eexists.
  - vm_compute. repeat constructor; by eexists.
Defined.

(** X12 at work: function 5 is registered with [on] and with [once]. *)
Lemma once_beside_on_calls_twice_witness :
  let st := (on "e" (FUser 5) new).2 in
  let st1 := (once "e" (FUser 5) st).2 in
  ∃ st2,
    (∀ fuel, length (members "e" st) + 2 < fuel →
       emit Examples.quiet fuel "e" (VNum 100) st1 = Some st2)
    ∧ invocations 5 (since st1 st2) = [VNum 100; VNum 100]
    ∧ members "e" st2 = members "e" st.
Proof.
  apply (once_beside_on_calls_twice Examples.quiet "e" 5 (VNum 100)).
  - apply wf_on, wf_new.
  - vm_compute. repeat constructor; by eexists.
  - vm_compute. by left.
Defined.

(** X13 at work after two registrations. *)
Lemma reachable_sets_are_sets_witness :
  let st := (on "f" (FUser 4) (on "e" (FUser 5) new).2).2 in
  (∀ event, NoDup (ident <$> members event st))
  ∧ (∀ e1 e2 r,
       listeners st !! e1 = Some r → listeners st !! e2 = Some r → e1 = e2).
Proof.
  apply (reachable_sets_are_sets Examples.quiet).
  do 2 apply reach_on. apply reach_new.
Defined.

(** ** Several adapters in one set *)

Section Adapters.
Import JsSetFacts.

Variable code : nat → Value → list Action.

Lemma has_app x xs ys :
  JsSet.has x (xs ++ ys) = JsSet.has x xs || JsSet.has x ys.
Proof.
  induction xs as [|[y|] xs IH]; simpl; [done| |done].
  by rewrite IH, orb_assoc.
Qed.

Lemma IAddr_inj a a' : IAddr a = IAddr a' → a = a'.
Proof. by intros [=]. Qed.

Lemma sets_lookup_data r st es :
  is_Some (sets st !! r) → set_data r st = es → sets st !! r = Some es.
Proof. unfold set_data. intros [es' ->]. simpl. by intros ->. Qed.

(** The loop at an adapter of [once]: the wrapped listener runs to [st_l],
    then the adapter takes itself out of the set and the loop goes on. *)
Lemma forEach_once fuel steps event r v st pre a l b post post' a' st_l :
  let adapter := FOnce a l b in
  set_data r st = pre ++ Some adapter :: post →
  JsSet.has adapter pre = false →
  call code fuel l v st = Some st_l →
  listeners st_l !! event = Some r →
  sets st_l !! r = Some (pre ++ Some adapter :: post') →
  bindings st_l !! b = Some (FUnsubscribe a' event adapter) →
  forEach (call code (S fuel)) (S steps) r (length pre) v st
  = forEach (call code (S fuel)) steps r (S (length pre)) v
      (unsubscribe event adapter st_l)
  ∧ set_data r (unsubscribe event adapter st_l) = pre ++ None :: post'.
Proof.
  intros adapter Hes Hnew Hcall E Hsets Hb. split.
  - rewrite (forEach_entry _ _ _ _ _ pre adapter post) by done.
    unfold adapter. rewrite call_once, Hcall. cbn [mbind option_bind].
    rewrite Hb. cbn [mbind option_bind].
    destruct fuel as [|fuel]; [done|]. done.
  - rewrite (unsubscribe_set_data _ _ _ r _ E Hsets). by apply delete_middle.
Qed.

(** X14.  Two calls of [take] for the same event give two promises, and
    one emission of the event fulfils both with its payload and removes
    both adapters. *)
Theorem takes_both_fulfilled event value st :
  wf st →
  Forall (passive code value) (members event st) →
  let '(p1, st1) := take event st in
  let '(p2, st2) := take event st1 in
  p1 ≠ p2
  ∧ ∃ st3,
      (∀ fuel, length (members event st) + 3 < fuel →
         emit code fuel event value st2 = Some st3)
      ∧ promises st3 !! p1 = Some (Fulfilled value)
      ∧ promises st3 !! p2 = Some (Fulfilled value)
      ∧ members event st3 = members event st.
Proof.
  intros Hwf Hp. rewrite take_unfold.
  set (p1 := next st). set (st_d1 := (new_Promise st).2).
  set (resolve1 := FResolve (S p1) p1).
  assert (wf st_d1) as Hwf_d1 by by apply wf_new_Promise.
  assert (entries event st_d1 = entries event st) as Hent_d1
    by by apply entries_frame.
  assert (Forall (λ x, ∃ n, x = FUser n) (JsSet.live (entries event st)))
    as Husers by by eapply passive_users.
  destruct (once_facts event resolve1 st_d1 Hwf_d1)
    as (a1 & _ & Hwf1 & Hent1 & _ & Hbind1 & Hprom1 & _ & _ & Hnext1).
  { apply has_arrow_users; [done|]. by rewrite Hent_d1. }
  set (b1 := next st_d1) in *.
  set (ad1 := FOnce (S b1) resolve1 b1) in *.
  set (h1 := FUnsubscribe a1 event ad1) in *.
  set (st1 := (once event resolve1 st_d1).2) in *.
  rewrite Hent_d1 in Hent1.
  rewrite take_unfold.
  set (p2 := next st1). set (st_d2 := (new_Promise st1).2).
  set (resolve2 := FResolve (S p2) p2).
  assert (wf st_d2) as Hwf_d2 by by apply wf_new_Promise.
  assert (entries event st_d2 = entries event st1) as Hent_d2
    by by apply entries_frame.
  assert (next st_d2 = 3 + next st1) as Hn2 by reflexivity.
  assert (b1 < next st_d2) as Hb12 by lia.
  destruct (once_facts event resolve2 st_d2 Hwf_d2)
    as (a2 & _ & Hwf2 & Hent2 & _ & Hbind2 & Hprom2 & _ & Hcalls2 & _).
  { rewrite Hent_d2, Hent1, has_app.
    rewrite has_arrow_users by done. cbn [JsSet.has orb]. rewrite orb_false_r.
    apply same_false. unfold ad1. cbn [ident]. intros Heq%IAddr_inj. lia. }
  set (b2 := next st_d2) in *.
  set (ad2 := FOnce (S b2) resolve2 b2) in *.
  set (h2 := FUnsubscribe a2 event ad2) in *.
  set (st2 := (once event resolve2 st_d2).2) in *.
  rewrite Hent_d2, Hent1 in Hent2.
  set (es := entries event st) in *.
  assert (b1 = 3 + p1) as Hb1p by reflexivity.
  assert (p1 < p2) as Hp12 by (unfold p2; lia).
  split; [lia|].
  destruct (entries_mapped_app event st2 (es ++ [Some ad1]) (Some ad2) [])
    as [r E]; [done|].
  assert (promises st2 = <[p2 := Pending]> (<[p1 := Pending]> (promises st)))
    as Hprom.
  { rewrite Hprom2.
    change (promises st_d2) with (<[p2 := Pending]> (promises st1)).
    by rewrite Hprom1. }
  assert (bindings st2 = <[b2 := h2]> (<[b1 := h1]> (bindings st))) as Hbind.
  { rewrite Hbind2. change (bindings st_d2) with (bindings st1).
    by rewrite Hbind1. }
  set (st_a := with_calls (calls st2 ++ log (JsSet.live es) value) st2).
  set (st_l1 := with_promises (<[p1 := Fulfilled value]> (promises st_a)) st_a).
  set (st_u1 := unsubscribe event ad1 st_l1).
  set (st_l2 := with_promises (<[p2 := Fulfilled value]> (promises st_u1)) st_u1).
  set (st3 := unsubscribe event ad2 st_l2).
  assert (set_data r st_a = es ++ Some ad1 :: [Some ad2]) as Hdata_a.
  { change (set_data r st_a) with (set_data r st2).
    rewrite <- (entries_data _ _ _ E), Hent2. by rewrite <- app_assoc. }
  assert (wf st_l1) as Hwf_l1 by (apply (wf_frame st2); done).
  assert (wf st_u1) as Hwf_u1 by by apply wf_unsubscribe.
  assert (JsSet.has ad1 es = false) as Hnew1 by by apply has_arrow_users.
  assert (JsSet.has ad2 (es ++ [None]) = false) as Hnew2.
  { rewrite has_app. rewrite has_arrow_users by done. done. }
  assert (call code 1 resolve1 value st_a = Some st_l1) as Hcall1.
  { simpl. f_equal. apply settle_pending.
    change (promises st_a) with (promises st2).
    rewrite Hprom, lookup_insert_ne by lia. apply lookup_insert_eq. }
  assert (sets st_l1 !! r = Some (es ++ Some ad1 :: [Some ad2])) as Hsets_l1.
  { apply sets_lookup_data; [|done]. apply (wf_set _ Hwf_l1 event). done. }
  assert (bindings st_l1 !! b1 = Some h1) as Hb1.
  { change (bindings st_l1) with (bindings st2).
    rewrite Hbind, lookup_insert_ne by lia. apply lookup_insert_eq. }
  assert (set_data r st_u1 = es ++ None :: [Some ad2]) as Hdata_u1.
  { unfold st_u1. rewrite (unsubscribe_set_data event ad1 st_l1 r _ E Hsets_l1).
    by apply delete_middle. }
  assert (listeners st_u1 !! event = Some r) as E_u1
    by (unfold st_u1; by rewrite unsubscribe_listeners).
  assert (call code 1 resolve2 value st_u1 = Some st_l2) as Hcall2.
  { simpl. f_equal. apply settle_pending. unfold st_u1.
    rewrite unsubscribe_promises. unfold st_l1. cbn [promises with_promises].
    change (promises st_a) with (promises st2).
    rewrite lookup_insert_ne by lia. rewrite Hprom. apply lookup_insert_eq. }
  assert (wf st_l2) as Hwf_l2 by (apply (wf_frame st_u1); done).
  assert (sets st_l2 !! r = Some ((es ++ [None]) ++ Some ad2 :: [])) as Hsets_l2.
  { apply sets_lookup_data; [by apply (wf_set _ Hwf_l2 event)|].
    change (set_data r st_l2) with (set_data r st_u1).
    by rewrite Hdata_u1, <- app_assoc. }
  assert (bindings st_l2 !! b2 = Some h2) as Hb2.
  { change (bindings st_l2) with (bindings st_u1). unfold st_u1.
    rewrite unsubscribe_bindings. change (bindings st_l1) with (bindings st2).
    rewrite Hbind. apply lookup_insert_eq. }
  assert (set_data r st3 = (es ++ [None]) ++ None :: []) as Hdata3.
  { unfold st3. rewrite (unsubscribe_set_data event ad2 st_l2 r _ E_u1 Hsets_l2).
    by apply delete_middle. }
  exists st3. split; [|split; [|split]].
  - intros fuel Hfuel.
    assert (length (members event st) = length (JsSet.live es)) as Hlen
      by reflexivity.
    rewrite Hlen in Hfuel.
    destruct fuel as [|[|fuel]]; [lia|lia|].
    unfold emit, emit_with. rewrite E.
    rewrite (forEach_passive_steps code (S fuel) _ r value es []
               (Some ad1 :: [Some ad2]) st2); [|done|done|lia].
    fold st_a. simpl length at 2. cbn [Nat.add].
    destruct (S (S fuel) - length (JsSet.live es)) as [|[|k]] eqn:Ek;
      [lia|lia|].
    destruct (forEach_once (S fuel) (S k) event r value st_a es (S b1) resolve1
                b1 [Some ad2] [Some ad2] a1 st_l1 Hdata_a Hnew1
                (call_fuel code 1 (S fuel) _ _ _ _ ltac:(lia) Hcall1)
                E Hsets_l1 Hb1) as [-> _].
    fold ad1 st_u1.
    replace (S (length es)) with (length (es ++ [None]))
      by (rewrite length_app; simpl; lia).
    assert (set_data r st_u1 = (es ++ [None]) ++ Some ad2 :: []) as Hdata_u1'
      by by rewrite Hdata_u1, <- app_assoc.
    destruct (forEach_once (S fuel) k event r value st_u1 (es ++ [None]) (S b2)
                resolve2 b2 [] [] a2 st_l2 Hdata_u1' Hnew2
                (call_fuel code 1 (S fuel) _ _ _ _ ltac:(lia) Hcall2)
                E_u1 Hsets_l2 Hb2) as [-> _].
    fold ad2 st3. apply forEach_done. rewrite Hdata3.
    replace (S (length (es ++ [None])))
      with (length ((es ++ [None]) ++ [None]))
      by (rewrite !length_app; simpl; lia).
    by rewrite drop_all.
  - unfold st3. rewrite unsubscribe_promises. unfold st_l2.
    cbn [promises with_promises]. rewrite lookup_insert_ne by lia.
    unfold st_u1. rewrite unsubscribe_promises. apply lookup_insert_eq.
  - unfold st3. rewrite unsubscribe_promises. apply lookup_insert_eq.
  - unfold members.
    rewrite (entries_data event st3 r)
      by (unfold st3; by rewrite unsubscribe_listeners).
    rewrite Hdata3. by rewrite !live_app, !app_nil_r.
Qed.

(** X15.  [takeEither] with the same event for success and for failure:
    both adapters stand in one set, the one for success first.  An
    emission of the event runs it, which unsubscribes the other one before
    the loop reaches it, so the promise is fulfilled, not rejected, and
    both adapters are gone. *)
Theorem takeEither_same_event_fulfils event value st :
  wf st →
  Forall (passive code value) (members event st) →
  let '(p, st1) := takeEither event event st in
  promises st1 !! p = Some Pending
  ∧ ∃ st2,
      (∀ fuel, length (members event st) + 3 < fuel →
         emit code fuel event value st1 = Some st2)
      ∧ promises st2 !! p = Some (Fulfilled value)
      ∧ members event st2 = members event st.
Proof.
  intros Hwf Hp. rewrite takeEither_unfold. cbv zeta.
  set (n := next st).
  set (reject := FReject (2 + n) n). set (resolve := FResolve (1 + n) n).
  set (lS := FEitherSuccess (5 + n) (4 + n) resolve).
  set (st_o := mkState _ _ _ _ _ _ _).
  assert (wf st_o) as Hwf_o by (apply (wf_frame st); simpl; auto; lia).
  assert (entries event st_o = entries event st) as Hent_o
    by by apply entries_frame.
  assert (Forall (λ x, ∃ n, x = FUser n) (JsSet.live (entries event st)))
    as Husers by by eapply passive_users.
  destruct (once_facts event lS st_o Hwf_o)
    as (aS & HhS & Hwf_S & HentS & _ & HbindS & HpromS & _ & _ & HnextS).
  { apply has_arrow_users; [done|]. by rewrite Hent_o. }
  rewrite HhS. change (next st_o) with (6 + n) in *.
  set (adS := FOnce (S (6 + n)) lS (6 + n)) in *.
  set (hS := FUnsubscribe aS event adS) in *.
  set (st_S := (once event lS st_o).2) in *.
  set (st0 := bind (3 + n) hS st_S).
  set (st_p := (alloc st0).2).
  set (lF := FEitherFailure (next st0) (3 + n) reject).
  assert (wf st_p) as Hwf_p by (apply wf_alloc, wf_bind; done).
  assert (entries event st_p = entries event st_S) as Hent_p
    by by apply entries_frame.
  set (bF := next st_p) in *.
  assert (bF = S (next st_S)) as HbF by reflexivity.
  rewrite Hent_o in HentS.
  set (es := entries event st) in *.
  destruct (once_facts event lF st_p Hwf_p)
    as (aF & HhF & Hwf_F & HentF & _ & HbindF & HpromF & _ & _ & _).
  { rewrite Hent_p, HentS, has_app.
    rewrite has_arrow_users by done. cbn [JsSet.has orb]. rewrite orb_false_r.
    apply same_false. unfold adS. cbn [ident]. intros Heq%IAddr_inj.
    fold bF in Heq. lia. }
  rewrite HhF. fold bF in HentF, HbindF |- *.
  set (adF := FOnce (S bF) lF bF) in *.
  set (hF := FUnsubscribe aF event adF) in *.
  set (st_F := (once event lF st_p).2) in *.
  set (st1 := bind (4 + n) hF st_F).
  rewrite Hent_p, HentS in HentF.
  assert (wf st1) as Hwf1 by by apply wf_bind.
  assert (entries event st1 = (es ++ [Some adS]) ++ [Some adF]) as Hent1
    by (rewrite <- HentF; by apply entries_frame).
  assert (bindings st1
          = <[4 + n := hF]> (<[bF := hF]> (<[3 + n := hS]> (<[6 + n := hS]>
              (bindings st))))) as Hb1.
  { unfold st1, bind. cbn [bindings with_bindings]. rewrite HbindF.
    unfold st_p, st0, bind. cbn [alloc snd bindings with_bindings].
    by rewrite HbindS. }
  assert (promises st1 !! n = Some Pending) as Hpending.
  { unfold st1, bind. cbn [promises with_bindings]. rewrite HpromF.
    unfold st_p, st0, bind. cbn [alloc snd promises with_bindings].
    rewrite HpromS. apply lookup_insert_eq. }
  split; [done|].
  destruct (entries_mapped_app event st1 (es ++ [Some adS]) (Some adF) [])
    as [r E]; [done|].
  set (st_a := with_calls (calls st1 ++ log (JsSet.live es) value) st1).
  set (st_x := unsubscribe event adF st_a).
  set (st_l := with_promises (<[n := Fulfilled value]> (promises st_x)) st_x).
  set (st2 := unsubscribe event adS st_l).
  assert (set_data r st_a = es ++ Some adS :: [Some adF]) as Hdata_a.
  { change (set_data r st_a) with (set_data r st1).
    rewrite <- (entries_data _ _ _ E), Hent1. by rewrite <- app_assoc. }
  assert (wf st_a) as Hwf_a by by apply wf_with_calls.
  assert (sets st_a !! r = Some ((es ++ [Some adS]) ++ [Some adF])) as Hsets_a.
  { apply sets_lookup_data; [by apply (wf_set _ Hwf_a event)|].
    by rewrite Hdata_a, <- app_assoc. }
  assert (JsSet.has adS es = false) as HnewS by by apply has_arrow_users.
  assert (JsSet.has adF (es ++ [Some adS]) = false) as HnewF.
  { rewrite has_app. rewrite has_arrow_users by done.
    cbn [JsSet.has orb]. rewrite orb_false_r.
    apply same_false. unfold adS. cbn [ident]. intros Heq%IAddr_inj. lia. }
  assert (set_data r st_x = es ++ Some adS :: [None]) as Hdata_x.
  { unfold st_x. rewrite (unsubscribe_set_data event adF st_a r _ E Hsets_a).
    rewrite delete_last by done. by rewrite <- app_assoc. }
  assert (wf st_x) as Hwf_x by by apply wf_unsubscribe.
  assert (listeners st_x !! event = Some r) as E_x
    by (unfold st_x; by rewrite unsubscribe_listeners).
  assert (wf st_l) as Hwf_l by (apply (wf_frame st_x); done).
  assert (sets st_l !! r = Some (es ++ Some adS :: [None])) as Hsets_l.
  { apply sets_lookup_data; [by apply (wf_set _ Hwf_l event)|done]. }
  assert (bindings st_l !! (6 + n) = Some hS) as HbS.
  { change (bindings st_l) with (bindings st_x). unfold st_x.
    rewrite unsubscribe_bindings. change (bindings st_a) with (bindings st1).
    rewrite Hb1, !lookup_insert_ne by lia. apply lookup_insert_eq. }
  assert (call code 2 lS value st_a = Some st_l) as Hcall.
  { unfold lS. rewrite call_success.
    change (bindings st_a) with (bindings st1). rewrite Hb1, lookup_insert_eq.
    change (Some (settle n (Fulfilled value) st_x) = Some st_l).
    f_equal. apply settle_pending.
    unfold st_x. by rewrite unsubscribe_promises. }
  assert (set_data r st2 = es ++ None :: [None]) as Hdata2.
  { unfold st2. rewrite (unsubscribe_set_data event adS st_l r _ E_x Hsets_l).
    by apply delete_middle. }
  exists st2. split; [|split].
  - intros fuel Hfuel.
    assert (length (members event st) = length (JsSet.live es)) as Hlen
      by reflexivity.
    rewrite Hlen in Hfuel.
    destruct fuel as [|[|[|fuel]]]; [lia|lia|lia|].
    unfold emit, emit_with. rewrite E.
    rewrite (forEach_passive_steps code (S (S fuel)) _ r value es []
               (Some adS :: [Some adF]) st1); [|done|done|lia].
    fold st_a. simpl length at 2. cbn [Nat.add].
    destruct (S (S (S fuel)) - length (JsSet.live es)) as [|k] eqn:Ek; [lia|].
    destruct (forEach_once (S (S fuel)) k event r value st_a es (S (6 + n)) lS
                (6 + n) [Some adF] [None] aS st_l Hdata_a HnewS
                (call_fuel code 2 (S (S fuel)) _ _ _ _ ltac:(lia) Hcall)
                E_x Hsets_l HbS) as [-> _].
    fold adS st2. apply forEach_done. rewrite Hdata2.
    replace (es ++ None :: [None]) with ((es ++ [None]) ++ [None])
      by by rewrite <- app_assoc.
    replace (S (length es)) with (length (es ++ [None]))
      by (rewrite length_app; simpl; lia).
    by rewrite drop_app_length.
  - unfold st2. rewrite unsubscribe_promises. apply lookup_insert_eq.
  - unfold members.
    rewrite (entries_data event st2 r)
      by (unfold st2; by rewrite unsubscribe_listeners).
    rewrite Hdata2. by rewrite live_app, app_nil_r.
Qed.

End Adapters.

(** X14 at work: function 5 listens to ["e"] when [take] is called twice. *)
Lemma takes_both_fulfilled_witness :
  let st := (on "e" (FUser 5) new).2 in
  let '(p1, st1) := take "e" st in
  let '(p2, st2) := take "e" st1 in
  p1 ≠ p2
  ∧ ∃ st3,
      (∀ fuel, length (members "e" st) + 3 < fuel →
         emit Examples.quiet fuel "e" (VNum 100) st2 = Some st3)
      ∧ promises st3 !! p1 = Some (Fulfilled (VNum 100))
      ∧ promises st3 !! p2 = Some (Fulfilled (VNum 100))
      ∧ members "e" st3 = members "e" st.
Proof.
  apply (takes_both_fulfilled Examples.quiet "e" (VNum 100)).
  - apply wf_on, wf_new.
  - vm_compute. repeat constructor; by eexists.
Defined.

(** X15 at work: function 5 listens to ["e"]. *)
Lemma takeEither_same_event_fulfils_witness :
  let st := (on "e" (FUser 5) new).2 in
  let '(p, st1) := takeEither "e" "e" st in
  promises st1 !! p = Some Pending
  ∧ ∃ st2,
      (∀ fuel, length (members "e" st) + 3 < fuel →
         emit Examples.quiet fuel "e" (VNum 100) st1 = Some st2)
      ∧ promises st2 !! p = Some (Fulfilled (VNum 100))
      ∧ members "e" st2 = members "e" st.
Proof.
  apply (takeEither_same_event_fulfils Examples.quiet "e" (VNum 100)).
  - apply wf_on, wf_new.
  - vm_compute. repeat constructor; by eexists.
Defined.

(** ** [takeTimeout] and [off] *)

Section TimeoutOff.

Variable code : nat → Value → list Action.

Lemma once_bindings event listener st :
  bindings (once event listener st).2
  = <[next st := (once event listener st).1]> (bindings st).
Proof.
  rewrite once_unfold. cbv zeta. cbn [fst snd]. unfold bind.
  cbn [bindings with_bindings]. by rewrite on_bindings.
Qed.

Lemma once_timers event listener st :
  timers (once event listener st).2 = timers st.
Proof.
  rewrite once_unfold. cbv zeta. cbn [fst snd]. unfold bind.
  cbn [timers with_bindings]. by rewrite on_timers.
Qed.

Lemma once_handle event listener st :
  ∃ a, (once event listener st).1
       = FUnsubscribe a event (FOnce (S (next st)) listener (next st)).
Proof. rewrite once_unfold. cbv zeta. cbn [fst]. apply on_handle. Qed.

(** X16.  [off] between [takeTimeout] and the emission: the adapter is
    gone, so the emission changes nothing; the timer is still pending, and
    when it fires its call of the handle finds no set and the promise is
    rejected with [undefined]. *)
Theorem takeTimeout_then_off_rejects event timeout value st :
  let '(p, st1) := takeTimeout event timeout st in
  let st2 := off event st1 in
  (∀ fuel, emit code fuel event value st2 = Some st2)
  ∧ ∃ id st3,
      (∀ fuel, 2 ≤ fuel → fireTimer code fuel id st2 = Some st3)
      ∧ promises st2 !! p = Some Pending
      ∧ promises st3 !! p = Some (Rejected VUndefined)
      ∧ members event st3 = [].
Proof.
  rewrite takeTimeout_unfold. cbv zeta.
  set (n := next st).
  set (reject := FReject (2 + n) n). set (resolve := FResolve (1 + n) n).
  set (expired := FTimeoutExpired (4 + n) (3 + n) reject).
  set (received := FTimeoutReceived (6 + n) (5 + n) resolve).
  set (st_o := mkState _ _ _ _ _ _ _).
  destruct (once_handle event received st_o) as [a' Hh].
  pose proof (once_bindings event received st_o) as Hbind.
  pose proof (once_timers event received st_o) as Htim.
  pose proof (once_promises event received st_o) as Hprom.
  rewrite Hh in Hbind |- *.
  set (handle := FUnsubscribe a' event _) in *.
  set (st_1 := (once event received st_o).2) in *.
  set (st1 := bind (3 + n) handle st_1).
  set (st2 := off event st1).
  assert (listeners st2 !! event = None) as E
    by (unfold st2, off; simpl; apply lookup_delete_eq).
  assert (promises st2 !! n = Some Pending) as Hpending.
  { change (promises st2) with (promises st_1). rewrite Hprom.
    apply lookup_insert_eq. }
  assert (timers st2 !! (5 + n) = Some expired) as Htimer.
  { change (timers st2) with (timers st_1). rewrite Htim.
    apply lookup_insert_eq. }
  assert (bindings st2 !! (3 + n) = Some handle) as Hb
    by (change (bindings st2) with (<[3 + n := handle]> (bindings st_1));
        apply lookup_insert_eq).
  split.
  { intros fuel. unfold emit, emit_with. by rewrite E. }
  set (st_c := clearTimeout (5 + n) st2).
  set (st3 := with_promises (<[n := Rejected VUndefined]> (promises st_c)) st_c).
  exists (5 + n), st3. split; [|split; [done|split]].
  - intros fuel Hfuel. destruct fuel as [|[|fuel]]; [lia|lia|].
    unfold fireTimer. rewrite Htimer. fold st_c.
    unfold expired. rewrite call_expired.
    change (bindings st_c) with (bindings st2). rewrite Hb.
    cbn [mbind option_bind].
    change (call code (S fuel) handle VUndefined st_c)
      with (Some (unsubscribe event (FOnce (S (next st_o)) received (next st_o)) st_c)).
    rewrite unsubscribe_unmapped by done. cbn [mbind option_bind].
    change (Some (settle n (Rejected VUndefined) st_c) = Some st3).
    f_equal. by apply settle_pending.
  - unfold st3. cbn [promises with_promises]. apply lookup_insert_eq.
  - unfold members, entries.
    change (listeners st3) with (listeners st2). by rewrite E.
Qed.

End TimeoutOff.

(** * Handles and promises in the course of a program *)

(** ** Members as lists *)

Section Members.
Import JsSetFacts.

Lemma elem_of_live fn es : fn ∈ JsSet.live es ↔ Some fn ∈ es.
Proof.
  induction es as [|[y|] es IH]; simpl.
  - split; by intros ?%elem_of_nil.
  - rewrite !elem_of_cons, IH. split; intros [H|H]; auto; left; congruence.
  - rewrite elem_of_cons, IH. split; [auto|]. by intros [?|?].
Qed.

Lemma without_absent x fns :
  ident x ∉ ident <$> fns → without x fns = fns.
Proof.
  unfold without. induction fns as [|y fns IH]; [done|].
  rewrite fmap_cons. intros [Hy Hfns]%not_elem_of_cons.
  rewrite filter_cons_True by done. by rewrite IH.
Qed.

Lemma without_app x fns fns' :
  without x (fns ++ fns') = without x fns ++ without x fns'.
Proof. apply filter_app. Qed.

Lemma without_here x fns : without x (x :: fns) = without x fns.
Proof. unfold without. by rewrite filter_cons_False by (intros H; by apply H). Qed.

(** On a set without duplicates [delete] removes every function of the
    identity. *)
Lemma live_delete x es :
  NoDup (ident <$> JsSet.live es) →
  JsSet.live (JsSet.delete x es) = without x (JsSet.live es).
Proof.
  induction es as [|[y|] es IH]; simpl; [done| |done].
  intros [Hy Hnd]%NoDup_cons.
  destruct (JsSet.same x y) eqn:E; simpl.
  - apply same_true in E. unfold without.
    rewrite filter_cons_False by (intros H; by apply H).
    symmetry. apply without_absent. by rewrite E.
  - apply same_false in E. unfold without.
    rewrite filter_cons_True by (intros H; by apply E).
    f_equal. by apply IH.
Qed.

Lemma members_unsubscribe event listener st :
  wf st →
  members event (unsubscribe event listener st)
  = without listener (members event st).
Proof.
  intros Hwf. unfold members. rewrite entries_unsubscribe by done.
  apply live_delete. by apply entries_nodup.
Qed.

Lemma among_app hidden fns fns' :
  among hidden (fns ++ fns') = among hidden fns ++ among hidden fns'.
Proof. apply filter_app. Qed.

Lemma among_without hidden x fns :
  ident x ∉ hidden → among hidden (without x fns) = among hidden fns.
Proof.
  intros Hx. unfold among, without. induction fns as [|y fns IH]; [done|].
  destruct (decide (ident y = ident x)) as [E|E].
  - rewrite filter_cons_False by (intros H; by apply H).
    rewrite filter_cons_False by (by rewrite E). done.
  - rewrite filter_cons_True by done.
    destruct (decide (ident y ∈ hidden)).
    + rewrite !filter_cons_True by done. by rewrite IH.
    + rewrite !filter_cons_False by done. done.
Qed.

Lemma among_other hidden x : ident x ∉ hidden → among hidden [x] = [].
Proof. intros Hx. unfold among. by rewrite filter_cons_False. Qed.

Lemma among_none hidden fns :
  (∀ fn, fn ∈ fns → ident fn ∉ hidden) → among hidden fns = [].
Proof.
  intros H. unfold among. induction fns as [|y fns IH]; [done|].
  rewrite filter_cons_False by (apply H; by left).
  apply IH. intros fn Hfn. apply H. by right.
Qed.

Lemma among_elem hidden fn fns :
  fn ∈ among hidden fns ↔ ident fn ∈ hidden ∧ fn ∈ fns.
Proof. unfold among. by rewrite list_elem_of_filter. Qed.

(** A member stands at one place in the entries of its set. *)
Lemma member_split event fn st :
  wf st → fn ∈ members event st →
  ∃ r pre post,
    listeners st !! event = Some r
    ∧ sets st !! r = Some (pre ++ Some fn :: post)
    ∧ JsSet.has fn pre = false
    ∧ JsSet.has fn post = false
    ∧ members event st = JsSet.live pre ++ fn :: JsSet.live post.
Proof.
  intros Hwf Hin. unfold members, entries in *.
  destruct (listeners st !! event) as [r|] eqn:E; [|by apply elem_of_nil in Hin].
  destruct (wf_set _ Hwf _ _ E) as [es Hes].
  rewrite (set_data_Some _ _ _ Hes) in *.
  pose proof (wf_nodup _ Hwf _ _ Hes) as Hnd.
  apply elem_of_live, list_elem_of_split in Hin as (pre & post & ->).
  exists r, pre, post. split; [done|]. split; [done|].
  split; [by eapply nodup_has_false|]. split; [|by rewrite live_app].
  rewrite live_app, fmap_app in Hnd. cbn [JsSet.live] in Hnd.
  rewrite fmap_cons in Hnd.
  apply NoDup_app in Hnd as (_ & _ & [Hx _]%NoDup_cons).
  by apply has_false.
Qed.

End Members.

(** ** What the caller's other calls keep *)

Section Kept.
Import JsSetFacts.

Variable code : nat → Value → list Action.
Variable events : list Key.
Variable hidden : list Ident.

Lemma kept_refl st : kept events hidden st st.
Proof. by split. Qed.

Lemma kept_trans st0 st1 st2 :
  kept events hidden st0 st1 → kept events hidden st1 st2 →
  kept events hidden st0 st2.
Proof.
  intros [Hn Hb Hp Ht Hm] [Hn' Hb' Hp' Ht' Hm']. split.
  - lia.
  - intros b Hlt. rewrite Hb' by lia. by apply Hb.
  - intros p Hlt. rewrite Hp' by lia. by apply Hp.
  - intros id Hlt. rewrite Ht' by lia. by apply Ht.
  - intros e He. rewrite Hm' by done. by apply Hm.
Qed.

(** Changes that leave the map and the sets alone and write only to new
    addresses. *)
Lemma kept_frame st st' :
  listeners st' = listeners st → sets st' = sets st → next st ≤ next st' →
  (∀ b, b < next st → bindings st' !! b = bindings st !! b) →
  (∀ p, p < next st → promises st' !! p = promises st !! p) →
  (∀ id, id < next st → timers st' !! id = timers st !! id) →
  kept events hidden st st'.
Proof.
  intros Hl Hs Hn Hb Hp Ht. split; try done.
  intros e _. by rewrite (members_frame e st st').
Qed.

(** A cell that the call allocated is initialised. *)
Lemma kept_bind st0 st b fn :
  kept events hidden st0 st → next st0 ≤ b →
  kept events hidden st0 (bind b fn st).
Proof.
  intros [Hn Hb Hp Ht Hm] Hle. split; try done.
  intros b' Hlt. unfold bind. cbn [bindings with_bindings].
  rewrite lookup_insert_ne by lia. by apply Hb.
Qed.

Lemma kept_on e l st :
  wf st → ident l ∉ hidden → kept events hidden st (on e l st).2.
Proof.
  intros Hwf Hl. split.
  - pose proof (on_next e l st). lia.
  - intros b _. by rewrite on_bindings.
  - intros p _. by rewrite on_promises.
  - intros id _. by rewrite on_timers.
  - intros e0 _. destruct (decide (e0 = e)) as [->|Hne].
    + unfold members. rewrite entries_on, live_add by done.
      destruct (JsSet.has l (entries e st)); [done|].
      by rewrite among_app, among_other, app_nil_r.
    + by rewrite members_on_other.
Qed.

Lemma once_next e l st : next st + 2 < next (once e l st).2.
Proof.
  rewrite once_unfold. cbv zeta. cbn [snd]. unfold bind.
  cbn [next with_bindings].
  pose proof (on_next e (FOnce (S (next st)) l (next st)) (alloc (alloc st).2).2).
  simpl in *. lia.
Qed.

Lemma members_once e l e0 st :
  members e0 (once e l st).2
  = members e0 (on e (FOnce (S (next st)) l (next st)) (alloc (alloc st).2).2).2.
Proof. rewrite once_unfold. cbv zeta. cbn [snd]. by apply members_frame. Qed.

Lemma kept_once e l st :
  wf st → (∀ a, IAddr a ∈ hidden → a < next st) →
  kept events hidden st (once e l st).2.
Proof.
  intros Hwf Hh.
  set (st2 := (alloc (alloc st).2).2).
  assert (wf st2) as Hwf2 by (apply (wf_frame st); simpl; auto).
  assert (kept events hidden st2 (on e (FOnce (S (next st)) l (next st)) st2).2)
    as [_ _ _ _ Hm].
  { apply kept_on; [done|]. cbn [ident]. intros Hin. apply Hh in Hin. lia. }
  split.
  - pose proof (once_next e l st). lia.
  - intros b Hlt. rewrite once_bindings. by rewrite lookup_insert_ne by lia.
  - intros p _. by rewrite once_promises.
  - intros id _. by rewrite once_timers.
  - intros e0 He0. rewrite members_once. fold st2. rewrite Hm by done.
    by rewrite (members_frame e0 st st2).
Qed.

Lemma kept_take e st :
  wf st → (∀ a, IAddr a ∈ hidden → a < next st) →
  kept events hidden st (take e st).2.
Proof.
  intros Hwf Hh. rewrite take_unfold. cbn [snd].
  apply (kept_trans _ (new_Promise st).2).
  - apply kept_frame; try done; simpl; [lia|].
    intros p Hlt. by rewrite lookup_insert_ne by lia.
  - apply kept_once; [by apply wf_new_Promise|].
    intros a Ha. apply Hh in Ha. simpl. lia.
Qed.

Lemma kept_takeTimeout e t st :
  wf st → (∀ a, IAddr a ∈ hidden → a < next st) →
  kept events hidden st (takeTimeout e t st).2.
Proof.
  intros Hwf Hh. rewrite takeTimeout_unfold. cbv zeta. cbn [snd].
  set (n := next st). set (st_o := mkState _ _ _ _ _ _ _).
  apply kept_bind; [|unfold n; lia].
  apply (kept_trans _ st_o).
  - apply kept_frame; try done; simpl.
    + lia.
    + intros p Hlt. by rewrite lookup_insert_ne by (unfold n; lia).
    + intros id Hlt. by rewrite lookup_insert_ne by (unfold n; lia).
  - apply kept_once; [apply (wf_frame st); simpl; auto; lia|].
    intros a Ha. apply Hh in Ha. simpl. lia.
Qed.

Lemma kept_takeEither s f st :
  wf st → (∀ a, IAddr a ∈ hidden → a < next st) →
  kept events hidden st (takeEither s f st).2.
Proof.
  intros Hwf Hh. rewrite takeEither_unfold. cbv zeta. cbn [snd].
  set (n := next st). set (st_o := mkState _ _ _ _ _ _ _).
  set (r := once s _ st_o). set (st0 := bind (3 + n) r.1 r.2).
  assert (wf st_o) as Hwf_o by (apply (wf_frame st); simpl; auto; lia).
  assert (kept events hidden st st_o) as Ho.
  { apply kept_frame; try done; simpl; [lia|].
    intros p Hlt. by rewrite lookup_insert_ne by (unfold n; lia). }
  assert (kept events hidden st st0) as H0.
  { apply kept_bind; [|unfold n; lia]. apply (kept_trans _ st_o); [done|].
    apply kept_once; [done|]. intros a Ha. apply Hh in Ha. simpl. lia. }
  assert (wf st0) as Hwf0 by by apply wf_bind, wf_once.
  apply kept_bind; [|unfold n; lia].
  apply (kept_trans _ st0); [done|].
  apply (kept_trans _ (alloc st0).2).
  - apply kept_frame; try done. simpl. lia.
  - apply kept_once; [by apply wf_alloc|].
    intros a Ha. apply Hh in Ha. pose proof (kept_next _ _ _ _ H0) as Hn0.
    change (a < S (next st0)). lia.
Qed.

Lemma kept_emitCallback e st : kept events hidden st (emitCallback e st).2.
Proof. apply kept_frame; try done. simpl. lia. Qed.

Lemma kept_off e st : e ∉ events → kept events hidden st (off e st).
Proof.
  intros He. split; try done. intros e0 He0.
  rewrite members_off_other; [done|]. by intros ->.
Qed.

Lemma kept_unsubscribe e l st :
  wf st → ident l ∉ hidden → kept events hidden st (unsubscribe e l st).
Proof.
  intros Hwf Hl. split.
  - by destruct (listeners st !! e) eqn:E; unfold unsubscribe; rewrite E.
  - intros b _. by rewrite unsubscribe_bindings.
  - intros p _. by rewrite unsubscribe_promises.
  - intros id _. by rewrite unsubscribe_timers.
  - intros e0 _. destruct (decide (e0 = e)) as [->|Hne].
    + rewrite members_unsubscribe by done. by apply among_without.
    + by rewrite members_unsubscribe_other.
Qed.

(** An emission to passive members changes the record of calls only. *)
Lemma emit_passive_result fuel e v st st' :
  Forall (passive code v) (members e st) →
  emit code fuel e v st = Some st' →
  st' = with_calls (calls st ++ log (members e st) v) st.
Proof.
  intros Hp H.
  pose proof (emit_passive code (S (fuel + length (members e st))) e v st Hp
                ltac:(lia)) as H'.
  rewrite (emit_fuel code fuel (S (fuel + length (members e st))) e v st st'
             ltac:(lia) H) in H'.
  by injection H'.
Qed.

Lemma between_kept st0 st :
  wf st0 → (∀ a, IAddr a ∈ hidden → a < next st0) →
  between code events hidden st0 st →
  kept events hidden st0 st ∧ wf st.
Proof.
  intros Hwf0 Hh.
  assert (∀ st', kept events hidden st0 st' →
            ∀ a, IAddr a ∈ hidden → a < next st') as Hh'.
  { intros st' [Hn _ _ _ _] a Ha. apply Hh in Ha. lia. }
  induction 1 as [|e l st' _ [IH Hwf] Hl|e l st' _ [IH Hwf]|e st' _ [IH Hwf]
                  |e t st' _ [IH Hwf]|s f st' _ [IH Hwf]|e st' _ [IH Hwf]
                  |e st' _ [IH Hwf] He|fuel a e l v st' st'' _ [IH Hwf] Hl Hc
                  |fuel e v st' st'' _ [IH Hwf] He Hp Hc].
  - split; [apply kept_refl|done].
  - split; [|by apply wf_on]. eapply kept_trans; [done|]. by apply kept_on.
  - split; [|by apply wf_once]. eapply kept_trans; [done|].
    apply kept_once; auto.
  - split; [|by apply wf_take]. eapply kept_trans; [done|].
    apply kept_take; auto.
  - split; [|by apply wf_takeTimeout]. eapply kept_trans; [done|].
    apply kept_takeTimeout; auto.
  - split; [|by apply wf_takeEither]. eapply kept_trans; [done|].
    apply kept_takeEither; auto.
  - split; [|by apply wf_emitCallback]. eapply kept_trans; [done|].
    apply kept_emitCallback.
  - split; [|by apply wf_off]. eapply kept_trans; [done|]. by apply kept_off.
  - destruct fuel as [|fuel]; [done|]. cbn [call] in Hc.
    injection Hc as <-. split; [|by apply wf_unsubscribe].
    eapply kept_trans; [done|]. by apply kept_unsubscribe.
  - rewrite (emit_passive_result _ _ _ _ _ Hp Hc).
    split; [|by apply wf_with_calls]. eapply kept_trans; [done|].
    by apply kept_frame.
Qed.

End Kept.

(** ** Handles after [off] *)

Section HandlesLater.
Import JsSetFacts.

Variable code : nat → Value → list Action.

Lemma absent_on x e l e0 st :
  wf st → ident l ≠ x →
  x ∉ ident <$> members e0 st → x ∉ ident <$> members e0 (on e l st).2.
Proof.
  intros Hwf Hl Hx. destruct (decide (e0 = e)) as [->|Hne].
  - unfold members in *. rewrite entries_on, live_add by done.
    destruct (JsSet.has l (entries e st)); [done|].
    rewrite fmap_app. intros [?|Hin]%elem_of_app; [done|].
    apply list_elem_of_singleton in Hin. by apply Hl.
  - by rewrite members_on_other.
Qed.

Section Unregistered.

Variable a : nat.
Variable events : list Key.

Lemma unregistered_frame st st' :
  listeners st' = listeners st → sets st' = sets st → next st ≤ next st' →
  unregistered a events st → unregistered a events st'.
Proof.
  intros Hl Hs Hn (Hwf & Ha & Hm). split; [by apply (wf_frame st)|].
  split; [lia|]. intros e He. rewrite (members_frame e st st') by done. auto.
Qed.

Lemma unregistered_on e l st :
  ident l ≠ IAddr a →
  unregistered a events st → unregistered a events (on e l st).2.
Proof.
  intros Hl (Hwf & Ha & Hm). split; [by apply wf_on|].
  split; [pose proof (on_next e l st); lia|].
  intros e0 He0. apply absent_on; auto.
Qed.

Lemma unregistered_once e l st :
  unregistered a events st → unregistered a events (once e l st).2.
Proof.
  intros (Hwf & Ha & Hm). split; [by apply wf_once|].
  split; [pose proof (once_next e l st); lia|].
  intros e0 He0. rewrite members_once. apply absent_on.
  - apply (wf_frame st); simpl; auto.
  - cbn [ident]. intros [= Heq]. lia.
  - rewrite (members_frame e0 st) by done. auto.
Qed.

Lemma unregistered_off e st :
  unregistered a events st → unregistered a events (off e st).
Proof.
  intros (Hwf & Ha & Hm). split; [by apply wf_off|]. split; [done|].
  intros e0 He0. destruct (decide (e0 = e)) as [->|Hne].
  - rewrite members_off. by intros ?%elem_of_nil.
  - rewrite members_off_other by done. auto.
Qed.

Lemma unregistered_unsubscribe e l st :
  unregistered a events st → unregistered a events (unsubscribe e l st).
Proof.
  intros (Hwf & Ha & Hm). split; [by apply wf_unsubscribe|].
  split; [by destruct (listeners st !! e) eqn:E; unfold unsubscribe; rewrite E|].
  intros e0 He0. destruct (decide (e0 = e)) as [->|Hne].
  - rewrite members_unsubscribe by done. intros Hin. apply (Hm e He0).
    apply list_elem_of_fmap in Hin as (fn & -> & Hfn).
    apply list_elem_of_fmap. exists fn. split; [done|].
    unfold without in Hfn. by apply list_elem_of_filter in Hfn as [_ ?].
  - rewrite members_unsubscribe_other by done. auto.
Qed.

Lemma unregistered_settle p s st :
  unregistered a events st → unregistered a events (settle p s st).
Proof.
  unfold settle. destruct (promises st !! p) as [[]|]; try done.
  by apply unregistered_frame.
Qed.

Lemma unregistered_take e st :
  unregistered a events st → unregistered a events (take e st).2.
Proof.
  intros H. rewrite take_unfold. cbn [snd]. apply unregistered_once.
  revert H. apply unregistered_frame; try done. simpl. lia.
Qed.

Lemma unregistered_takeTimeout e t st :
  unregistered a events st → unregistered a events (takeTimeout e t st).2.
Proof.
  intros H. rewrite takeTimeout_unfold. cbv zeta. cbn [snd].
  set (st_o := mkState _ _ _ _ _ _ _). set (r := once e _ st_o).
  apply (unregistered_frame r.2); [reflexivity|reflexivity|reflexivity|].
  apply unregistered_once. revert H.
  apply unregistered_frame; [reflexivity|reflexivity|].
  unfold st_o. cbn [next]. lia.
Qed.

Lemma unregistered_takeEither s f st :
  unregistered a events st → unregistered a events (takeEither s f st).2.
Proof.
  intros H. rewrite takeEither_unfold. cbv zeta. cbn [snd].
  set (st_o := mkState _ _ _ _ _ _ _). set (r := once s _ st_o).
  set (st0 := bind _ r.1 r.2). set (r' := once f _ (alloc st0).2).
  apply (unregistered_frame r'.2); [reflexivity|reflexivity|reflexivity|].
  apply unregistered_once.
  apply (unregistered_frame r.2); [reflexivity|reflexivity| |].
  { change (next r.2 ≤ S (next r.2)). lia. }
  apply unregistered_once. revert H.
  apply unregistered_frame; [reflexivity|reflexivity|].
  unfold st_o. cbn [next]. lia.
Qed.

Lemma call_unregistered fuel fn v st st' :
  call code fuel fn v st = Some st' →
  unregistered a events st → unregistered a events st'.
Proof.
  apply (call_preserves code (unregistered a events)).
  - intros. by eapply unregistered_frame; [..|eassumption].
  - intros. by apply unregistered_on.
  - intros. by apply unregistered_once.
  - intros. by apply unregistered_off.
  - intros. by apply unregistered_unsubscribe.
  - intros. by apply unregistered_settle.
  - intros. by eapply unregistered_frame; [..|eassumption].
Qed.

Lemma later_unregistered st st' :
  later code (IAddr a) st st' →
  unregistered a events st → unregistered a events st'.
Proof.
  intros Hl Hst.
  induction Hl as [|e l st' _ IH Hne|e l st' _ IH|e st' _ IH|e st' _ IH
                   |e t st' _ IH|s f st' _ IH|e st' _ IH
                   |fuel e v st' st'' _ IH Hc|fuel fn v st' st'' _ IH Hc
                   |fuel id st' st'' _ IH Hc].
  - done.
  - by apply unregistered_on.
  - by apply unregistered_once.
  - by apply unregistered_off.
  - by apply unregistered_take.
  - by apply unregistered_takeTimeout.
  - by apply unregistered_takeEither.
  - revert IH. apply unregistered_frame; try done. simpl. lia.
  - revert Hc IH. apply emit_with_preserves. intros ????.
    apply call_unregistered.
  - by eapply call_unregistered.
  - revert Hc IH. unfold fireTimer.
    destruct (timers st' !! id) as [cb|]; [|by intros [= <-]].
    intros Hc IH. eapply call_unregistered; [done|].
    revert IH. by apply unregistered_frame.
Qed.

End Unregistered.

(** C2, as the code has it.  A handle looks its listener up, by event name
    and identity, in the set that the event maps to when the handle is
    called; calling it returns normally in every state.

    A handle of [on]: right after [off] it is a no-op, and when the same
    function is registered again it removes that registration.  In
    general it removes the function of the identity it was made for from
    the set of its event and nothing else, so it is a no-op exactly when
    no such function is registered.

    A handle of [once] removes the adapter of the call, which the caller
    does not hold: whatever the program does after [off], the adapter is
    not registered again and the handle stays a no-op. *)
Theorem handle_after_off fuel event listener value st :
  wf st →
  (let handle := (on event listener st).1 in
   ∀ st2, wf st2 →
     call code (S fuel) handle value (off event st2) = Some (off event st2)
     ∧ (let st3 := (on event listener (off event st2)).2 in
        members event st3 = [listener]
        ∧ ∃ st4,
            call code (S fuel) handle value st3 = Some st4
            ∧ members event st4 = [])
     ∧ ∃ st3,
         call code (S fuel) handle value st2 = Some st3
         ∧ members event st3 = without listener (members event st2)
         ∧ (∀ e, e ≠ event → members e st3 = members e st2)
         ∧ (ident listener ∉ ident <$> members event st2 → st3 = st2))
  ∧ (let '(handle, st1) := once event listener st in
     ∃ a' a b,
       handle = FUnsubscribe a' event (FOnce a listener b)
       ∧ ∀ st2 st3,
           later code (IAddr a) st1 st2 →
           later code (IAddr a) (off event st2) st3 →
           call code (S fuel) handle value st3 = Some st3).
Proof.
  intros Hwf. split.
  - destruct (on_handle event listener st) as [a ->]. cbv zeta.
    intros st2 Hwf2.
    assert (∀ st', wf st' →
              call code (S fuel) (FUnsubscribe a event listener) value st'
              = Some (unsubscribe event listener st')) as Hcall by done.
    split; [|split].
    + rewrite Hcall by by apply wf_off. f_equal.
      apply unsubscribe_absent; [by apply wf_off|].
      rewrite members_off. by intros ?%elem_of_nil.
    + assert (members event (on event listener (off event st2)).2 = [listener])
        as Hm.
      { rewrite members_on_new; [by rewrite members_off|by apply wf_off|].
        rewrite members_off. by intros ?%elem_of_nil. }
      split; [done|]. eexists. split; [by apply Hcall, wf_on, wf_off|].
      rewrite members_unsubscribe by by apply wf_on, wf_off.
      rewrite Hm. apply without_here.
    + eexists. split; [by apply Hcall|].
      split; [by apply members_unsubscribe|].
      split; [intros e He; by apply members_unsubscribe_other|].
      by apply unsubscribe_absent.
  - destruct (once_handle event listener st) as [a' Hh].
    pose proof (wf_once event listener st Hwf) as Hwf1.
    pose proof (once_next event listener st) as Hn1.
    destruct (once event listener st) as [handle st1]. cbn [fst snd] in *.
    exists a', (S (next st)), (next st). split; [done|].
    intros st2 st3 H12 H23. subst handle. cbn [call]. f_equal.
    assert (unregistered (S (next st)) [] st1) as H1.
    { split; [done|]. split; [lia|]. by intros e ?%elem_of_nil. }
    destruct (later_unregistered _ _ _ _ H12 H1) as (Hwf2 & Hn2 & _).
    assert (unregistered (S (next st)) [event] (off event st2)) as H2.
    { split; [by apply wf_off|]. split; [done|].
      intros e ->%list_elem_of_singleton. rewrite members_off.
      by intros ?%elem_of_nil. }
    destruct (later_unregistered _ _ _ _ H23 H2) as (Hwf3 & _ & Habs).
    apply unsubscribe_absent; [done|]. apply Habs. by left.
Qed.

End HandlesLater.

(** C2 at work on a fresh emitter. *)
Lemma handle_after_off_witness :
  (let handle := (on "e" (FUser 0) new).1 in
   ∀ st2, wf st2 →
     call Examples.quiet 1 handle VUndefined (off "e" st2) = Some (off "e" st2)
     ∧ (let st3 := (on "e" (FUser 0) (off "e" st2)).2 in
        members "e" st3 = [FUser 0]
        ∧ ∃ st4,
            call Examples.quiet 1 handle VUndefined st3 = Some st4
            ∧ members "e" st4 = [])
     ∧ ∃ st3,
         call Examples.quiet 1 handle VUndefined st2 = Some st3
         ∧ members "e" st3 = without (FUser 0) (members "e" st2)
         ∧ (∀ e, e ≠ "e" → members e st3 = members e st2)
         ∧ (ident (FUser 0) ∉ ident <$> members "e" st2 → st3 = st2))
  ∧ (let '(handle, st1) := once "e" (FUser 0) new in
     ∃ a' a b,
       handle = FUnsubscribe a' "e" (FOnce a (FUser 0) b)
       ∧ ∀ st2 st3,
           later Examples.quiet (IAddr a) st1 st2 →
           later Examples.quiet (IAddr a) (off "e" st2) st3 →
           call Examples.quiet 1 handle VUndefined st3 = Some st3).
Proof.
  apply (handle_after_off Examples.quiet 0 "e" (FUser 0) VUndefined new).
  apply wf_new.
Defined.

(** ** Allocated function objects *)

Section Allocated.
Import JsSetFacts.

Variable code : nat → Value → list Action.

Lemma allocated_new : allocated new.
Proof. intros r es fn a H. simpl in H. by rewrite lookup_empty in H. Qed.

Lemma allocated_frame st st' :
  sets st' = sets st → next st ≤ next st' → allocated st → allocated st'.
Proof.
  intros Hs Hn H r es fn a Hes Hfn Ha. rewrite Hs in Hes.
  pose proof (H r es fn a Hes Hfn Ha). lia.
Qed.

Lemma allocated_on e l st :
  wf st → (∀ a, ident l = IAddr a → a < next st) →
  allocated st → allocated (on e l st).2.
Proof.
  intros Hwf Hl H. rewrite on_spec by done. simpl.
  pose proof (on_addr_bound e st) as Hb.
  intros r es fn a Hes Hfn Ha. cbn [sets next] in *.
  apply lookup_insert_Some in Hes as [[<- <-]|[Hne Hes]].
  - rewrite live_add in Hfn.
    assert (fn ∈ JsSet.live (entries e st) → a < next st) as Hold.
    { unfold entries. destruct (listeners st !! e) as [r|] eqn:E;
        [|by intros ?%elem_of_nil].
      destruct (wf_set _ Hwf _ _ E) as [es Hes].
      rewrite (set_data_Some _ _ _ Hes). intros Hin. by apply (H r es fn a). }
    destruct (JsSet.has l (entries e st)).
    + specialize (Hold Hfn). lia.
    + apply elem_of_app in Hfn as [Hin| ->%list_elem_of_singleton].
      * specialize (Hold Hin). lia.
      * specialize (Hl a Ha). lia.
  - pose proof (H r es fn a Hes Hfn Ha). lia.
Qed.

Lemma allocated_once e l st :
  wf st → allocated st → allocated (once e l st).2.
Proof.
  intros Hwf H. rewrite once_unfold. cbv zeta. cbn [snd].
  set (st2 := (alloc (alloc st).2).2).
  apply (allocated_frame (on e (FOnce (S (next st)) l (next st)) st2).2);
    [done|done|].
  apply allocated_on.
  - apply (wf_frame st); simpl; auto.
  - cbn [ident]. intros a [= <-]. simpl. lia.
  - revert H. apply allocated_frame; [done|]. simpl. lia.
Qed.

Lemma allocated_unsubscribe e l st :
  allocated st → allocated (unsubscribe e l st).
Proof.
  intros H. unfold unsubscribe, Set_delete.
  destruct (listeners st !! e) as [r|]; [|done]. simpl.
  intros r' es fn a Hes Hfn Ha. simpl in Hes.
  destruct (decide (r' = r)) as [->|Hne].
  - rewrite lookup_alter_eq in Hes.
    destruct (sets st !! r) as [es0|] eqn:E; [|done].
    simpl in Hes. injection Hes as <-.
    apply (H r es0 fn a E); [|done]. by apply (live_delete_subseteq l).
  - rewrite lookup_alter_ne in Hes by done. by apply (H r' es fn a).
Qed.

Lemma allocated_settle p s st : allocated st → allocated (settle p s st).
Proof. unfold settle. by destruct (promises st !! p) as [[]|]. Qed.

Lemma allocated_take e st :
  wf st → allocated st → allocated (take e st).2.
Proof.
  intros Hwf H. rewrite take_unfold. cbn [snd].
  apply allocated_once; [by apply wf_new_Promise|].
  revert H. apply allocated_frame; [done|]. simpl. lia.
Qed.

Lemma allocated_takeTimeout e t st :
  wf st → allocated st → allocated (takeTimeout e t st).2.
Proof.
  intros Hwf H. rewrite takeTimeout_unfold. cbv zeta. cbn [snd].
  set (st_o := mkState _ _ _ _ _ _ _). set (r := once e _ st_o).
  apply (allocated_frame r.2); [reflexivity|reflexivity|].
  apply allocated_once; [apply (wf_frame st); simpl; auto; lia|].
  revert H. apply allocated_frame; [reflexivity|]. unfold st_o. cbn [next]. lia.
Qed.

Lemma allocated_takeEither s f st :
  wf st → allocated st → allocated (takeEither s f st).2.
Proof.
  intros Hwf H. rewrite takeEither_unfold. cbv zeta. cbn [snd].
  set (st_o := mkState _ _ _ _ _ _ _). set (r := once s _ st_o).
  set (st0 := bind _ r.1 r.2). set (r' := once f _ (alloc st0).2).
  assert (wf st_o) as Hwf_o by (apply (wf_frame st); simpl; auto; lia).
  assert (wf r.2) as Hwf_r by by apply wf_once.
  apply (allocated_frame r'.2); [reflexivity|reflexivity|].
  apply allocated_once; [by apply wf_alloc, wf_bind|].
  apply (allocated_frame r.2); [reflexivity| |].
  { change (next r.2 ≤ S (next r.2)). lia. }
  apply allocated_once; [done|].
  revert H. apply allocated_frame; [reflexivity|]. unfold st_o. cbn [next]. lia.
Qed.

(** Calls keep the function objects of the sets allocated. *)
Lemma call_allocated fuel fn v st st' :
  call code fuel fn v st = Some st' →
  wf st ∧ allocated st → wf st' ∧ allocated st'.
Proof.
  apply (call_preserves code (λ s, wf s ∧ allocated s)).
  - intros n w s [??]. split; [by apply wf_record|done].
  - intros e n s [??]. split; [by apply wf_on|]. by apply allocated_on.
  - intros e n s [??]. split; [by apply wf_once|]. by apply allocated_once.
  - intros e s [??]. split; [by apply wf_off|done].
  - intros e l s [??]. split; [by apply wf_unsubscribe|].
    by apply allocated_unsubscribe.
  - intros p s s' _ [??]. split; [by apply wf_settle|].
    by apply allocated_settle.
  - intros id s [??]. split; [by apply wf_clearTimeout|done].
Qed.

(** An arrow that is allocated now is new to the set of every event. *)
Lemma allocated_fresh e fn a st :
  wf st → allocated st → ident fn = IAddr a → next st ≤ a →
  JsSet.has fn (entries e st) = false.
Proof.
  intros Hwf H Hfn Ha. apply has_false.
  intros (x & Hid & Hx)%list_elem_of_fmap.
  unfold entries in Hx. destruct (listeners st !! e) as [r|] eqn:E;
    [|by apply elem_of_nil in Hx].
  destruct (wf_set _ Hwf _ _ E) as [es Hes].
  rewrite (set_data_Some _ _ _ Hes) in Hx.
  assert (a < next st); [|lia]. apply (H r es x a Hes Hx). congruence.
Qed.

End Allocated.

(** ** The emission that reaches an adapter of [once] *)

Section AdapterEmission.
Import JsSetFacts.

Variable code : nat → Value → list Action.

(** The adapter stands anywhere in the set, between passive members: the
    members before it are called, the wrapped listener runs to [st_l],
    the adapter takes itself out of the set, and the members behind it
    are called. *)
Lemma emit_once_at fuel event value st r pre a l b post post' a' st_l :
  let adapter := FOnce a l b in
  listeners st !! event = Some r →
  set_data r st = pre ++ Some adapter :: post →
  JsSet.has adapter pre = false →
  Forall (passive code value) (JsSet.live pre) →
  call code fuel l value
       (with_calls (calls st ++ log (JsSet.live pre) value) st) = Some st_l →
  listeners st_l !! event = Some r →
  sets st_l !! r = Some (pre ++ Some adapter :: post') →
  bindings st_l !! b = Some (FUnsubscribe a' event adapter) →
  Forall (passive code value) (JsSet.live post') →
  length (JsSet.live pre) + length (JsSet.live post') + 1 ≤ fuel →
  let st_u := unsubscribe event adapter st_l in
  emit code (S fuel) event value st
  = Some (with_calls (calls st_u ++ log (JsSet.live post') value) st_u)
  ∧ set_data r st_u = pre ++ None :: post'.
Proof.
  intros adapter E Hes Hnew Hpre Hcall E_l Hsets_l Hb Hpost Hfuel st_u.
  set (st_a := with_calls (calls st ++ log (JsSet.live pre) value) st) in *.
  assert (set_data r st_a = pre ++ Some adapter :: post) as Hes_a by done.
  destruct (S fuel - length (JsSet.live pre)) as [|k] eqn:Ek; [lia|].
  destruct (forEach_once code fuel k event r value st_a pre a l b post post'
              a' st_l Hes_a Hnew Hcall E_l Hsets_l Hb) as [Hstep Hdata].
  fold adapter st_u in Hstep, Hdata. split; [|done].
  unfold emit, emit_with. rewrite E.
  rewrite (forEach_passive_steps code fuel _ r value pre []
             (Some adapter :: post) st); [|done|done|lia].
  fold st_a. simpl length at 2. cbn [Nat.add]. rewrite Ek, Hstep.
  replace (S (length pre)) with (length (pre ++ [None]))
    by (rewrite length_app; simpl; lia).
  rewrite (forEach_passive_steps code fuel _ r value post' (pre ++ [None]) []
             st_u); [|by rewrite Hdata, app_nil_r, <- app_assoc|done|lia].
  apply forEach_done.
  change (set_data r (with_calls _ st_u)) with (set_data r st_u).
  rewrite Hdata.
  replace (pre ++ None :: post') with ((pre ++ [None]) ++ post')
    by by rewrite <- app_assoc.
  rewrite <- length_app. by rewrite drop_all.
Qed.

(** An adapter whose listener settles the promise [p] after a step [g]
    that leaves the set of the event, the cells and the promises alone. *)
Lemma adapter_settles event v st a l b ah p outcome (g : State → State) k :
  let ad := FOnce a l b in
  wf st →
  ad ∈ members event st →
  bindings st !! b = Some (FUnsubscribe ah event ad) →
  promises st !! p = Some Pending →
  (∀ fn, fn ∈ members event st → fn ≠ ad → passive code v fn) →
  (∀ fuel cs, call code (k + fuel) l v (with_calls cs st)
              = Some (settle p outcome (g (with_calls cs st)))) →
  (∀ cs, listeners (g (with_calls cs st)) = listeners st) →
  (∀ cs r, listeners st !! event = Some r →
     sets (g (with_calls cs st)) !! r = sets st !! r) →
  (∀ cs, bindings (g (with_calls cs st)) = bindings st) →
  (∀ cs, promises (g (with_calls cs st)) = promises st) →
  ∃ cs cs',
    let st' := with_calls cs'
                 (unsubscribe event ad (settle p outcome (g (with_calls cs st)))) in
    (∀ fuel, length (members event st) + k < fuel →
       emit code fuel event v st = Some st')
    ∧ promises st' !! p = Some outcome
    ∧ members event st' = without ad (members event st).
Proof.
  intros ad Hwf Hin Hb Hp Hothers Hl Hg1 Hg2 Hg3 Hg4.
  destruct (member_split event ad st Hwf Hin)
    as (r & pre & post & E & Hsets & Hpre & Hpost & Hm).
  assert (∀ es, JsSet.has ad es = false → ad ∉ JsSet.live es) as Hnot.
  { intros es Hes Hx. apply has_false in Hes. apply Hes.
    apply list_elem_of_fmap. by exists ad. }
  assert (Forall (passive code v) (JsSet.live pre)) as Hp_pre.
  { apply Forall_forall. intros fn Hfn. apply Hothers.
    - rewrite Hm. apply elem_of_app. by left.
    - intros ->. by apply (Hnot pre). }
  assert (Forall (passive code v) (JsSet.live post)) as Hp_post.
  { apply Forall_forall. intros fn Hfn. apply Hothers.
    - rewrite Hm. apply elem_of_app. right. by right.
    - intros ->. by apply (Hnot post). }
  set (cs := calls st ++ log (JsSet.live pre) v).
  set (st_g := g (with_calls cs st)).
  set (st_l := settle p outcome st_g).
  assert (st_l = with_promises (<[p := outcome]> (promises st_g)) st_g) as Hst_l.
  { apply settle_pending. unfold st_g. by rewrite Hg4. }
  set (st_u := unsubscribe event ad st_l).
  exists cs, (calls st_u ++ log (JsSet.live post) v). cbv zeta.
  fold st_g st_l st_u.
  assert (listeners st_l !! event = Some r) as E_l.
  { rewrite Hst_l. cbn [listeners with_promises]. unfold st_g. by rewrite Hg1. }
  assert (sets st_l !! r = Some (pre ++ Some ad :: post)) as Hsets_l.
  { rewrite Hst_l. cbn [sets with_promises]. unfold st_g.
    by rewrite (Hg2 _ _ E). }
  assert (bindings st_l !! b = Some (FUnsubscribe ah event ad)) as Hb_l.
  { rewrite Hst_l. cbn [bindings with_promises]. unfold st_g. by rewrite Hg3. }
  assert (set_data r st = pre ++ Some ad :: post) as Hdata
    by by apply set_data_Some.
  assert (length (members event st)
          = length (JsSet.live pre) + S (length (JsSet.live post))) as Hlen
    by (rewrite Hm, length_app; done).
  assert (set_data r st_u = pre ++ None :: post) as Hdata_u.
  { unfold st_u. rewrite (unsubscribe_set_data event ad st_l r _ E_l Hsets_l).
    by apply delete_middle. }
  split; [|split].
  - intros fuel Hfuel. destruct fuel as [|fuel]; [lia|].
    apply (emit_once_at fuel event v st r pre a l b post post ah st_l);
      try done; [|lia].
    replace fuel with (k + (fuel - k)) by lia. apply Hl.
  - cbn [promises with_calls]. unfold st_u. rewrite unsubscribe_promises, Hst_l.
    cbn [promises with_promises]. apply lookup_insert_eq.
  - unfold members at 1.
    rewrite (entries_data event _ r)
      by (cbn [listeners with_calls]; unfold st_u;
          by rewrite unsubscribe_listeners).
    change (set_data r (with_calls _ st_u)) with (set_data r st_u).
    rewrite Hdata_u, Hm, live_app, without_app, without_here. cbn [JsSet.live].
    rewrite !without_absent; [done|by apply has_false..].
Qed.

End AdapterEmission.

(** ** [take] and what happens before the emission *)

Section TakeBetween.
Import JsSetFacts.

Variable code : nat → Value → list Action.

(** What [take] leaves behind. *)
Lemma take_facts event st :
  wf st → allocated st →
  let n := next st in
  let adapter := FOnce (4 + n) (FResolve (1 + n) n) (3 + n) in
  ∃ a',
    (take event st).1 = n
    ∧ wf (take event st).2
    ∧ members event (take event st).2 = members event st ++ [adapter]
    ∧ bindings (take event st).2 !! (3 + n)
      = Some (FUnsubscribe a' event adapter)
    ∧ promises (take event st).2 !! n = Some Pending
    ∧ 4 + n < next (take event st).2.
Proof.
  intros Hwf Hal. cbv zeta. rewrite take_unfold. cbn [fst snd].
  set (n := next st). set (st_d := (new_Promise st).2).
  assert (wf st_d) as Hwf_d by by apply wf_new_Promise.
  assert (allocated st_d) as Hal_d
    by (revert Hal; apply allocated_frame; [done|simpl; lia]).
  destruct (once_facts event (FResolve (S n) n) st_d Hwf_d)
    as (a' & _ & Hwf1 & Hent & _ & Hbind & Hprom & _ & _ & Hnext).
  { apply (allocated_fresh _ _ (S (next st_d))); [done|done|done|lia]. }
  exists a'. split; [done|]. split; [done|].
  change (next st_d) with (3 + n) in *.
  split; [|split; [|split]].
  - unfold members. rewrite Hent, live_app.
    by rewrite (entries_frame event st st_d).
  - rewrite Hbind. apply lookup_insert_eq.
  - rewrite Hprom. apply lookup_insert_eq.
  - lia.
Qed.

(** C7, as the code has it.  [take event] registers an adapter for the
    event and returns a pending promise.  In every state that the program
    reaches from there by the steps of [between] (registrations, calls of
    the handles it holds, [off] for other events, emissions of other
    events to passive listeners) the promise is pending and the adapter is
    a member.  The emission of the event in such a state, the first one
    since the call, fulfils the promise with its payload and removes the
    adapter, when the other members are passive; no later emission
    changes the promise.  When [off event] is called instead, the adapter
    is gone with the other listeners: emissions of the event change
    nothing and the promise stays pending. *)
Theorem take_resolves_with_first_emission event st :
  wf st → allocated st →
  let '(p, st1) := take event st in
  promises st1 !! p = Some Pending
  ∧ ∃ adapter,
      members event st1 = members event st ++ [adapter]
      ∧ ∀ st2, between code [event] [ident adapter] st1 st2 →
          promises st2 !! p = Some Pending
          ∧ adapter ∈ members event st2
          ∧ (∀ value,
               (∀ fn, fn ∈ members event st2 → fn ≠ adapter →
                  passive code value fn) →
               ∃ st3,
                 (∀ fuel, length (members event st2) + 1 < fuel →
                    emit code fuel event value st2 = Some st3)
                 ∧ promises st3 !! p = Some (Fulfilled value)
                 ∧ members event st3 = without adapter (members event st2)
                 ∧ (∀ fuel es st4,
                      emits code fuel es st3 = Some st4 →
                      promises st4 !! p = Some (Fulfilled value)))
          ∧ (∀ fuel values,
               emits code fuel (emissions event values) (off event st2)
               = Some (off event st2)
               ∧ promises (off event st2) !! p = Some Pending).
Proof.
  intros Hwf Hal.
  destruct (take_facts event st Hwf Hal)
    as (a' & Hp & Hwf1 & Hm1 & Hb1 & Hp1 & Hn1).
  destruct (take event st) as [p st1]. cbn [fst snd] in *. subst p.
  set (n := next st) in *.
  set (adapter := FOnce (4 + n) (FResolve (1 + n) n) (3 + n)) in *.
  split; [done|]. exists adapter. split; [done|].
  intros st2 Hbetween.
  destruct (between_kept code [event] [ident adapter] st1 st2 Hwf1)
    as [[Hn2 Hb2 Hp2 _ Hm2] Hwf2]; [|done|].
  { intros a ->%list_elem_of_singleton%IAddr_inj. lia. }
  assert (promises st2 !! n = Some Pending) as Hpending
    by (rewrite Hp2 by lia; done).
  assert (adapter ∈ members event st2) as Hin.
  { apply (among_elem [ident adapter]). rewrite Hm2 by by left.
    apply among_elem. split; [by left|]. rewrite Hm1.
    apply elem_of_app. right. by left. }
  split; [done|]. split; [done|]. split.
  - intros value Hothers.
    destruct (adapter_settles code event value st2 (4 + n) (FResolve (1 + n) n)
                (3 + n) a' n (Fulfilled value) (λ s, s) 1 Hwf2 Hin)
      as (cs & cs' & Hemit & Hful & Hm3); try done.
    { rewrite Hb2 by lia. done. }
    eexists. split; [exact Hemit|]. split; [exact Hful|]. split; [exact Hm3|].
    intros fuel es st4 Hes.
    by apply (emits_settled code n (Fulfilled value) fuel es _ st4 Hes).
  - intros fuel values. split; [apply emits_after_off|done].
Qed.

End TakeBetween.

(** C7 as stated fails: [off] between [take] and the first emission of the
    event removes the adapter, and the emission leaves the promise
    pending. *)
Lemma take_first_emission_after_off :
  let '(p, st1) := take "e" new in
  let st2 := off "e" st1 in
  (λ st3, promises st3 !! p) <$> emit Examples.quiet 5 "e" (VNum 7) st2
  = Some (Some Pending).
Proof. vm_compute. reflexivity. Qed.

(** C7 at work: function 5 listens to ["e"] when [take] is called. *)
Lemma take_resolves_with_first_emission_witness :
  let st := (on "e" (FUser 5) new).2 in
  let '(p, st1) := take "e" st in
  promises st1 !! p = Some Pending
  ∧ ∃ adapter,
      members "e" st1 = members "e" st ++ [adapter]
      ∧ ∀ st2, between Examples.quiet ["e"] [ident adapter] st1 st2 →
          promises st2 !! p = Some Pending
          ∧ adapter ∈ members "e" st2
          ∧ (∀ value,
               (∀ fn, fn ∈ members "e" st2 → fn ≠ adapter →
                  passive Examples.quiet value fn) →
               ∃ st3,
                 (∀ fuel, length (members "e" st2) + 1 < fuel →
                    emit Examples.quiet fuel "e" value st2 = Some st3)
                 ∧ promises st3 !! p = Some (Fulfilled value)
                 ∧ members "e" st3 = without adapter (members "e" st2)
                 ∧ (∀ fuel es st4,
                      emits Examples.quiet fuel es st3 = Some st4 →
                      promises st4 !! p = Some (Fulfilled value)))
          ∧ (∀ fuel values,
               emits Examples.quiet fuel (emissions "e" values) (off "e" st2)
               = Some (off "e" st2)
               ∧ promises (off "e" st2) !! p = Some Pending).
Proof.
  apply (take_resolves_with_first_emission Examples.quiet "e").
  - apply wf_on, wf_new.
  - apply allocated_on; [apply wf_new|done|apply allocated_new].
Defined.

(** ** [takeTimeout] and what happens before the emission or the timer *)

Section TakeTimeoutBetween.
Import JsSetFacts.

Variable code : nat → Value → list Action.

Lemma settle_timers p s st : timers (settle p s st) = timers st.
Proof. unfold settle. by destruct (promises st !! p) as [[]|]. Qed.

Lemma settle_members e p s st : members e (settle p s st) = members e st.
Proof. unfold settle. by destruct (promises st !! p) as [[]|]. Qed.

(** What [takeTimeout] leaves behind. *)
Lemma takeTimeout_facts event timeout st :
  wf st → allocated st →
  let n := next st in
  let expired := FTimeoutExpired (4 + n) (3 + n) (FReject (2 + n) n) in
  let received := FTimeoutReceived (6 + n) (5 + n) (FResolve (1 + n) n) in
  let adapter := FOnce (8 + n) received (7 + n) in
  ∃ a',
    (takeTimeout event timeout st).1 = n
    ∧ wf (takeTimeout event timeout st).2
    ∧ members event (takeTimeout event timeout st).2
      = members event st ++ [adapter]
    ∧ bindings (takeTimeout event timeout st).2 !! (7 + n)
      = Some (FUnsubscribe a' event adapter)
    ∧ bindings (takeTimeout event timeout st).2 !! (3 + n)
      = Some (FUnsubscribe a' event adapter)
    ∧ promises (takeTimeout event timeout st).2 !! n = Some Pending
    ∧ timers (takeTimeout event timeout st).2 = <[5 + n := expired]> (timers st)
    ∧ 8 + n < next (takeTimeout event timeout st).2.
Proof.
  intros Hwf Hal. cbv zeta. rewrite takeTimeout_unfold. cbv zeta. cbn [fst snd].
  set (n := next st).
  set (received := FTimeoutReceived (6 + n) (5 + n) (FResolve (1 + n) n)).
  set (st_o := mkState _ _ _ _ _ _ _).
  assert (wf st_o) as Hwf_o by (apply (wf_frame st); simpl; auto; lia).
  assert (allocated st_o) as Hal_o
    by (revert Hal; apply allocated_frame; [done|simpl; lia]).
  destruct (once_facts event received st_o Hwf_o)
    as (a' & Hh & Hwf1 & Hent & _ & Hbind & Hprom & Htim & _ & Hnext).
  { apply (allocated_fresh _ _ (S (next st_o))); [done|done|done|lia]. }
  exists a'. rewrite Hh. change (next st_o) with (7 + n) in *.
  set (adapter := FOnce (S (7 + n)) received (7 + n)) in *.
  set (st_1 := (once event received st_o).2) in *.
  split; [done|]. split; [by apply wf_bind|].
  split; [|split; [|split; [|split; [|split]]]].
  - unfold members. rewrite (entries_frame event st_1) by done.
    rewrite Hent, live_app. by rewrite (entries_frame event st st_o).
  - unfold bind. cbn [bindings with_bindings].
    rewrite lookup_insert_ne by lia. rewrite Hbind. apply lookup_insert_eq.
  - unfold bind. cbn [bindings with_bindings]. apply lookup_insert_eq.
  - unfold bind. cbn [promises with_bindings]. rewrite Hprom.
    apply lookup_insert_eq.
  - unfold bind. cbn [timers with_bindings]. by rewrite Htim.
  - unfold bind. cbn [next with_bindings]. lia.
Qed.

(** C4, as the code has it.  [takeTimeout event t] registers an adapter
    for the event, sets a timer and returns a pending promise.  In every
    state that the program reaches from there by the steps of [between]
    the promise is pending, the adapter is a member and the timer is set.
    If the event is emitted in such a state, the timer is cancelled, so
    that it cannot fire any more, the adapter is removed and the promise
    is fulfilled with the payload, when the other members are passive.  If
    the timer fires in such a state, the adapter is unsubscribed and the
    promise is rejected with [undefined].  In both cases no later emission
    changes the promise.  When [off event] is called instead, emissions of
    the event change nothing, the timer stays set, and when it fires the
    promise is rejected with [undefined]. *)
Theorem takeTimeout_outcomes event timeout st :
  wf st → allocated st →
  let '(p, st1) := takeTimeout event timeout st in
  promises st1 !! p = Some Pending
  ∧ ∃ adapter id callback,
      members event st1 = members event st ++ [adapter]
      ∧ timers st1 = <[id := callback]> (timers st)
      ∧ ∀ st2, between code [event] [ident adapter] st1 st2 →
          promises st2 !! p = Some Pending
          ∧ adapter ∈ members event st2
          ∧ timers st2 !! id = Some callback
          ∧ (∀ value,
               (∀ fn, fn ∈ members event st2 → fn ≠ adapter →
                  passive code value fn) →
               ∃ st3,
                 (∀ fuel, length (members event st2) + 2 < fuel →
                    emit code fuel event value st2 = Some st3)
                 ∧ promises st3 !! p = Some (Fulfilled value)
                 ∧ timers st3 = delete id (timers st2)
                 ∧ (∀ fuel, fireTimer code fuel id st3 = Some st3)
                 ∧ members event st3 = without adapter (members event st2)
                 ∧ (∀ fuel es st4,
                      emits code fuel es st3 = Some st4 →
                      promises st4 !! p = Some (Fulfilled value)))
          ∧ (∃ st3,
               (∀ fuel, 2 ≤ fuel → fireTimer code fuel id st2 = Some st3)
               ∧ promises st3 !! p = Some (Rejected VUndefined)
               ∧ timers st3 = delete id (timers st2)
               ∧ members event st3 = without adapter (members event st2)
               ∧ (∀ fuel es st4,
                    emits code fuel es st3 = Some st4 →
                    promises st4 !! p = Some (Rejected VUndefined)))
          ∧ (let st3 := off event st2 in
             (∀ fuel values,
                emits code fuel (emissions event values) st3 = Some st3)
             ∧ promises st3 !! p = Some Pending
             ∧ timers st3 !! id = Some callback
             ∧ ∃ st4,
                 (∀ fuel, 2 ≤ fuel → fireTimer code fuel id st3 = Some st4)
                 ∧ promises st4 !! p = Some (Rejected VUndefined)).
Proof.
  intros Hwf Hal.
  destruct (takeTimeout_facts event timeout st Hwf Hal)
    as (a' & Hp & Hwf1 & Hm1 & Hb1 & Hb1' & Hp1 & Ht1 & Hn1).
  destruct (takeTimeout event timeout st) as [p st1]. cbn [fst snd] in *.
  subst p. set (n := next st) in *.
  set (reject := FReject (2 + n) n) in *.
  set (expired := FTimeoutExpired (4 + n) (3 + n) reject) in *.
  set (received := FTimeoutReceived (6 + n) (5 + n) (FResolve (1 + n) n)) in *.
  set (adapter := FOnce (8 + n) received (7 + n)) in *.
  set (handle := FUnsubscribe a' event adapter) in *.
  split; [done|]. exists adapter, (5 + n), expired. split; [done|].
  split; [done|]. intros st2 Hbetween.
  destruct (between_kept code [event] [ident adapter] st1 st2 Hwf1)
    as [[Hn2 Hb2 Hp2 Ht2 Hm2] Hwf2]; [|done|].
  { intros a ->%list_elem_of_singleton%IAddr_inj. lia. }
  assert (promises st2 !! n = Some Pending) as Hpending
    by (rewrite Hp2 by lia; done).
  assert (adapter ∈ members event st2) as Hin.
  { apply (among_elem [ident adapter]). rewrite Hm2 by by left.
    apply among_elem. split; [by left|]. rewrite Hm1.
    apply elem_of_app. right. by left. }
  assert (timers st2 !! (5 + n) = Some expired) as Htimer.
  { rewrite Ht2 by lia. rewrite Ht1. apply lookup_insert_eq. }
  assert (bindings st2 !! (3 + n) = Some handle) as Hb_expired
    by (rewrite Hb2 by lia; done).
  split; [done|]. split; [done|]. split; [done|].
  split; [|split].
  - (* the event is emitted first *)
    intros value Hothers.
    destruct (adapter_settles code event value st2 (8 + n) received (7 + n) a'
                n (Fulfilled value) (clearTimeout (5 + n)) 2 Hwf2 Hin)
      as (cs & cs' & Hemit & Hful & Hm3); try done.
    { rewrite Hb2 by lia. done. }
    cbv zeta in Hemit, Hful, Hm3.
    set (st3 := with_calls cs' _) in *.
    assert (timers st3 = delete (5 + n) (timers st2)) as Ht3.
    { unfold st3. cbn [timers with_calls].
      by rewrite unsubscribe_timers, settle_timers. }
    exists st3. split; [exact Hemit|]. split; [exact Hful|].
    split; [exact Ht3|]. split; [|split; [exact Hm3|]].
    + intros fuel. unfold fireTimer. by rewrite Ht3, lookup_delete_eq.
    + intros fuel es st4 Hes.
      by apply (emits_settled code n (Fulfilled value) fuel es _ st4 Hes).
  - (* the timer fires first *)
    set (st_c := clearTimeout (5 + n) st2).
    set (st_u := unsubscribe event adapter st_c).
    set (st3 := settle n (Rejected VUndefined) st_u).
    assert (wf st_c) as Hwf_c by by apply wf_clearTimeout.
    assert (st3 = with_promises (<[n := Rejected VUndefined]> (promises st_u)) st_u)
      as Hst3.
    { apply settle_pending. unfold st_u. by rewrite unsubscribe_promises. }
    assert (settled n (Rejected VUndefined) st3) as Hsettled.
    { split; [|done]. rewrite Hst3. simpl. apply lookup_insert_eq. }
    exists st3. split; [|split; [apply Hsettled|split; [|split]]].
    + intros fuel Hfuel. destruct fuel as [|[|fuel]]; [lia|lia|].
      unfold fireTimer. rewrite Htimer. fold st_c.
      unfold expired. rewrite call_expired.
      change (bindings st_c) with (bindings st2). rewrite Hb_expired. done.
    + unfold st3. rewrite settle_timers. unfold st_u.
      by rewrite unsubscribe_timers.
    + unfold st3. rewrite settle_members. unfold st_u.
      rewrite members_unsubscribe by done. by rewrite (members_frame event st2).
    + intros fuel es st4 Hes.
      by apply (emits_settled code n (Rejected VUndefined) fuel es _ st4 Hes).
  - (* [off] is called first *)
    cbv zeta. set (st3 := off event st2).
    assert (listeners st3 !! event = None) as E
      by (unfold st3, off; simpl; apply lookup_delete_eq).
    split; [intros fuel values; apply emits_after_off|].
    split; [done|]. split; [done|].
    set (st_c := clearTimeout (5 + n) st3).
    exists (settle n (Rejected VUndefined) st_c). split.
    + intros fuel Hfuel. destruct fuel as [|[|fuel]]; [lia|lia|].
      unfold fireTimer. change (timers st3) with (timers st2).
      rewrite Htimer. fold st_c. unfold expired. rewrite call_expired.
      change (bindings st_c) with (bindings st2). rewrite Hb_expired.
      cbn [mbind option_bind].
      change (call code (S fuel) handle VUndefined st_c)
        with (Some (unsubscribe event adapter st_c)).
      rewrite unsubscribe_unmapped by done. done.
    + rewrite settle_pending by done. simpl. apply lookup_insert_eq.
Qed.

End TakeTimeoutBetween.

(** C4 as stated fails: after [off] the event is emitted before the timer
    fires, but the timer is not cancelled and the promise is not resolved;
    the timer then rejects it. *)
Lemma takeTimeout_emission_after_off :
  let '(p, st1) := takeTimeout "e" 200 new in
  let st2 := off "e" st1 in
  (λ st3, (promises st3 !! p, size (timers st3)))
    <$> emit Examples.quiet 5 "e" (VNum 7) st2
  = Some (Some Pending, 1)
  ∧ (λ st4, promises st4 !! p)
      <$> (emit Examples.quiet 5 "e" (VNum 7) st2
           ≫= fireTimer Examples.quiet 5 5)
    = Some (Some (Rejected VUndefined)).
Proof. vm_compute. split; reflexivity. Qed.

(** C4 at work: function 5 listens to ["e"] when [takeTimeout] is called. *)
Lemma takeTimeout_outcomes_witness :
  let st := (on "e" (FUser 5) new).2 in
  let '(p, st1) := takeTimeout "e" 200 st in
  promises st1 !! p = Some Pending
  ∧ ∃ adapter id callback,
      members "e" st1 = members "e" st ++ [adapter]
      ∧ timers st1 = <[id := callback]> (timers st)
      ∧ ∀ st2, between Examples.quiet ["e"] [ident adapter] st1 st2 →
          promises st2 !! p = Some Pending
          ∧ adapter ∈ members "e" st2
          ∧ timers st2 !! id = Some callback
          ∧ (∀ value,
               (∀ fn, fn ∈ members "e" st2 → fn ≠ adapter →
                  passive Examples.quiet value fn) →
               ∃ st3,
                 (∀ fuel, length (members "e" st2) + 2 < fuel →
                    emit Examples.quiet fuel "e" value st2 = Some st3)
                 ∧ promises st3 !! p = Some (Fulfilled value)
                 ∧ timers st3 = delete id (timers st2)
                 ∧ (∀ fuel, fireTimer Examples.quiet fuel id st3 = Some st3)
                 ∧ members "e" st3 = without adapter (members "e" st2)
                 ∧ (∀ fuel es st4,
                      emits Examples.quiet fuel es st3 = Some st4 →
                      promises st4 !! p = Some (Fulfilled value)))
          ∧ (∃ st3,
               (∀ fuel, 2 ≤ fuel → fireTimer Examples.quiet fuel id st2 = Some st3)
               ∧ promises st3 !! p = Some (Rejected VUndefined)
               ∧ timers st3 = delete id (timers st2)
               ∧ members "e" st3 = without adapter (members "e" st2)
               ∧ (∀ fuel es st4,
                    emits Examples.quiet fuel es st3 = Some st4 →
                    promises st4 !! p = Some (Rejected VUndefined)))
          ∧ (let st3 := off "e" st2 in
             (∀ fuel values,
                emits Examples.quiet fuel (emissions "e" values) st3 = Some st3)
             ∧ promises st3 !! p = Some Pending
             ∧ timers st3 !! id = Some callback
             ∧ ∃ st4,
                 (∀ fuel, 2 ≤ fuel → fireTimer Examples.quiet fuel id st3 = Some st4)
                 ∧ promises st4 !! p = Some (Rejected VUndefined)).
Proof.
  apply (takeTimeout_outcomes Examples.quiet "e" 200).
  - apply wf_on, wf_new.
  - apply allocated_on; [apply wf_new|done|apply allocated_new].
Defined.

(** ** [takeEither] and what happens before the emission *)

Section TakeEitherBetween.
Import JsSetFacts.

Variable code : nat → Value → list Action.

Lemma among_head hidden x rest fns :
  among hidden fns = x :: rest →
  ∃ fns1 fns2, fns = fns1 ++ x :: fns2 ∧ among hidden fns2 = rest.
Proof.
  unfold among. induction fns as [|y fns IH]; [done|].
  destruct (decide (ident y ∈ hidden)).
  - rewrite filter_cons_True by done. intros [= -> <-]. by exists [], fns.
  - rewrite filter_cons_False by done. intros H.
    destruct (IH H) as (fns1 & fns2 & -> & Hrest).
    by exists (y :: fns1), fns2.
Qed.

Lemma live_split es fns1 x fns2 :
  JsSet.live es = fns1 ++ x :: fns2 →
  ∃ pre post,
    es = pre ++ Some x :: post
    ∧ JsSet.live pre = fns1 ∧ JsSet.live post = fns2.
Proof.
  revert fns1. induction es as [|[y|] es IH]; intros fns1; simpl.
  - by destruct fns1.
  - destruct fns1 as [|z fns1]; simpl.
    + intros [= -> <-]. by exists [], es.
    + intros [= -> H]. destruct (IH _ H) as (pre & post & -> & <- & <-).
      by exists (Some z :: pre), post.
  - intros H. destruct (IH _ H) as (pre & post & -> & <- & <-).
    by exists (None :: pre), post.
Qed.

Lemma members_mapped event fn st :
  fn ∈ members event st → ∃ r, listeners st !! event = Some r.
Proof.
  unfold members, entries. destruct (listeners st !! event) as [r|];
    [by eexists|by intros ?%elem_of_nil].
Qed.

(** The emission that reaches one of the two adapters of [takeEither]
    when the other one is registered for another event, if it is still
    registered at all. *)
Lemma either_emitted e e' v st a l b ah u au ad' p outcome :
  let ad := FOnce a l b in
  wf st → e ≠ e' →
  ad ∈ members e st →
  bindings st !! b = Some (FUnsubscribe ah e ad) →
  bindings st !! u = Some (FUnsubscribe au e' ad') →
  promises st !! p = Some Pending →
  outcome ≠ Pending →
  (∀ fn, fn ∈ members e st → fn ≠ ad → passive code v fn) →
  (∀ fuel st_a, bindings st_a !! u = Some (FUnsubscribe au e' ad') →
     call code (2 + fuel) l v st_a
     = Some (settle p outcome (unsubscribe e' ad' st_a))) →
  ∃ st',
    (∀ fuel, length (members e st) + 2 < fuel →
       emit code fuel e v st = Some st')
    ∧ promises st' !! p = Some outcome
    ∧ members e st' = without ad (members e st)
    ∧ members e' st' = without ad' (members e' st)
    ∧ (∀ fuel es st'',
         emits code fuel es st' = Some st'' →
         promises st'' !! p = Some outcome).
Proof.
  intros ad Hwf Hne Hin Hb Hu Hp Hout Hothers Hl.
  destruct (adapter_settles code e v st a l b ah p outcome
              (unsubscribe e' ad') 2 Hwf Hin Hb Hp Hothers)
    as (cs & cs' & Hemit & Hful & Hm).
  - intros fuel cs. by apply Hl.
  - intros cs. by rewrite unsubscribe_listeners.
  - intros cs r E.
    destruct (listeners st !! e') as [r'|] eqn:E';
      [|by rewrite unsubscribe_unmapped].
    unfold unsubscribe, Set_delete. cbn [listeners with_calls]. rewrite E'.
    cbn [sets with_sets with_calls]. rewrite lookup_alter_ne; [done|].
    intros ->. by apply Hne, (wf_inj _ Hwf e e' r).
  - intros cs. by rewrite unsubscribe_bindings.
  - intros cs. by rewrite unsubscribe_promises.
  - cbv zeta in Hemit, Hful, Hm. eexists.
    split; [exact Hemit|]. split; [exact Hful|]. split; [exact Hm|]. split.
    + rewrite (members_frame e' (unsubscribe e ad
                 (settle p outcome (unsubscribe e' ad' (with_calls cs st)))))
        by done.
      rewrite members_unsubscribe_other;
        [|by apply wf_settle, wf_unsubscribe, wf_with_calls|done].
      rewrite settle_members, members_unsubscribe by by apply wf_with_calls.
      by rewrite (members_frame e' st).
    + intros fuel es st'' Hes.
      by apply (emits_settled code p outcome fuel es _ st'' Hes).
Qed.


(** What [takeEither] leaves behind: the two adapters, each with the cell
    that holds its own handle and the cell that holds the handle of the
    other one. *)
Lemma takeEither_facts success failure st :
  wf st → allocated st →
  let n := next st in
  let lS := FEitherSuccess (5 + n) (4 + n) (FResolve (1 + n) n) in
  let adS := FOnce (7 + n) lS (6 + n) in
  ∃ aS aF m,
    let lF := FEitherFailure m (3 + n) (FReject (2 + n) n) in
    let adF := FOnce (2 + m) lF (1 + m) in
    let hS := FUnsubscribe aS success adS in
    let hF := FUnsubscribe aF failure adF in
    let st1 := (takeEither success failure st).2 in
    (takeEither success failure st).1 = n
    ∧ 7 + n < m ∧ 2 + m < next st1
    ∧ wf st1
    ∧ bindings st1 !! (6 + n) = Some hS
    ∧ bindings st1 !! (3 + n) = Some hS
    ∧ bindings st1 !! (1 + m) = Some hF
    ∧ bindings st1 !! (4 + n) = Some hF
    ∧ promises st1 !! n = Some Pending
    ∧ (success ≠ failure →
       members success st1 = members success st ++ [adS]
       ∧ members failure st1 = members failure st ++ [adF])
    ∧ (success = failure →
       members success st1 = members success st ++ [adS; adF]).
Proof.
  intros Hwf Hal. cbv zeta. rewrite takeEither_unfold. cbv zeta.
  cbn [fst snd]. set (n := next st).
  set (reject := FReject (2 + n) n). set (resolve := FResolve (1 + n) n).
  set (lS := FEitherSuccess (5 + n) (4 + n) resolve).
  set (st_o := mkState _ _ _ _ _ _ _).
  assert (wf st_o) as Hwf_o by (apply (wf_frame st); simpl; auto; lia).
  assert (allocated st_o) as Hal_o
    by (revert Hal; apply allocated_frame; [done|simpl; lia]).
  assert (∀ e, entries e st_o = entries e st) as Hent_o
    by (intros e; by apply entries_frame).
  destruct (once_facts success lS st_o Hwf_o)
    as (aS & HhS & Hwf_S & HentS & HentS' & HbindS & HpromS & _ & _ & HnextS).
  { apply (allocated_fresh _ _ (S (next st_o))); [done|done|done|lia]. }
  rewrite HhS. change (next st_o) with (6 + n) in *.
  set (adS := FOnce (S (6 + n)) lS (6 + n)) in *.
  set (hS := FUnsubscribe aS success adS) in *.
  set (st_S := (once success lS st_o).2) in *.
  set (st0 := bind (3 + n) hS st_S).
  set (st_p := (alloc st0).2).
  set (m := next st0).
  set (lF := FEitherFailure m (3 + n) reject).
  assert (wf st_p) as Hwf_p by (apply wf_alloc, wf_bind; done).
  assert (allocated st_p) as Hal_p.
  { apply (allocated_frame st_S); [done|simpl; lia|].
    by apply allocated_once. }
  assert (∀ e, entries e st_p = entries e st_S) as Hent_p
    by (intros e; by apply entries_frame).
  destruct (once_facts failure lF st_p Hwf_p)
    as (aF & HhF & Hwf_F & HentF & HentF' & HbindF & HpromF & _ & _ & HnextF).
  { apply (allocated_fresh _ _ (S (next st_p))); [done|done|done|lia]. }
  rewrite HhF. change (next st_p) with (1 + m) in *.
  assert (m = next st_S) as Hm by done.
  set (adF := FOnce (S (1 + m)) lF (1 + m)) in *.
  set (hF := FUnsubscribe aF failure adF) in *.
  set (st_F := (once failure lF st_p).2) in *.
  exists aS, aF, m. cbv zeta. fold reject lF adF hF.
  set (st1 := bind (4 + n) hF st_F).
  assert (bindings st1
          = <[4 + n := hF]> (<[1 + m := hF]> (<[3 + n := hS]> (<[6 + n := hS]>
              (bindings st))))) as Hb1.
  { unfold st1, bind. cbn [bindings with_bindings]. rewrite HbindF.
    unfold st_p, st0, bind. cbn [alloc snd bindings with_bindings].
    by rewrite HbindS. }
  split; [done|]. split; [lia|]. split; [change (2 + m < next st_F); lia|].
  split; [by apply wf_bind|].
  split; [rewrite Hb1, !lookup_insert_ne by lia; apply lookup_insert_eq|].
  split; [rewrite Hb1, !lookup_insert_ne by lia; apply lookup_insert_eq|].
  split; [rewrite Hb1, lookup_insert_ne by lia; apply lookup_insert_eq|].
  split; [rewrite Hb1; apply lookup_insert_eq|].
  split.
  { unfold st1, bind. cbn [promises with_bindings]. rewrite HpromF.
    unfold st_p, st0, bind. cbn [alloc snd promises with_bindings].
    rewrite HpromS. apply lookup_insert_eq. }
  assert (∀ e, entries e st1 = entries e st_F) as Hent1
    by (intros e; by apply entries_frame).
  unfold members. split.
  - intros Hne. rewrite !Hent1. split.
    + by rewrite HentF', Hent_p, HentS, Hent_o, live_app.
    + rewrite HentF, Hent_p, HentS', Hent_o, live_app by done. done.
  - intros <-. rewrite Hent1, HentF, Hent_p, HentS, Hent_o, !live_app.
    by rewrite <- app_assoc.
Qed.


Lemma nodup_split (x : Fn) xs ys :
  NoDup (ident <$> (xs ++ x :: ys)) →
  (ident x ∉ ident <$> xs) ∧ (ident x ∉ ident <$> ys).
Proof.
  rewrite fmap_app, fmap_cons.
  intros (_ & Hd & [Hx _]%NoDup_cons)%NoDup_app. split; [|done].
  intros Hin. apply (Hd _ Hin). by left.
Qed.

(** The emission that reaches the two adapters of [takeEither] in one
    set: the adapter for success stands first, its listener unsubscribes
    the adapter for failure before the loop reaches it. *)
Lemma either_same_emitted e v st aS a2 u a3 bS ahS au adF p :
  let adS := FOnce aS (FEitherSuccess a2 u (FResolve a3 p)) bS in
  wf st →
  among [ident adS; ident adF] (members e st) = [adS; adF] →
  bindings st !! bS = Some (FUnsubscribe ahS e adS) →
  bindings st !! u = Some (FUnsubscribe au e adF) →
  promises st !! p = Some Pending →
  (∀ fn, fn ∈ members e st → fn ≠ adS → fn ≠ adF → passive code v fn) →
  ∃ st',
    (∀ fuel, length (members e st) + 2 < fuel →
       emit code fuel e v st = Some st')
    ∧ promises st' !! p = Some (Fulfilled v)
    ∧ members e st' = without adF (without adS (members e st))
    ∧ (∀ fuel es st'',
         emits code fuel es st' = Some st'' →
         promises st'' !! p = Some (Fulfilled v)).
Proof.
  intros adS Hwf Ham HbS Hu Hp Hothers.
  set (lS := FEitherSuccess a2 u (FResolve a3 p)) in *.
  destruct (among_head _ _ _ _ Ham) as (fns1 & fns0 & Hm & Ham0).
  destruct (among_head _ _ _ _ Ham0) as (fns2 & fns3 & -> & _).
  assert (adS ∈ members e st) as HinS
    by (rewrite Hm; apply elem_of_app; right; by left).
  destruct (members_mapped _ _ _ HinS) as [r E].
  destruct (wf_set _ Hwf _ _ E) as [es Hes].
  pose proof (wf_nodup _ Hwf _ _ Hes) as Hnd.
  assert (members e st = JsSet.live es) as Hlive.
  { unfold members. by rewrite (entries_data _ _ _ E), (set_data_Some _ _ _ Hes). }
  rewrite Hlive in Hm.
  destruct (live_split _ _ _ _ Hm) as (pre & post0 & -> & Hpre & Hpost0).
  destruct (live_split _ _ _ _ Hpost0) as (mid & post & -> & Hmid & Hpost).
  rewrite Hm in Hnd.
  destruct (nodup_split _ _ _ Hnd) as [HS1 HS2].
  replace (fns1 ++ adS :: fns2 ++ adF :: fns3)
    with ((fns1 ++ adS :: fns2) ++ adF :: fns3) in Hnd
    by by rewrite <- app_assoc.
  destruct (nodup_split _ _ _ Hnd) as [HF1 HF3].
  rewrite fmap_app, fmap_cons in HF1, HS2.
  apply not_elem_of_app in HF1 as [HF1 [HFS HF2]%not_elem_of_cons].
  apply not_elem_of_app in HS2 as [HS2 [_ HS3]%not_elem_of_cons].
  assert (∀ (x : Fn) (fns : list Fn), ident x ∉ ident <$> fns → x ∉ fns)
    as Hnot.
  { intros x fns Hx Hin. apply Hx, list_elem_of_fmap. by exists x. }
  assert (∀ fns, fns ⊆ fns1 ++ adS :: fns2 ++ adF :: fns3 →
            ident adS ∉ ident <$> fns → ident adF ∉ ident <$> fns →
            Forall (passive code v) fns) as Hpassive.
  { intros fns Hsub H1 H2. apply Forall_forall. intros fn Hfn.
    apply Hothers.
    - rewrite Hlive, Hm. by apply Hsub.
    - intros ->. by apply (Hnot adS fns).
    - intros ->. by apply (Hnot adF fns). }
  assert (Forall (passive code v) (JsSet.live pre)) as Hp_pre.
  { rewrite Hpre. apply Hpassive; [set_solver|done|done]. }
  assert (Forall (passive code v) (JsSet.live (mid ++ None :: post))) as Hp_post.
  { rewrite live_app. cbn [JsSet.live]. rewrite Hmid, Hpost.
    apply Forall_app. split; apply Hpassive; try done; set_solver. }
  assert (JsSet.has adS pre = false) as HnewS
    by (apply has_false; by rewrite Hpre).
  assert (JsSet.has adF (pre ++ Some adS :: mid) = false) as HnewF.
  { apply has_false. rewrite live_app. cbn [JsSet.live].
    rewrite Hpre, Hmid, fmap_app, fmap_cons.
    by intros [?|[?|?]%elem_of_cons]%elem_of_app. }
  set (cs := calls st ++ log (JsSet.live pre) v).
  set (st_a := with_calls cs st).
  set (st_g := unsubscribe e adF st_a).
  set (st_l := settle p (Fulfilled v) st_g).
  assert (st_l = with_promises (<[p := Fulfilled v]> (promises st_g)) st_g)
    as Hst_l.
  { apply settle_pending. unfold st_g. by rewrite unsubscribe_promises. }
  set (st_u := unsubscribe e adS st_l).
  assert (wf st_g) as Hwf_g by by apply wf_unsubscribe, wf_with_calls.
  assert (listeners st_l !! e = Some r) as E_l.
  { rewrite Hst_l. cbn [listeners with_promises]. unfold st_g.
    by rewrite unsubscribe_listeners. }
  assert (sets st_l !! r = Some (pre ++ Some adS :: mid ++ None :: post))
    as Hsets_l.
  { rewrite Hst_l. cbn [sets with_promises].
    apply sets_lookup_data.
    - apply (wf_set _ Hwf_g e). unfold st_g. by rewrite unsubscribe_listeners.
    - unfold st_g. rewrite (unsubscribe_set_data e adF st_a r _ E Hes).
      replace (pre ++ Some adS :: mid ++ Some adF :: post)
        with ((pre ++ Some adS :: mid) ++ Some adF :: post)
        by by rewrite <- app_assoc.
      rewrite delete_middle by done. by rewrite <- app_assoc. }
  assert (set_data r st_u = pre ++ None :: mid ++ None :: post) as Hdata_u.
  { unfold st_u. rewrite (unsubscribe_set_data e adS st_l r _ E_l Hsets_l).
    by apply delete_middle. }
  exists (with_calls (calls st_u ++ log (JsSet.live (mid ++ None :: post)) v)
            st_u).
  assert (promises st_u !! p = Some (Fulfilled v)) as Hful.
  { unfold st_u. rewrite unsubscribe_promises, Hst_l.
    cbn [promises with_promises]. apply lookup_insert_eq. }
  split; [|split; [done|split]].
  - intros fuel Hfuel. rewrite Hlive, Hm, !length_app in Hfuel.
    cbn [length] in Hfuel. rewrite length_app in Hfuel. cbn [length] in Hfuel.
    destruct fuel as [|[|[|fuel]]]; [lia|lia|lia|].
    apply (emit_once_at code (S (S fuel)) e v st r pre aS lS bS
             (mid ++ Some adF :: post) (mid ++ None :: post) ahS st_l);
      try done.
    + by apply set_data_Some.
    + fold cs st_a. unfold lS. rewrite call_success.
      change (bindings st_a) with (bindings st). rewrite Hu. done.
    + rewrite Hst_l. cbn [bindings with_promises]. unfold st_g.
      by rewrite unsubscribe_bindings.
    + rewrite live_app. cbn [JsSet.live]. rewrite length_app, Hpre, Hmid, Hpost.
      lia.
  - unfold members at 1.
    rewrite (entries_data e _ r)
      by (cbn [listeners with_calls]; unfold st_u;
          by rewrite unsubscribe_listeners).
    change (set_data r (with_calls _ st_u)) with (set_data r st_u).
    rewrite Hdata_u, Hlive, Hm, !live_app. cbn [JsSet.live].
    rewrite live_app. cbn [JsSet.live]. rewrite Hpre, Hmid, Hpost.
    rewrite (without_app adS fns1), without_here, (without_app adS fns2).
    rewrite (without_absent adS fns1), (without_absent adS fns2) by done.
    assert (without adS (adF :: fns3) = adF :: fns3) as ->.
    { apply without_absent. rewrite fmap_cons. apply not_elem_of_cons.
      split; [|done]. intros Heq. by apply HFS. }
    rewrite (without_app adF fns1), (without_app adF fns2), without_here.
    by rewrite !without_absent.
  - intros fuel ems st'' Hems.
    by apply (emits_settled code p (Fulfilled v) fuel ems _ st'' Hems).
Qed.

End TakeEitherBetween.

Section TakeEitherOutcomes.
Import JsSetFacts.

Variable code : nat → Value → list Action.

Lemma allocated_member e fn a st :
  wf st → allocated st → fn ∈ members e st → ident fn = IAddr a →
  a < next st.
Proof.
  intros Hwf Hal Hin Hid. destruct (members_mapped _ _ _ Hin) as [r E].
  destruct (wf_set _ Hwf _ _ E) as [es Hes]. apply (Hal r es fn a Hes); [|done].
  unfold members in Hin.
  by rewrite (entries_data _ _ _ E), (set_data_Some _ _ _ Hes) in Hin.
Qed.

(** C5, as the code has it.  [takeEither success failure] registers an
    adapter for each of the two events and returns a pending promise,
    which is pending in every state that the program reaches from there
    by the steps of [between].

    With two different events, in such a state: the emission of [success]
    unsubscribes the adapter for [failure], removes its own adapter and
    fulfils the promise with the payload; the emission of [failure]
    unsubscribes the adapter for [success], removes its own adapter and
    rejects the promise with the payload; the other members of the
    emitted event are passive, and no later emission changes the promise.
    When [off] is called for one of the two events instead, emissions of
    that event change nothing and the promise stays pending; the emission
    of the other event then settles it in its own way.

    With one event for both, the adapter for success stands first in the
    set: the emission fulfils the promise and never rejects it, and both
    adapters are removed; after [off] emissions change nothing. *)
Theorem takeEither_outcomes success failure st :
  wf st → allocated st →
  let '(p, st1) := takeEither success failure st in
  promises st1 !! p = Some Pending
  ∧ ∃ adS adF,
      (success ≠ failure →
       members success st1 = members success st ++ [adS]
       ∧ members failure st1 = members failure st ++ [adF])
      ∧ (success = failure →
         members success st1 = members success st ++ [adS; adF])
      ∧ ∀ st2,
          between code [success; failure] [ident adS; ident adF] st1 st2 →
          promises st2 !! p = Some Pending
          ∧ (success ≠ failure →
             (∀ v,
                (∀ fn, fn ∈ members success st2 → fn ≠ adS →
                   passive code v fn) →
                ∃ st3,
                  (∀ fuel, length (members success st2) + 2 < fuel →
                     emit code fuel success v st2 = Some st3)
                  ∧ promises st3 !! p = Some (Fulfilled v)
                  ∧ members success st3 = without adS (members success st2)
                  ∧ members failure st3 = without adF (members failure st2)
                  ∧ (∀ fuel es st4,
                       emits code fuel es st3 = Some st4 →
                       promises st4 !! p = Some (Fulfilled v)))
             ∧ (∀ w,
                  (∀ fn, fn ∈ members failure st2 → fn ≠ adF →
                     passive code w fn) →
                  ∃ st3,
                    (∀ fuel, length (members failure st2) + 2 < fuel →
                       emit code fuel failure w st2 = Some st3)
                    ∧ promises st3 !! p = Some (Rejected w)
                    ∧ members failure st3 = without adF (members failure st2)
                    ∧ members success st3 = without adS (members success st2)
                    ∧ (∀ fuel es st4,
                         emits code fuel es st3 = Some st4 →
                         promises st4 !! p = Some (Rejected w)))
             ∧ (let st3 := off success st2 in
                (∀ fuel values,
                   emits code fuel (emissions success values) st3 = Some st3)
                ∧ promises st3 !! p = Some Pending
                ∧ ∀ w,
                    (∀ fn, fn ∈ members failure st2 → fn ≠ adF →
                       passive code w fn) →
                    ∃ st4,
                      (∀ fuel, length (members failure st2) + 2 < fuel →
                         emit code fuel failure w st3 = Some st4)
                      ∧ promises st4 !! p = Some (Rejected w))
             ∧ (let st3 := off failure st2 in
                (∀ fuel values,
                   emits code fuel (emissions failure values) st3 = Some st3)
                ∧ promises st3 !! p = Some Pending
                ∧ ∀ v,
                    (∀ fn, fn ∈ members success st2 → fn ≠ adS →
                       passive code v fn) →
                    ∃ st4,
                      (∀ fuel, length (members success st2) + 2 < fuel →
                         emit code fuel success v st3 = Some st4)
                      ∧ promises st4 !! p = Some (Fulfilled v)))
          ∧ (success = failure →
             (∀ v,
                (∀ fn, fn ∈ members success st2 → fn ≠ adS → fn ≠ adF →
                   passive code v fn) →
                ∃ st3,
                  (∀ fuel, length (members success st2) + 2 < fuel →
                     emit code fuel success v st2 = Some st3)
                  ∧ promises st3 !! p = Some (Fulfilled v)
                  ∧ members success st3
                    = without adF (without adS (members success st2))
                  ∧ (∀ fuel es st4,
                       emits code fuel es st3 = Some st4 →
                       promises st4 !! p = Some (Fulfilled v)))
             ∧ (let st3 := off success st2 in
                (∀ fuel values,
                   emits code fuel (emissions success values) st3 = Some st3)
                ∧ promises st3 !! p = Some Pending)).
Proof.
  intros Hwf Hal.
  destruct (takeEither_facts success failure st Hwf Hal)
    as (aS & aF & m & Hp & Hm & Hn1 & Hwf1 & HbS & HuS & HbF & HuF & Hp1
        & Hdiff & Hsame).
  destruct (takeEither success failure st) as [p st1]. cbn [fst snd] in *.
  subst p. set (n := next st) in *.
  set (resolve := FResolve (1 + n) n) in *.
  set (reject := FReject (2 + n) n) in *.
  set (lS := FEitherSuccess (5 + n) (4 + n) resolve) in *.
  set (adS := FOnce (7 + n) lS (6 + n)) in *.
  set (lF := FEitherFailure m (3 + n) reject) in *.
  set (adF := FOnce (2 + m) lF (1 + m)) in *.
  set (hS := FUnsubscribe aS success adS) in *.
  set (hF := FUnsubscribe aF failure adF) in *.
  split; [done|]. exists adS, adF. split; [done|]. split; [done|].
  intros st2 Hbetween.
  destruct (between_kept code [success; failure] [ident adS; ident adF]
              st1 st2 Hwf1) as [[Hn2 Hb2 Hp2 _ Hm2] Hwf2]; [|done|].
  { intros a [->%IAddr_inj| ->%list_elem_of_singleton%IAddr_inj]%elem_of_cons;
      lia. }
  assert (promises st2 !! n = Some Pending) as Hpending
    by (rewrite Hp2 by lia; done).
  assert (bindings st2 !! (6 + n) = Some hS) as HbS2 by (rewrite Hb2 by lia; done).
  assert (bindings st2 !! (3 + n) = Some hS) as HuS2 by (rewrite Hb2 by lia; done).
  assert (bindings st2 !! (1 + m) = Some hF) as HbF2 by (rewrite Hb2 by lia; done).
  assert (bindings st2 !! (4 + n) = Some hF) as HuF2 by (rewrite Hb2 by lia; done).
  assert (∀ e fn, e ∈ [success; failure] → ident fn ∈ [ident adS; ident adF] →
            fn ∈ members e st1 → fn ∈ members e st2) as Hstay.
  { intros e fn He Hfn Hin.
    apply (among_elem [ident adS; ident adF]). rewrite Hm2 by done.
    by apply among_elem. }
  assert (∀ v st_a,
            bindings st_a !! (4 + n) = Some hF →
            ∀ fuel, call code (2 + fuel) lS v st_a
            = Some (settle n (Fulfilled v) (unsubscribe failure adF st_a)))
    as HlS.
  { intros v st_a Hu fuel. cbn [Nat.add]. unfold lS.
    rewrite call_success, Hu. done. }
  assert (∀ w st_a,
            bindings st_a !! (3 + n) = Some hS →
            ∀ fuel, call code (2 + fuel) lF w st_a
            = Some (settle n (Rejected w) (unsubscribe success adS st_a)))
    as HlF.
  { intros w st_a Hu fuel. cbn [Nat.add]. unfold lF.
    rewrite call_failure, Hu. done. }
  split; [done|]. split.
  - (* two different events *)
    intros Hne. destruct (Hdiff Hne) as [HmS HmF].
    assert (adS ∈ members success st2) as HinS.
    { apply Hstay; [by left|by left|]. rewrite HmS.
      apply elem_of_app. right. by left. }
    assert (adF ∈ members failure st2) as HinF.
    { apply Hstay; [right; by left|right; by left|]. rewrite HmF.
      apply elem_of_app. right. by left. }
    split; [|split; [|split]].
    + intros v Hothers.
      apply (either_emitted code success failure v st2 (7 + n) lS (6 + n) aS
               (4 + n) aF adF n (Fulfilled v)); try done.
      intros fuel st_a Hu. by apply HlS.
    + intros w Hothers.
      apply (either_emitted code failure success w st2 (2 + m) lF (1 + m) aF
               (3 + n) aS adS n (Rejected w)); try done.
      intros fuel st_a Hu. by apply HlF.
    + cbv zeta. split; [intros fuel values; apply emits_after_off|].
      split; [done|]. intros w Hothers.
      destruct (either_emitted code failure success w (off success st2)
                  (2 + m) lF (1 + m) aF (3 + n) aS adS n (Rejected w))
        as (st4 & Hemit & Hrej & _); try done.
      * by apply wf_off.
      * by rewrite members_off_other.
      * rewrite members_off_other by done. exact Hothers.
      * intros fuel st_a Hu. by apply HlF.
      * exists st4. split; [|done]. intros fuel Hfuel. apply Hemit.
        by rewrite members_off_other.
    + cbv zeta. split; [intros fuel values; apply emits_after_off|].
      split; [done|]. intros v Hothers.
      destruct (either_emitted code success failure v (off failure st2)
                  (7 + n) lS (6 + n) aS (4 + n) aF adF n (Fulfilled v))
        as (st4 & Hemit & Hful & _); try done.
      * by apply wf_off.
      * by rewrite members_off_other.
      * rewrite members_off_other by done. exact Hothers.
      * intros fuel st_a Hu. by apply HlS.
      * exists st4. split; [|done]. intros fuel Hfuel. apply Hemit.
        by rewrite members_off_other.
  - (* one event for both *)
    intros Heq. specialize (Hsame Heq). subst failure.
    split; [|split; [intros fuel values; apply emits_after_off|done]].
    intros v Hothers.
    apply (either_same_emitted code success v st2 (7 + n) (5 + n) (4 + n)
             (1 + n) (6 + n) aS aF adF n); try done.
    rewrite Hm2 by by left. rewrite Hsame, among_app.
    rewrite among_none.
    + unfold among. rewrite filter_cons_True by by left.
      by rewrite filter_cons_True by (right; by left).
    + intros fn Hfn
        [Hid|Hid%list_elem_of_singleton]%elem_of_cons;
        pose proof (allocated_member _ _ _ _ Hwf Hal Hfn Hid); lia.
Qed.

End TakeEitherOutcomes.

(** C5 as stated fails: after [off] for the first event that event is
    emitted first, but the promise is not resolved, and the emission of
    the second event that follows rejects it. *)
Lemma takeEither_success_after_off :
  let '(p, st1) := takeEither "first" "second" new in
  let st2 := off "first" st1 in
  (λ st3, promises st3 !! p) <$> emit Examples.quiet 5 "first" (VNum 1) st2
  = Some (Some Pending)
  ∧ (λ st4, promises st4 !! p)
      <$> (emit Examples.quiet 5 "first" (VNum 1) st2
           ≫= emit Examples.quiet 5 "second" (VStr "a"))
    = Some (Some (Rejected (VStr "a"))).
Proof. vm_compute. split; reflexivity. Qed.

(** C5 at work: function 5 listens to ["first"] when [takeEither] is
    called. *)
Lemma takeEither_outcomes_witness :
  let st := (on "first" (FUser 5) new).2 in
  let '(p, st1) := takeEither "first" "second" st in
  promises st1 !! p = Some Pending
  ∧ ∃ adS adF,
      ("first" ≠ "second" →
       members "first" st1 = members "first" st ++ [adS]
       ∧ members "second" st1 = members "second" st ++ [adF])
      ∧ ("first" = "second" →
         members "first" st1 = members "first" st ++ [adS; adF])
      ∧ ∀ st2,
          between Examples.quiet ["first"; "second"] [ident adS; ident adF] st1 st2 →
          promises st2 !! p = Some Pending
          ∧ ("first" ≠ "second" →
             (∀ v,
                (∀ fn, fn ∈ members "first" st2 → fn ≠ adS →
                   passive Examples.quiet v fn) →
                ∃ st3,
                  (∀ fuel, length (members "first" st2) + 2 < fuel →
                     emit Examples.quiet fuel "first" v st2 = Some st3)
                  ∧ promises st3 !! p = Some (Fulfilled v)
                  ∧ members "first" st3 = without adS (members "first" st2)
                  ∧ members "second" st3 = without adF (members "second" st2)
                  ∧ (∀ fuel es st4,
                       emits Examples.quiet fuel es st3 = Some st4 →
                       promises st4 !! p = Some (Fulfilled v)))
             ∧ (∀ w,
                  (∀ fn, fn ∈ members "second" st2 → fn ≠ adF →
                     passive Examples.quiet w fn) →
                  ∃ st3,
                    (∀ fuel, length (members "second" st2) + 2 < fuel →
                       emit Examples.quiet fuel "second" w st2 = Some st3)
                    ∧ promises st3 !! p = Some (Rejected w)
                    ∧ members "second" st3 = without adF (members "second" st2)
                    ∧ members "first" st3 = without adS (members "first" st2)
                    ∧ (∀ fuel es st4,
                         emits Examples.quiet fuel es st3 = Some st4 →
                         promises st4 !! p = Some (Rejected w)))
             ∧ (let st3 := off "first" st2 in
                (∀ fuel values,
                   emits Examples.quiet fuel (emissions "first" values) st3 = Some st3)
                ∧ promises st3 !! p = Some Pending
                ∧ ∀ w,
                    (∀ fn, fn ∈ members "second" st2 → fn ≠ adF →
                       passive Examples.quiet w fn) →
                    ∃ st4,
                      (∀ fuel, length (members "second" st2) + 2 < fuel →
                         emit Examples.quiet fuel "second" w st3 = Some st4)
                      ∧ promises st4 !! p = Some (Rejected w))
             ∧ (let st3 := off "second" st2 in
                (∀ fuel values,
                   emits Examples.quiet fuel (emissions "second" values) st3 = Some st3)
                ∧ promises st3 !! p = Some Pending
                ∧ ∀ v,
                    (∀ fn, fn ∈ members "first" st2 → fn ≠ adS →
                       passive Examples.quiet v fn) →
                    ∃ st4,
                      (∀ fuel, length (members "first" st2) + 2 < fuel →
                         emit Examples.quiet fuel "first" v st3 = Some st4)
                      ∧ promises st4 !! p = Some (Fulfilled v)))
          ∧ ("first" = "second" →
             (∀ v,
                (∀ fn, fn ∈ members "first" st2 → fn ≠ adS → fn ≠ adF →
                   passive Examples.quiet v fn) →
                ∃ st3,
                  (∀ fuel, length (members "first" st2) + 2 < fuel →
                     emit Examples.quiet fuel "first" v st2 = Some st3)
                  ∧ promises st3 !! p = Some (Fulfilled v)
                  ∧ members "first" st3
                    = without adF (without adS (members "first" st2))
                  ∧ (∀ fuel es st4,
                       emits Examples.quiet fuel es st3 = Some st4 →
                       promises st4 !! p = Some (Fulfilled v)))
             ∧ (let st3 := off "first" st2 in
                (∀ fuel values,
                   emits Examples.quiet fuel (emissions "first" values) st3 = Some st3)
                ∧ promises st3 !! p = Some Pending)).
Proof.
  apply (takeEither_outcomes Examples.quiet "first" "second").
  - apply wf_on, wf_new.
  - apply allocated_on; [apply wf_new|done|apply allocated_new].
Defined.
